(** * Submissions manager of the TIG benchmarker

  A shallow embedding of
  [tig-benchmarker/tig_benchmarker/extensions/submissions_manager.py]:
  the three retry queues, the backup files of the benchmark and proof
  categories, reconciliation on [new_block], the [update] tick and the
  [submit] coroutine.  Handlers are functions in a state-and-exception
  monad over a world made of the extension object, the disk and the
  outputs (log records, HTTP posts, emitted events). *)

From Stdlib Require Import ZArith String Ascii Lia Sorted.
From stdpp Require Import base option list gmap sets strings.

Local Open Scope string_scope.
Local Open Scope list_scope.
Local Open Scope Z_scope.

#[local] Arguments String.append !s1 s2 : simpl nomatch.
#[local] Arguments Ascii.eqb : simpl never.
#[local] Arguments String.eqb : simpl never.

(** ** Python strings and POSIX paths

  Paths are the strings the program builds; two spellings of one
  location ("a//b", "./a/b") are different paths here. *)

Module Path.

Definition is_slash (c : ascii) : bool := Ascii.eqb c "/"%char.

Fixpoint has_slash (s : string) : bool :=
  match s with
  | EmptyString => false
  | String c t => is_slash c || has_slash t
  end.

Fixpoint strip_prefix (pre s : string) : option string :=
  match pre, s with
  | EmptyString, _ => Some s
  | String a p, String b t => if Ascii.eqb a b then strip_prefix p t else None
  | String _ _, EmptyString => None
  end.

(** [str.startswith] *)
Definition startswith (pre s : string) : bool :=
  match strip_prefix pre s with Some _ => true | None => false end.

(** [str.endswith]: some tail of [s] is [suf]. *)
Fixpoint endswith (suf s : string) : bool :=
  if String.eqb s suf then true
  else match s with
       | EmptyString => false
       | String _ t => endswith suf t
       end.

(** [posixpath.join] of two components. *)
Definition join (a b : string) : string :=
  if startswith "/" b then b
  else if String.eqb a "" || endswith "/" a then a +:+ b
  else a +:+ "/" +:+ b.

(** [os.path.join(a, b, c)] *)
Definition join3 (a b c : string) : string := join (join a b) c.

(** The part of a path before its last separator, empty when there is
    none or when the separator is the first character (the working
    directory or the root, which always exist). *)
Fixpoint dirname (s : string) : string :=
  match s with
  | EmptyString => EmptyString
  | String c t => if has_slash t then String c (dirname t) else EmptyString
  end.

(** The proper, non-empty prefixes of a path that end before a
    separator: the directories [os.makedirs] creates on the way. *)
Fixpoint ancestors (s : string) : list string :=
  match s with
  | EmptyString => []
  | String c t =>
      (if is_slash c then [EmptyString] else []) ++ map (String c) (ancestors t)
  end.

(** A directory entry name: non-empty and without separator. *)
Definition is_name (n : string) : bool :=
  negb (String.eqb n "") && negb (has_slash n).

(** The name under which path [k] is listed in directory [p], if [k]
    is a direct child of [p]. *)
Definition child_name (p k : string) : option string :=
  match strip_prefix (if endswith "/" p then p else p +:+ "/") k with
  | Some n => if is_name n then Some n else None
  | None => None
  end.

End Path.

(** ** Exceptions and the disk *)

Inductive exn : Type :=
| AttributeError
| KeyError
| TypeError
| ValueError
| FileNotFoundError
| FileExistsError
| NotADirectoryError
| IsADirectoryError
| IndexError
| JSONDecodeError
| ClientError.

Inductive result (A : Type) : Type :=
| Ok (a : A)
| Raise (e : exn).
Arguments Ok {A} a.
Arguments Raise {A} e.

(** Regular files with their text, and directories.  [Text] is what a
    file holds. *)
Record FS (Text : Type) : Type := mkFS {
  files : gmap string Text;
  dirs : gset string
}.
Arguments mkFS {Text} files dirs.
Arguments files {Text} f.
Arguments dirs {Text} f.

(** The operations of [os] and [open] that the manager uses, on this
    disk alone: no permissions, no links, nobody else writing. *)
Module Os.
Section Os.
Context {Text : Type}.

Definition is_file (fs : FS Text) (p : string) : bool := bool_decide (is_Some (files fs !! p)).
Definition is_dir (fs : FS Text) (p : string) : bool := bool_decide (p ∈ dirs fs).

(** [os.path.exists] *)
Definition exists_ (fs : FS Text) (p : string) : bool := is_file fs p || is_dir fs p.

(** [os.makedirs(p, exist_ok=True)] *)
Definition makedirs (fs : FS Text) (p : string) : result (FS Text) :=
  if is_file fs p then Raise FileExistsError
  else if existsb (is_file fs) (Path.ancestors p) then Raise NotADirectoryError
  else Ok (mkFS (files fs)
             (dirs fs ∪ list_to_set (filter (λ d, d ≠ "") (Path.ancestors p)) ∪ {[ p ]})).

(** [os.listdir(p)]: the names of the entries of [p], in the order the
    system reports them. *)
Definition listdir (fs : FS Text) (p : string) : result (list string) :=
  if is_dir fs p then
    Ok (omap (Path.child_name p) (elements (dom (files fs) ∪ dirs fs)))
  else if is_file fs p then Raise NotADirectoryError
  else Raise FileNotFoundError.

(** [open(p).read()] *)
Definition read (fs : FS Text) (p : string) : result Text :=
  if is_dir fs p then Raise IsADirectoryError
  else match files fs !! p with
       | Some text => Ok text
       | None => Raise FileNotFoundError
       end.

(** [open(p, "w")] and the writing of [text], as one step.  The errors
    are those of [open], which leave the disk as it is; a write that
    fails once the file is open is outside this disk. *)
Definition write (fs : FS Text) (p : string) (text : Text) : result (FS Text) :=
  if is_dir fs p then Raise IsADirectoryError
  else
    let d := Path.dirname p in
    if String.eqb d "" || is_dir fs d then Ok (mkFS (<[ p := text ]> (files fs)) (dirs fs))
    else if is_file fs d then Raise NotADirectoryError
    else Raise FileNotFoundError.

(** [os.remove(p)] *)
Definition remove (fs : FS Text) (p : string) : result (FS Text) :=
  if is_dir fs p then Raise IsADirectoryError
  else if is_file fs p then Ok (mkFS (delete p (files fs)) (dirs fs))
  else Raise FileNotFoundError.

End Os.
End Os.

(** ** Data model *)

(** The keys of [self.pending_submissions]. *)
Inductive category : Type := precommit | benchmark | proof.

Global Instance category_eq_dec : EqDecision category.
Proof. solve_decision. Defined.

(** The string a category is spelled with ([submission_type]). *)
Definition submission_type (t : category) : string :=
  match t with
  | precommit => "precommit"
  | benchmark => "benchmark"
  | proof => "proof"
  end.

Record SubmissionsManagerConfig : Type := mkConfig {
  clear_precommits_submission_on_new_block : bool;
  max_retries : option Z;
  ms_delay_between_retries : Z
}.

Inductive level : Type := DEBUG | INFO | WARNING | ERROR.

(** What the server did with a POST: an HTTP response, or no response
  at all (aiohttp raises). *)
Inductive http_outcome : Type :=
| Response (status : Z) (text : string) (content_type : option string)
| ConnectionFailed.

(** [sorted(l, key=key)]: stable, ascending. *)
Section Sorted.
Context {A : Type} (key : A → Z).

Fixpoint insert_sorted (x : A) (l : list A) : list A :=
  match l with
  | [] => [x]
  | y :: l' => if key x <=? key y then x :: y :: l' else y :: insert_sorted x l'
  end.

Fixpoint sorted (l : list A) : list A :=
  match l with
  | [] => []
  | x :: l' => insert_sorted x (sorted l')
  end.
End Sorted.

(** The disk holds nothing at path [p] and nothing below it. *)
Definition nothing_at_or_below {Text : Type} (fs : FS Text) (p : string) : Prop :=
  ∀ k, k ∈ dom (files fs) ∪ dirs fs → k ≠ p ∧ ∀ x, k ≠ p +:+ "/" +:+ x.

(** ** [master.py]: the backup folder, before the extensions are
    constructed *)

Inductive master_message : Type :=
| CreatingBackupFolderAt (path : string).

(** The lines of the script between the reading of the configuration
    and the call of [main]: the records logged and the disk. *)
Definition prepare_backup_folder {Text : Type} (backup : string) (fs : FS Text) :
    list master_message * result (FS Text) :=
  if negb (Os.exists_ fs backup) then
    ([CreatingBackupFolderAt backup], Os.makedirs fs backup)
  else ([], Ok fs).

Section SubmissionsManager.

(** Types and functions of [tig_benchmarker.structs] and of the [json]
    module, which the manager uses as black boxes. *)
Context {BenchmarkSettings MerkleHash MerkleProof Precommit Dict Text : Type}.

Record SubmitPrecommitRequest : Type := mkSubmitPrecommitRequest {
  settings : BenchmarkSettings;
  num_nonces : Z
}.

Record SubmitBenchmarkRequest : Type := mkSubmitBenchmarkRequest {
  b_benchmark_id : string;
  merkle_root : MerkleHash;
  solution_nonces : gset Z
}.

Record SubmitProofRequest : Type := mkSubmitProofRequest {
  p_benchmark_id : string;
  merkle_proofs : list MerkleProof
}.

(** The value of [PendingSubmission.request].  The annotation
    [Union[...]] is not enforced by Python: [OtherObject] stands for an
    object of any other class. *)
Inductive Request : Type :=
| ReqPrecommit (r : SubmitPrecommitRequest)
| ReqBenchmark (r : SubmitBenchmarkRequest)
| ReqProof (r : SubmitProofRequest)
| OtherObject.

(** [isinstance] against the three request classes. *)
Definition class_of (r : Request) : option category :=
  match r with
  | ReqPrecommit _ => Some precommit
  | ReqBenchmark _ => Some benchmark
  | ReqProof _ => Some proof
  | OtherObject => None
  end.

(** The attribute [request.benchmark_id]; [None] is an
    [AttributeError]. *)
Definition benchmark_id (r : Request) : option string :=
  match r with
  | ReqBenchmark r => Some (b_benchmark_id r)
  | ReqProof r => Some (p_benchmark_id r)
  | ReqPrecommit _ | OtherObject => None
  end.

Record PendingSubmission : Type := mkPendingSubmission {
  last_retry_time : Z;
  retries : Z;
  request : Request
}.

Variable to_dict : Request → Dict.
Variable from_dict_benchmark : Dict → result SubmitBenchmarkRequest.
Variable from_dict_proof : Dict → result SubmitProofRequest.
Variable json_dump : Dict → Text.
Variable json_load : Text → result Dict.

Inductive message : Type :=
| CreatingBackupFolder (path : string)
| Restoring (t : category) (file_path : string)
| AlreadyPending (t : category) (id : string)
| ClearingPrecommits (n : nat)
| Removing (t : category) (id : string)
| PendingCounts (precommits benchmarks proofs : nat)
| NoneReady (t : category)
| SubmittingPrecommit (r : Request)
| Submitting (t : category) (id : string)
| SubmittingDict (t : category) (d : Dict)
| Submitted (t : category)
| StatusWhenSubmitting (t : category) (status : Z) (text : option string).

(** The events the manager emits on the bus. *)
Inductive event : Type :=
| submit_success (t : category) (text : string) (d : Dict)
| submit_error (t : category) (text : string) (status : Z) (request : Request).

Inductive output : Type :=
| Log (l : level) (m : message)
| Post (url api_key : string) (json : Dict)
| Emit (e : event).

Record Queues : Type := mkQueues {
  q_precommit : list PendingSubmission;
  q_benchmark : list PendingSubmission;
  q_proof : list PendingSubmission
}.

Definition queue (t : category) (q : Queues) : list PendingSubmission :=
  match t with
  | precommit => q_precommit q
  | benchmark => q_benchmark q
  | proof => q_proof q
  end.

Definition set_queue (t : category) (l : list PendingSubmission) (q : Queues) : Queues :=
  match t with
  | precommit => mkQueues l (q_benchmark q) (q_proof q)
  | benchmark => mkQueues (q_precommit q) l (q_proof q)
  | proof => mkQueues (q_precommit q) (q_benchmark q) l
  end.

(** The extension object, the disk it works on and what it has put
    out so far. *)
Record World : Type := mkWorld {
  api_url : string;
  api_key : string;
  backup_folder : string;
  config : SubmissionsManagerConfig;
  pending_submissions : Queues;
  disk : FS Text;
  out : list output
}.

Definition with_pending (q : Queues) (w : World) : World :=
  mkWorld (api_url w) (api_key w) (backup_folder w) (config w) q (disk w) (out w).
Definition with_disk (fs : FS Text) (w : World) : World :=
  mkWorld (api_url w) (api_key w) (backup_folder w) (config w) (pending_submissions w) fs (out w).
Definition with_out (o : list output) (w : World) : World :=
  mkWorld (api_url w) (api_key w) (backup_folder w) (config w) (pending_submissions w) (disk w) o.

(** *** The monad of handlers: state, and exceptions that keep the
    state reached when they are raised. *)
Definition M (A : Type) : Type := World → result A * World.

Definition ret {A} (a : A) : M A := λ w, (Ok a, w).
Definition raise {A} (e : exn) : M A := λ w, (Raise e, w).
Definition bind {A B} (m : M A) (k : A → M B) : M B :=
  λ w, match m w with
       | (Ok a, w') => k a w'
       | (Raise e, w') => (Raise e, w')
       end.

Notation "'let!' x := m 'in' k" := (bind m (λ x, k))
  (at level 10, x name, m at level 200, k at level 200).
Notation "m ;; k" := (bind m (λ _, k))
  (at level 100, right associativity).

Definition get : M World := λ w, (Ok w, w).
Definition lift {A} (r : result A) : M A := λ w, (r, w).
Definition put_out (o : output) : M unit := λ w, (Ok tt, with_out (out w ++ [o]) w).
Definition logger (l : level) (m : message) : M unit := put_out (Log l m).
Definition emit (e : event) : M unit := put_out (Emit e).

Definition pending (t : category) : M (list PendingSubmission) :=
  λ w, (Ok (queue t (pending_submissions w)), w).
Definition set_pending (t : category) (l : list PendingSubmission) : M unit :=
  λ w, (Ok tt, with_pending (set_queue t l (pending_submissions w)) w).
Definition append (t : category) (s : PendingSubmission) : M unit :=
  let! l := pending t in set_pending t (l ++ [s]).

(** A disk operation that changes the disk. *)
Definition on_disk (f : FS Text → result (FS Text)) : M unit :=
  λ w, match f (disk w) with
       | Ok fs => (Ok tt, with_disk fs w)
       | Raise e => (Raise e, w)
       end.
(** A disk operation that only looks. *)
Definition from_disk {A} (f : FS Text → A) : M A := λ w, (Ok (f (disk w)), w).

(** [for x in l: body(x)] *)
Fixpoint for_ {A} (l : list A) (body : A → M unit) : M unit :=
  match l with
  | [] => ret tt
  | x :: l' => body x ;; for_ l' body
  end.

(** An attribute that may be missing. *)
Definition attr {A} (o : option A) : M A :=
  match o with
  | Some a => ret a
  | None => raise AttributeError
  end.

(** *** [Extension._restore_pending_submissions] *)

Definition restore_file (t : category) (path file : string) : M unit :=
  if negb (Path.endswith ".json" file) then ret tt
  else
    let file_path := Path.join path file in
    logger INFO (Restoring t file_path) ;;
    let! fs := from_disk id in
    let! text := lift (Os.read fs file_path) in
    let! d := lift (json_load text) in
    let! request :=
      match t with
      | benchmark => let! r := lift (from_dict_benchmark d) in ret (ReqBenchmark r)
      | _ => let! r := lift (from_dict_proof d) in ret (ReqProof r)
      end in
    append t (mkPendingSubmission 0 0 request).

Definition restore_type (t : category) : M unit :=
  let! w := get in
  let path := Path.join (backup_folder w) (submission_type t) in
  (if negb (Os.exists_ (disk w) path) then
     logger INFO (CreatingBackupFolder path) ;;
     on_disk (λ fs, Os.makedirs fs path)
   else ret tt) ;;
  let! fs := from_disk id in
  let! listing := lift (Os.listdir fs path) in
  for_ listing (restore_file t path).

Definition _restore_pending_submissions : M unit :=
  for_ [benchmark; proof] restore_type.

(** *** [Extension.on_precommit_ready] *)

Definition on_precommit_ready (settings : BenchmarkSettings) (num_nonces : Z) : M unit :=
  append precommit
    (mkPendingSubmission 0 0 (ReqPrecommit (mkSubmitPrecommitRequest settings num_nonces))).

(** [any(x.request.benchmark_id == benchmark_id for x in l)] *)
Fixpoint any_benchmark_id (id : string) (l : list PendingSubmission) : M bool :=
  match l with
  | [] => ret false
  | x :: l' =>
      let! i := attr (benchmark_id (request x)) in
      if String.eqb i id then ret true else any_benchmark_id id l'
  end.

(** *** [Extension.on_benchmark_ready] *)

Definition on_benchmark_ready (id : string) (root : MerkleHash) (nonces : gset Z) : M unit :=
  let! l := pending benchmark in
  let! dup := any_benchmark_id id l in
  if dup then logger WARNING (AlreadyPending benchmark id)
  else
    let request := ReqBenchmark (mkSubmitBenchmarkRequest id root nonces) in
    append benchmark (mkPendingSubmission 0 0 request) ;;
    let! w := get in
    on_disk (λ fs, Os.write fs (Path.join3 (backup_folder w) "benchmark" (id +:+ ".json"))
                     (json_dump (to_dict request))).

(** *** [Extension.on_proof_ready] *)

Definition on_proof_ready (id : string) (proofs : list MerkleProof) : M unit :=
  let! l := pending proof in
  let! dup := any_benchmark_id id l in
  if dup then logger WARNING (AlreadyPending proof id)
  else
    let request := ReqProof (mkSubmitProofRequest id proofs) in
    append proof (mkPendingSubmission 0 0 request) ;;
    let! w := get in
    on_disk (λ fs, Os.write fs (Path.join3 (backup_folder w) "proof" (id +:+ ".json"))
                     (json_dump (to_dict request))).

(** *** [Extension.on_new_block]

    [precommits] is the dict of the event, [kwargs] its other keyword
    arguments, each a container of benchmark ids. *)

Definition lookup_kwarg (kwargs : gmap string (gset string)) (k : string) : M (gset string) :=
  match kwargs !! k with
  | Some v => ret v
  | None => raise KeyError
  end.

(** The condition of the [if] inside the loop, with Python's [or]. *)
Definition is_retired (t : category) (precommits : gmap string Precommit)
    (kwargs : gmap string (gset string)) (id : string) : M bool :=
  if bool_decide (precommits !! id = None) then ret true
  else
    let! confirmed := lookup_kwarg kwargs (submission_type t +:+ "s") in
    ret (bool_decide (id ∈ confirmed)).

Fixpoint filter_submissions (t : category) (precommits : gmap string Precommit)
    (kwargs : gmap string (gset string))
    (l filtered_submissions : list PendingSubmission) : M (list PendingSubmission) :=
  match l with
  | [] => ret filtered_submissions
  | submission :: l' =>
      let! id := attr (benchmark_id (request submission)) in
      let! gone := is_retired t precommits kwargs id in
      if gone then
        logger INFO (Removing t id) ;;
        let! w := get in
        let path := Path.join (backup_folder w) (id +:+ ".json") in
        (if Os.exists_ (disk w) path then on_disk (λ fs, Os.remove fs path) else ret tt) ;;
        filter_submissions t precommits kwargs l' filtered_submissions
      else
        filter_submissions t precommits kwargs l' (filtered_submissions ++ [submission])
  end.

Definition reconcile (precommits : gmap string Precommit)
    (kwargs : gmap string (gset string)) (t : category) : M unit :=
  let! l := pending t in
  let! filtered_submissions := filter_submissions t precommits kwargs l [] in
  set_pending t filtered_submissions.

Definition on_new_block (precommits : gmap string Precommit)
    (kwargs : gmap string (gset string)) : M unit :=
  let! w := get in
  (if clear_precommits_submission_on_new_block (config w) then
     let! l := pending precommit in
     logger INFO (ClearingPrecommits (length l)) ;;
     set_pending precommit []
   else ret tt) ;;
  for_ [benchmark; proof] (reconcile precommits kwargs).

(** *** [Extension.submit]

    [outcome] is what the POST comes back with and [now] the clock
    when it does. *)

Definition submit (submission : PendingSubmission) (outcome : http_outcome) (now : Z) : M unit :=
  let! t := (match class_of (request submission) with
             | Some t => ret t
             | None => raise ValueError
             end) in
  let d := to_dict (request submission) in
  logger DEBUG (SubmittingDict t d) ;;
  let! w := get in
  put_out (Post (api_url w +:+ "/submit-" +:+ submission_type t) (api_key w) d) ;;
  match outcome with
  | ConnectionFailed => raise ClientError
  | Response status text content_type =>
      if status =? 200 then
        logger INFO (Submitted t) ;;
        emit (submit_success t text d)
      else
        (if bool_decide (content_type = Some "text/plain")
         then logger ERROR (StatusWhenSubmitting t status (Some text))
         else logger ERROR (StatusWhenSubmitting t status None)) ;;
        (if (500 <=? status) && (status <=? 599) &&
            match max_retries (config w) with
            | None => true
            | Some n => retries submission + 1 <? n
            end
         then
           append t (mkPendingSubmission now (retries submission + 1) (request submission))
         else ret tt) ;;
        emit (submit_error t text status (request submission))
  end.

(** *** [Extension.on_update] *)

(** The body of the loop over the categories: what it takes out of
    the queue, if anything. *)
Definition take_ready (now : Z) (t : category) : M (option PendingSubmission) :=
  let! l := pending t in
  if bool_decide (0 < length l)%nat then
    set_pending t (sorted last_retry_time l) ;;
    let! l := pending t in
    match l with
    | [] => raise IndexError
    | head :: rest =>
        let! w := get in
        if now - last_retry_time head <? ms_delay_between_retries (config w) then
          logger INFO (NoneReady t) ;; ret None
        else
          set_pending t rest ;;
          (match t with
           | precommit => logger INFO (SubmittingPrecommit (request head))
           | _ => let! id := attr (benchmark_id (request head)) in
                  logger INFO (Submitting t id)
           end) ;;
          ret (Some head)
    end
  else ret None.

Fixpoint take_all (now : Z) (ts : list category)
    (submissions : list (category * PendingSubmission)) :
    M (list (category * PendingSubmission)) :=
  match ts with
  | [] => ret submissions
  | t :: ts' =>
      let! s := take_ready now t in
      take_all now ts'
        (match s with Some s => submissions ++ [(t, s)] | None => submissions end)
  end.

(** The part of [on_update] before [asyncio.gather]. *)
Definition on_update_dequeue (now : Z) : M (list (category * PendingSubmission)) :=
  let! w := get in
  let q := pending_submissions w in
  logger INFO (PendingCounts (length (q_precommit q)) (length (q_benchmark q))
                 (length (q_proof q))) ;;
  take_all now [precommit; benchmark; proof] [].

(** [asyncio.gather]: every coroutine runs; the first exception is
    the one that propagates.  The coroutines run here one after the
    other, in the order of the list; in the program they overlap, and
    what each does with its answer happens when the answer arrives. *)
Fixpoint gather (cs : list (M unit)) : M unit :=
  match cs with
  | [] => ret tt
  | c :: cs' =>
      λ w, match c w with
           | (Ok _, w') => gather cs' w'
           | (Raise e, w') => (Raise e, snd (gather cs' w'))
           end
  end.

(** [server t] is the outcome of the POST of category [t] in this tick
    and the clock when it arrives. *)
Definition on_update (now : Z) (server : category → http_outcome * Z) : M unit :=
  let! submissions := on_update_dequeue now in
  gather (map (λ ts : category * PendingSubmission,
                 submit (snd ts) (fst (server (fst ts))) (snd (server (fst ts))))
            submissions).

(** *** [Extension.__init__] on a disk: the object once constructed.

    [config] is the configuration as [SubmissionsManagerConfig.from_dict]
    returns it. *)

Definition new_extension (api_url api_key backup_folder : string)
    (config : SubmissionsManagerConfig) (fs : FS Text) : World :=
  mkWorld api_url api_key backup_folder config (mkQueues [] [] []) fs [].

Definition init (api_url api_key backup_folder : string)
    (config : SubmissionsManagerConfig) (fs : FS Text) : result World :=
  match _restore_pending_submissions (new_extension api_url api_key backup_folder config fs) with
  | (Ok _, w) => Ok w
  | (Raise e, _) => Raise e
  end.

(** *** The system in operation

    The world together with the submissions that [on_update] has taken
    out of their queue and whose POST is still awaited.  Handlers run to
    completion one at a time, except that [on_update] is suspended in
    [asyncio.gather] while its submissions are in flight: other handlers
    may run before a response arrives.  A handler that raises leaves the
    world as it was when it raised. *)
Inductive reachable : World → list PendingSubmission → Prop :=
| reach_init api_url api_key backup_folder config fs w :
    init api_url api_key backup_folder config fs = Ok w →
    reachable w []
| reach_precommit_ready w fl settings num_nonces :
    reachable w fl →
    reachable (snd (on_precommit_ready settings num_nonces w)) fl
| reach_benchmark_ready w fl id root nonces :
    reachable w fl →
    reachable (snd (on_benchmark_ready id root nonces w)) fl
| reach_proof_ready w fl id proofs :
    reachable w fl →
    reachable (snd (on_proof_ready id proofs w)) fl
| reach_new_block w fl precommits kwargs :
    reachable w fl →
    reachable (snd (on_new_block precommits kwargs w)) fl
| reach_update w fl now :
    reachable w fl →
    reachable (snd (on_update_dequeue now w))
      (fl ++ match fst (on_update_dequeue now w) with
             | Ok l => map snd l
             | Raise _ => []
             end)
| reach_response w fl1 s fl2 outcome now :
    reachable w (fl1 ++ s :: fl2) →
    reachable (snd (submit s outcome now w)) (fl1 ++ fl2).

(** *** Definitions that follow the specification *)

(** Reconciliation as specified: a submission goes when its id is
    absent from [precommits] or in the confirmed set of its category. *)
Definition retired (precommits : gmap string Precommit) (confirmed : gset string)
    (s : PendingSubmission) : bool :=
  match benchmark_id (request s) with
  | Some id => bool_decide (precommits !! id = None) || bool_decide (id ∈ confirmed)
  | None => false
  end.

(** The retry rule as specified. *)
Definition retryable (cfg : SubmissionsManagerConfig) (status : Z) (s : PendingSubmission) : Prop :=
  500 ≤ status ≤ 599 ∧
  (max_retries cfg = None ∨ ∃ n, max_retries cfg = Some n ∧ retries s + 1 < n).

(** What the loop body of restoration does with a name that ends in
    ".json". *)
Definition restore_json (t : category) (path file : string) : M unit :=
  let file_path := Path.join path file in
  logger INFO (Restoring t file_path) ;;
  let! fs := from_disk id in
  let! text := lift (Os.read fs file_path) in
  let! d := lift (json_load text) in
  let! request :=
    match t with
    | benchmark => let! r := lift (from_dict_benchmark d) in ret (ReqBenchmark r)
    | _ => let! r := lift (from_dict_proof d) in ret (ReqProof r)
    end in
  append t (mkPendingSubmission 0 0 request).

(** Restoration of one directory as specified: the entries whose name
    ends in ".json", and only they. *)
Definition restore_directory (t : category) : M unit :=
  let! w := get in
  let path := Path.join (backup_folder w) (submission_type t) in
  (if negb (Os.exists_ (disk w) path) then
     logger INFO (CreatingBackupFolder path) ;;
     on_disk (λ fs, Os.makedirs fs path)
   else ret tt) ;;
  let! fs := from_disk id in
  let! listing := lift (Os.listdir fs path) in
  for_ (filter (λ file, Path.endswith ".json" file = true) listing) (restore_json t path).

(** The text of a backup file read back as a request of category [t]. *)
Definition decode (t : category) (text : Text) : result Request :=
  match json_load text with
  | Ok d =>
      match t with
      | benchmark => match from_dict_benchmark d with Ok r => Ok (ReqBenchmark r) | Raise e => Raise e end
      | _ => match from_dict_proof d with Ok r => Ok (ReqProof r) | Raise e => Raise e end
      end
  | Raise e => Raise e
  end.

(** Every entry of [path] named like a backup file is a regular file
    that reads back as a request of category [t]. *)
Definition restorable (fs : FS Text) (t : category) (path : string) : bool :=
  match Os.listdir fs path with
  | Ok listing =>
      forallb (λ file,
                 negb (Path.endswith ".json" file) ||
                 match Os.read fs (Path.join path file) with
                 | Ok text => match decode t text with Ok _ => true | Raise _ => false end
                 | Raise _ => false
                 end) listing
  | Raise _ => false
  end.

(** The benchmark ids of a queue. *)
Definition ids (l : list PendingSubmission) : list string :=
  omap (λ s, benchmark_id (request s)) l.

(** The three "ready" events. *)
Inductive ready_event : Type :=
| precommit_ready (settings : BenchmarkSettings) (num_nonces : Z)
| benchmark_ready (id : string) (root : MerkleHash) (nonces : gset Z)
| proof_ready (id : string) (proofs : list MerkleProof).

Definition handle_ready (e : ready_event) : M unit :=
  match e with
  | precommit_ready settings num_nonces => on_precommit_ready settings num_nonces
  | benchmark_ready id root nonces => on_benchmark_ready id root nonces
  | proof_ready id proofs => on_proof_ready id proofs
  end.

(** The world after a sequence of events, whether or not a handler
    raised on the way. *)
Definition run_ready (es : list ready_event) (w : World) : World :=
  foldl (λ w e, snd (handle_ready e w)) w es.

(** *** Definitions used to state the properties *)

(** [hoare P m Q E]: from a world in [P], the handler [m] ends in a world
    in [Q a] when it returns [a] and in a world in [E] when it raises. *)
Record hoare {A} (P : World → Prop) (m : M A)
    (Q : A → World → Prop) (E : World → Prop) : Prop := Hoare {
  hoare_run : ∀ w, P w →
    match m w with
    | (Ok a, w') => Q a w'
    | (Raise _, w') => E w'
    end
}.

(** A property of the world that only looks at the configuration and
    the queues. *)
Definition on_queues (P : World → Prop) : Prop :=
  ∀ w w', config w' = config w → pending_submissions w' = pending_submissions w →
          P w → P w'.

(** The invariant of the queues: every submission queued under a
    category wraps a request of the class of that category, and has not
    used up a retry budget of one or more. *)
Definition item_ok (cfg : SubmissionsManagerConfig) (t : category) (s : PendingSubmission) : Prop :=
  class_of (request s) = Some t ∧
  ∀ n, max_retries cfg = Some n → 1 ≤ n → retries s < n.

Definition queues_ok (cfg : SubmissionsManagerConfig) (w : World) : Prop :=
  config w = cfg ∧
  ∀ t, Forall (item_ok cfg t) (queue t (pending_submissions w)).

(** The submission an update tick takes out of a queue: the first of
    the sorted queue, when the delay since its last attempt is over. *)
Definition oldest_ready (now delay : Z) (l : list PendingSubmission) : option PendingSubmission :=
  match sorted last_retry_time l with
  | head :: _ => if now - last_retry_time head <? delay then None else Some head
  | [] => None
  end.

(** The queue an update tick leaves. *)
Definition after_tick (now delay : Z) (l : list PendingSubmission) : list PendingSubmission :=
  match oldest_ready now delay l with
  | Some _ => tail (sorted last_retry_time l)
  | None => sorted last_retry_time l
  end.

(** No directory of the disk is named like a backup file. *)
Definition no_json_dirs (fs : FS Text) : bool :=
  forallb (λ d, negb (Path.endswith ".json" d)) (elements (dirs fs)).

(** Every submission of the list has a [benchmark_id]. *)
Definition has_ids (l : list PendingSubmission) : Prop :=
  Forall (λ s, is_Some (benchmark_id (request s))) l.

(** The world after the first statement of [on_new_block]. *)
Definition cleared (w : World) : World :=
  if clear_precommits_submission_on_new_block (config w) then
    with_pending (set_queue precommit [] (pending_submissions w))
      (with_out (out w ++ [Log INFO (ClearingPrecommits
                                       (length (queue precommit (pending_submissions w))))]) w)
  else w.

(** The ids of the benchmark queue and of the proof queue are each
    without repetition. *)
Definition unique_ids (w : World) : Prop :=
  NoDup (ids (queue benchmark (pending_submissions w))) ∧
  NoDup (ids (queue proof (pending_submissions w))).

(** The events among the outputs. *)
Definition emitted (o : list output) : list event :=
  omap (λ x, match x with Emit e => Some e | _ => None end) o.

(** A server that answers every POST of a tick with [status], at the
    time of the tick. *)
Definition always (status now : Z) : category → http_outcome * Z :=
  λ _, (Response status "" None, now).

(** The world after [n] ticks, at times [step], [2 * step], ..., each
    answered with [status]. *)
Fixpoint ticks (status step : Z) (n : nat) (w : World) : World :=
  match n with
  | O => w
  | S n' =>
      snd (on_update (Z.of_nat (S n') * step) (always status (Z.of_nat (S n') * step))
             (ticks status step n' w))
  end.

(** How many of the first [n] ticks leave a submission in queue [t]:
    with one submission in the system and ticks no closer than the
    delay, the number of times it was put back. *)
Fixpoint reenqueues (t : category) (status step : Z) (n : nat) (w : World) : nat :=
  match n with
  | O => O
  | S n' =>
      (reenqueues t status step n' w +
       if bool_decide (queue t (pending_submissions (ticks status step (S n') w)) = [])
       then 0 else 1)%nat
  end.

(** Three empty queues. *)
Definition no_queues : Queues := mkQueues [] [] [].

(** What restoration makes of the entry [file] of directory [path]. *)
Definition restored (t : category) (fs : FS Text) (path file : string) :
    option PendingSubmission :=
  match Os.read fs (Path.join path file) with
  | Ok text =>
      match decode t text with
      | Ok r => Some (mkPendingSubmission 0 0 r)
      | Raise _ => None
      end
  | Raise _ => None
  end.

(** A submission as restoration and the ready events make it. *)
Definition fresh (t : category) (s : PendingSubmission) : Prop :=
  last_retry_time s = 0 ∧ retries s = 0 ∧ class_of (request s) = Some t.

(** The POSTs among the outputs: endpoint, API key and body. *)
Definition posted (o : list output) : list (string * string * Dict) :=
  omap (λ x, match x with Post url key d => Some (url, key, d) | _ => None end) o.

(** The submissions that the [precommit_ready] events of a sequence
    ask for. *)
Definition precommit_requests (es : list ready_event) : list PendingSubmission :=
  omap (λ e, match e with
             | precommit_ready settings num_nonces =>
                 Some (mkPendingSubmission 0 0
                         (ReqPrecommit (mkSubmitPrecommitRequest settings num_nonces)))
             | _ => None
             end) es.

(** The event that an attempt emits, if the request got an answer. *)
Definition outcome_event (t : category) (s : PendingSubmission) (o : http_outcome) :
    option event :=
  match o with
  | Response status text _ =>
      Some (if status =? 200 then submit_success t text (to_dict (request s))
            else submit_error t text status (request s))
  | ConnectionFailed => None
  end.

(** ** Facts about strings and paths *)

Lemma append_assoc (a b c : string) : (a +:+ b) +:+ c = a +:+ (b +:+ c).
Proof. induction a as [|x a IH]; simpl; [done | by rewrite IH]. Qed.

Lemma append_empty_r (a : string) : a +:+ "" = a.
Proof. induction a as [|x a IH]; simpl; [done | by rewrite IH]. Qed.

Lemma append_nonempty (a b : string) : b ≠ "" → a +:+ b ≠ "".
Proof. destruct a; simpl; [done | discriminate]. Qed.

Lemma has_slash_app (a b : string) :
  Path.has_slash (a +:+ b) = Path.has_slash a || Path.has_slash b.
Proof.
  induction a as [|x a IH]; simpl; [done |].
  rewrite IH. by rewrite orb_assoc.
Qed.

Lemma endswith_refl (suf : string) : Path.endswith suf suf = true.
Proof. destruct suf; simpl; [done | by rewrite String.eqb_refl]. Qed.

Lemma endswith_app_l (suf a b : string) :
  Path.endswith suf b = true → Path.endswith suf (a +:+ b) = true.
Proof.
  intros Hb. induction a as [|x a IH]; simpl; [done |].
  rewrite IH. by destruct (String.eqb _ _).
Qed.

Lemma endswith_app (suf a : string) : Path.endswith suf (a +:+ suf) = true.
Proof. apply endswith_app_l, endswith_refl. Qed.

Lemma endswith_slash_app (a b : string) :
  b ≠ "" → Path.endswith "/" (a +:+ b) = Path.endswith "/" b.
Proof.
  intros Hb. induction a as [|x a IH]; simpl; [done |].
  rewrite IH. destruct (String.eqb_spec (String x (a +:+ b)) "/") as [E|]; [| done].
  injection E as _ E. by apply append_nonempty in E.
Qed.

Lemma endswith_join (suf a b : string) :
  Path.endswith suf b = true → Path.endswith suf (Path.join a b) = true.
Proof.
  intros Hb. unfold Path.join.
  destruct (Path.startswith "/" b); [done |].
  destruct (_ || _); repeat apply endswith_app_l; done.
Qed.

Lemma startswith_slash (s : string) :
  Path.startswith "/" s = true → Path.has_slash s = true.
Proof.
  destruct s as [|c s]; simpl; [done |].
  unfold Path.startswith, Path.is_slash. simpl.
  rewrite Ascii.eqb_sym. by destruct (Ascii.eqb c "/").
Qed.

(** Joining a directory that is not spelled with a final separator and
    a name. *)
Lemma join_name (p n : string) :
  p ≠ "" → Path.endswith "/" p = false → Path.has_slash n = false →
  Path.join p n = p +:+ "/" +:+ n.
Proof.
  intros Hp Hs Hn. unfold Path.join.
  destruct (Path.startswith "/" n) eqn:E.
  - apply startswith_slash in E. congruence.
  - rewrite Hs. destruct (String.eqb_spec p ""); done.
Qed.

Lemma strip_prefix_app (a b : string) : Path.strip_prefix a (a +:+ b) = Some b.
Proof.
  induction a as [|x a IH]; simpl; [by destruct b |].
  by rewrite Ascii.eqb_refl.
Qed.

Lemma strip_prefix_Some (a s b : string) :
  Path.strip_prefix a s = Some b → s = a +:+ b.
Proof.
  revert s. induction a as [|x a IH]; intros s; simpl.
  - destruct s; congruence.
  - destruct s as [|y s]; [done |].
    destruct (Ascii.eqb_spec x y); [| done].
    intros H. apply IH in H. by subst.
Qed.

Lemma dirname_name (p n : string) :
  Path.has_slash n = false → Path.dirname (p +:+ "/" +:+ n) = p.
Proof.
  intros Hn. induction p as [|x p IH]; simpl.
  - by rewrite Hn.
  - simpl in IH. rewrite has_slash_app. simpl. rewrite orb_true_r. by rewrite IH.
Qed.

(** A file directly under [p] is listed in [p] by its name. *)
Lemma child_name_join (p n : string) :
  p ≠ "" → Path.endswith "/" p = false → Path.is_name n = true →
  Path.child_name p (Path.join p n) = Some n.
Proof.
  intros Hp Hs Hn. unfold Path.child_name. rewrite Hs.
  assert (Path.has_slash n = false) as Hn'.
  { unfold Path.is_name in Hn. apply andb_true_iff in Hn as [_ Hn].
    by apply negb_true_iff in Hn. }
  rewrite join_name by done.
  rewrite <- append_assoc, strip_prefix_app. by rewrite Hn.
Qed.

(** A listed name joined to the directory gives back the path. *)
Lemma child_name_Some (p k n : string) :
  p ≠ "" → Path.endswith "/" p = false →
  Path.child_name p k = Some n → Path.is_name n = true ∧ k = Path.join p n.
Proof.
  intros Hp Hs. unfold Path.child_name. rewrite Hs.
  destruct (Path.strip_prefix _ k) as [m|] eqn:E; [| done].
  destruct (Path.is_name m) eqn:Hm; [| done].
  intros [= <-]. split; [done |].
  apply strip_prefix_Some in E. subst k.
  rewrite join_name; [by rewrite append_assoc | done | done |].
  unfold Path.is_name in Hm. apply andb_true_iff in Hm as [_ Hm].
  by apply negb_true_iff in Hm.
Qed.

(** The directory of a category is spelled without final separator. *)
Lemma category_dir_spelling (backup : string) (t : category) :
  Path.join backup (submission_type t) ≠ "" ∧
  Path.endswith "/" (Path.join backup (submission_type t)) = false.
Proof.
  assert (Path.startswith "/" (submission_type t) = false) as Hst by by destruct t.
  assert (submission_type t ≠ "") as Hne by by destruct t.
  assert (Path.endswith "/" (submission_type t) = false) as Hend by by destruct t.
  unfold Path.join. rewrite Hst.
  destruct (_ || _).
  - split; [by apply append_nonempty |]. by rewrite endswith_slash_app.
  - split; [apply append_nonempty; by destruct t |].
    rewrite endswith_slash_app by (by destruct t).
    rewrite (endswith_slash_app "/") by done. done.
Qed.

(** ** Facts about [sorted] *)

Section SortedFacts.
Context {A : Type} (key : A → Z).

Lemma insert_sorted_Permutation (x : A) (l : list A) :
  insert_sorted key x l ≡ₚ x :: l.
Proof.
  induction l as [|y l IH]; simpl; [done |].
  destruct (key x <=? key y); [done |].
  rewrite IH. apply Permutation_swap.
Qed.

Lemma sorted_Permutation (l : list A) : sorted key l ≡ₚ l.
Proof.
  induction l as [|x l IH]; simpl; [done |].
  by rewrite insert_sorted_Permutation, IH.
Qed.

Lemma sorted_length (l : list A) : length (sorted key l) = length l.
Proof. by rewrite sorted_Permutation. Qed.

Definition ascending (l : list A) : Prop :=
  StronglySorted (λ x y, key x ≤ key y) l.

Lemma insert_sorted_ascending (x : A) (l : list A) :
  ascending l → ascending (insert_sorted key x l).
Proof.
  unfold ascending. induction l as [|y l IH]; simpl; intros Hl.
  - repeat constructor.
  - inversion_clear Hl as [|? ? Hl' Hy].
    destruct (Z.leb_spec (key x) (key y)).
    + constructor; [by constructor |].
      constructor; [done |].
      eapply Forall_impl; [exact Hy |]. simpl. intros; lia.
    + constructor; [by apply IH |].
      rewrite insert_sorted_Permutation. constructor; [lia | done].
Qed.

Lemma sorted_ascending (l : list A) : ascending (sorted key l).
Proof.
  induction l as [|x l IH]; simpl; [constructor |].
  by apply insert_sorted_ascending.
Qed.

(** The head of a sorted list has the least key of the list. *)
Lemma sorted_head_least (l : list A) (x : A) (rest : list A) :
  sorted key l = x :: rest → ∀ y, y ∈ l → key x ≤ key y.
Proof.
  intros E y Hy.
  pose proof (sorted_ascending l) as Hs. rewrite E in Hs.
  rewrite <- (sorted_Permutation l), E in Hy.
  inversion_clear Hs as [|? ? _ Hx].
  apply elem_of_cons in Hy as [-> | Hy]; [lia |].
  rewrite Forall_forall in Hx. by apply Hx.
Qed.

(** [sorted] is stable: elements with one key keep their order. *)
Lemma insert_sorted_filter (k : Z) (x : A) (l : list A) :
  ascending l →
  filter (λ y, key y = k) (insert_sorted key x l) = filter (λ y, key y = k) (x :: l).
Proof.
  unfold ascending. induction l as [|y l IH]; simpl; intros Hl; [done |].
  inversion_clear Hl as [|? ? Hl' Hy].
  destruct (Z.leb_spec (key x) (key y)); [done |].
  rewrite !filter_cons. rewrite !filter_cons in IH.
  destruct (decide (key y = k)), (decide (key x = k)); try (rewrite IH by done);
    try done; try (by rewrite decide_True by done); try (by rewrite decide_False by done).
  lia.
Qed.

Lemma sorted_stable (k : Z) (l : list A) :
  filter (λ y, key y = k) (sorted key l) = filter (λ y, key y = k) l.
Proof.
  induction l as [|x l IH]; simpl; [done |].
  rewrite insert_sorted_filter by apply sorted_ascending.
  rewrite !filter_cons. by rewrite IH.
Qed.

End SortedFacts.

(** ** Reasoning about handlers *)

Lemma hoare_ret {A} (P : World → Prop) (a : A) Q E :
  (∀ w, P w → Q a w) → hoare P (ret a) Q E.
Proof. intros H. split. intros w Hw. by apply H. Qed.

Lemma hoare_raise {A} (P : World → Prop) e (Q : A → World → Prop) E :
  (∀ w, P w → E w) → hoare P (raise e) Q E.
Proof. intros H. split. intros w Hw. by apply H. Qed.

Lemma hoare_bind {A B} (P : World → Prop) (m : M A) (k : A → M B) R Q E :
  hoare P m R E → (∀ a, hoare (R a) (k a) Q E) → hoare P (bind m k) Q E.
Proof.
  intros [Hm] Hk. split. intros w Hw. unfold bind. specialize (Hm w Hw).
  destruct (m w) as [[a|e] w']; [by apply Hk | done].
Qed.

Lemma hoare_conseq {A} (P P' : World → Prop) (m : M A) (Q Q' : A → World → Prop) E :
  hoare P' m Q' E → (∀ w, P w → P' w) → (∀ a w, Q' a w → Q a w) → hoare P m Q E.
Proof.
  intros [Hm] HP HQ. split. intros w Hw. specialize (Hm w (HP w Hw)).
  destruct (m w) as [[a|e] w']; [by apply HQ | done].
Qed.

Lemma hoare_pure {A} (φ : Prop) (P : World → Prop) (m : M A) Q E :
  (φ → hoare P m Q E) → hoare (λ w, P w ∧ φ) m Q E.
Proof. intros H. split. intros w [Hw Hφ]. by apply H. Qed.

Lemma hoare_get (P : World → Prop) E :
  hoare P get (λ a w, a = w ∧ P w) E.
Proof. split. by intros w Hw. Qed.

Lemma hoare_lift {A} (P E : World → Prop) (r : result A) :
  (∀ w, P w → E w) → hoare P (lift r) (λ a w, r = Ok a ∧ P w) E.
Proof. intros HE. split. intros w Hw. destruct r; simpl; auto. Qed.

Lemma hoare_attr {A} (P E : World → Prop) (o : option A) :
  (∀ w, P w → E w) → hoare P (attr o) (λ a w, o = Some a ∧ P w) E.
Proof. intros HE. split. intros w Hw. destruct o; simpl; auto. Qed.

Lemma hoare_pending (P : World → Prop) t E :
  hoare P (pending t) (λ l w, l = queue t (pending_submissions w) ∧ P w) E.
Proof. split. by intros w Hw. Qed.

Lemma hoare_from_disk {A} (P : World → Prop) (f : FS Text → A) E :
  hoare P (from_disk f) (λ a w, a = f (disk w) ∧ P w) E.
Proof. split. by intros w Hw. Qed.

Lemma hoare_put_out (P : World → Prop) o E :
  on_queues P → hoare P (put_out o) (λ _, P) E.
Proof. intros HP. split. intros w Hw. simpl. by eapply HP; [..| exact Hw]. Qed.

Lemma hoare_logger (P : World → Prop) l m E :
  on_queues P → hoare P (logger l m) (λ _, P) E.
Proof. apply hoare_put_out. Qed.

Lemma hoare_emit (P : World → Prop) e E :
  on_queues P → hoare P (emit e) (λ _, P) E.
Proof. apply hoare_put_out. Qed.

Lemma hoare_on_disk (P E : World → Prop) f :
  on_queues P → (∀ w, P w → E w) → hoare P (on_disk f) (λ _, P) E.
Proof.
  intros HP HE. split. intros w Hw. unfold on_disk. destruct (f (disk w)); [| by apply HE].
  by eapply HP; [..| exact Hw].
Qed.

Lemma hoare_set_pending (P Q : World → Prop) t l E :
  (∀ w, P w → Q (with_pending (set_queue t l (pending_submissions w)) w)) →
  hoare P (set_pending t l) (λ _, Q) E.
Proof. intros H. split. intros w Hw. by apply H. Qed.

Lemma hoare_for {A} (I : World → Prop) (l : list A) (body : A → M unit) :
  (∀ x, x ∈ l → hoare I (body x) (λ _, I) I) → hoare I (for_ l body) (λ _, I) I.
Proof.
  induction l as [|x l IH]; intros Hb; simpl.
  - by apply hoare_ret.
  - eapply hoare_bind; [apply Hb; left |].
    intros ?. cbv beta. apply IH. intros y Hy. apply Hb. by right.
Qed.

Lemma queue_set_queue t t' l q :
  queue t (set_queue t' l q) = if decide (t = t') then l else queue t q.
Proof. by destruct t, t', q. Qed.

Lemma queue_set_queue_eq t l q : queue t (set_queue t l q) = l.
Proof. rewrite queue_set_queue. by rewrite decide_True. Qed.

Lemma queue_set_queue_ne t t' l q : t ≠ t' → queue t (set_queue t' l q) = queue t q.
Proof. intros. rewrite queue_set_queue. by rewrite decide_False. Qed.

(** *** The invariant of the queues *)

Lemma queues_ok_on_queues cfg : on_queues (queues_ok cfg).
Proof. intros w w' Hc Hq [H1 H2]. split; [congruence |]. intros t. cbv beta. rewrite Hq. apply H2. Qed.

Lemma queues_ok_set cfg (w : World) t l :
  queues_ok cfg w → Forall (item_ok cfg t) l →
  queues_ok cfg (with_pending (set_queue t l (pending_submissions w)) w).
Proof.
  intros [Hc Hw] Hl. split; [done |]. intros t'. simpl. rewrite queue_set_queue.
  destruct (decide (t' = t)) as [-> |]; [done | apply Hw].
Qed.

Lemma hoare_set_pending_ok cfg t l E :
  Forall (item_ok cfg t) l →
  hoare (queues_ok cfg) (set_pending t l) (λ _, queues_ok cfg) E.
Proof. intros Hl. apply hoare_set_pending. intros w Hw. by apply queues_ok_set. Qed.

Lemma hoare_append_ok cfg t s :
  item_ok cfg t s →
  hoare (queues_ok cfg) (append t s) (λ _, queues_ok cfg) (queues_ok cfg).
Proof.
  intros Hs. split. intros w Hw. simpl. apply queues_ok_set; [done |].
  apply Forall_app. split; [apply Hw | by constructor].
Qed.

Lemma fresh_item_ok cfg t r :
  class_of r = Some t → item_ok cfg t (mkPendingSubmission 0 0 r).
Proof. intros Hr. split; [done |]. simpl. intros; lia. Qed.

#[local] Hint Resolve queues_ok_on_queues : core.

Ltac hside := cbv beta; intros; intuition auto.

Ltac hstep :=
  first
    [ simple apply hoare_logger; [done]
    | simple apply hoare_emit; [done]
    | simple apply hoare_put_out; [done]
    | simple apply hoare_on_disk; [done | hside]
    | simple apply hoare_get
    | simple apply hoare_pending
    | simple apply hoare_from_disk
    | simple apply hoare_lift; hside
    | simple apply hoare_attr; hside ].

(** Forget what the precondition says beyond [P']. *)
Ltac hweaken I :=
  lazymatch goal with
  | |- hoare _ _ ?Q _ => simple apply (hoare_conseq _ I _ _ Q); [| hside | done]
  end.

Lemma any_benchmark_id_state (P : World → Prop) id l :
  hoare P (any_benchmark_id id l) (λ _, P) P.
Proof.
  induction l as [|x l IH]; simpl; [by simple apply hoare_ret |].
  simple eapply hoare_bind; [simple apply hoare_attr; hside |].
  intros i. cbv beta. destruct (String.eqb i id).
  - simple apply hoare_ret. tauto.
  - simple eapply hoare_conseq; [apply IH | tauto | done].
Qed.

Lemma restore_file_ok cfg t path file :
  t ≠ precommit →
  hoare (queues_ok cfg) (restore_file t path file) (λ _, queues_ok cfg) (queues_ok cfg).
Proof.
  intros Ht. unfold restore_file. destruct (negb _); [by simple apply hoare_ret |].
  simple eapply hoare_bind; [hstep |]. intros ?. cbv beta.
  simple eapply hoare_bind; [hstep |]. intros fs. cbv beta.
  simple eapply hoare_bind; [hstep |]. intros text. cbv beta.
  hweaken (queues_ok cfg).
  simple eapply hoare_bind; [hstep |]. intros d. cbv beta.
  hweaken (queues_ok cfg).
  simple eapply hoare_bind with (R := λ r w, queues_ok cfg w ∧ class_of r = Some t).
  - destruct t; [done | |].
    + simple eapply hoare_bind; [hstep |]. intros r. cbv beta. simple apply hoare_ret. tauto.
    + simple eapply hoare_bind; [hstep |]. intros r. cbv beta. simple apply hoare_ret. tauto.
  - intros r. simple apply hoare_pure. intros Hr. simple apply hoare_append_ok. by apply fresh_item_ok.
Qed.

Lemma restore_type_ok cfg t :
  t ≠ precommit →
  hoare (queues_ok cfg) (restore_type t) (λ _, queues_ok cfg) (queues_ok cfg).
Proof.
  intros Ht. unfold restore_type.
  simple eapply hoare_bind; [hstep |]. intros w0. cbv beta.
  hweaken (queues_ok cfg).
  simple eapply hoare_bind with (R := λ _, queues_ok cfg).
  { destruct (negb _); [| by simple apply hoare_ret].
    simple eapply hoare_bind; [hstep |]. intros ?. cbv beta. hstep. }
  intros ?. cbv beta.
  simple eapply hoare_bind; [hstep |]. intros fs. cbv beta.
  simple eapply hoare_bind; [hstep |]. intros listing. cbv beta.
  hweaken (queues_ok cfg).
  simple apply hoare_for. intros file _. by apply restore_file_ok.
Qed.

Lemma restore_ok cfg :
  hoare (queues_ok cfg) _restore_pending_submissions (λ _, queues_ok cfg) (queues_ok cfg).
Proof.
  unfold _restore_pending_submissions.
  simple apply hoare_for. intros t Ht. apply restore_type_ok.
  intros ->. apply elem_of_cons in Ht as [? | Ht]; [done |].
  apply elem_of_cons in Ht as [? | Ht]; [done |]. by apply elem_of_nil in Ht.
Qed.

Lemma on_precommit_ready_ok cfg settings num_nonces :
  hoare (queues_ok cfg) (on_precommit_ready settings num_nonces)
    (λ _, queues_ok cfg) (queues_ok cfg).
Proof. unfold on_precommit_ready. simple apply hoare_append_ok. by apply fresh_item_ok. Qed.

Lemma on_benchmark_ready_ok cfg id root nonces :
  hoare (queues_ok cfg) (on_benchmark_ready id root nonces)
    (λ _, queues_ok cfg) (queues_ok cfg).
Proof.
  unfold on_benchmark_ready.
  simple eapply hoare_bind; [hstep |]. intros l. cbv beta.
  hweaken (queues_ok cfg).
  simple eapply hoare_bind; [apply any_benchmark_id_state |]. intros [|]; [hstep |].
  simple eapply hoare_bind; [simple apply hoare_append_ok; by apply fresh_item_ok |]. intros ?. cbv beta.
  simple eapply hoare_bind; [hstep |]. intros w0. cbv beta.
  hweaken (queues_ok cfg).
  hstep.
Qed.

Lemma on_proof_ready_ok cfg id proofs :
  hoare (queues_ok cfg) (on_proof_ready id proofs) (λ _, queues_ok cfg) (queues_ok cfg).
Proof.
  unfold on_proof_ready.
  simple eapply hoare_bind; [hstep |]. intros l. cbv beta.
  hweaken (queues_ok cfg).
  simple eapply hoare_bind; [apply any_benchmark_id_state |]. intros [|]; [hstep |].
  simple eapply hoare_bind; [simple apply hoare_append_ok; by apply fresh_item_ok |]. intros ?. cbv beta.
  simple eapply hoare_bind; [hstep |]. intros w0. cbv beta.
  hweaken (queues_ok cfg).
  hstep.
Qed.

Lemma filter_submissions_ok cfg t precommits kwargs l acc :
  Forall (item_ok cfg t) l → Forall (item_ok cfg t) acc →
  hoare (queues_ok cfg) (filter_submissions t precommits kwargs l acc)
    (λ r w, queues_ok cfg w ∧ Forall (item_ok cfg t) r) (queues_ok cfg).
Proof.
  revert acc. induction l as [|x l IH]; intros acc Hl Hacc; simpl.
  - simple apply hoare_ret. tauto.
  - inversion_clear Hl as [|? ? Hx Hl'].
    simple eapply hoare_bind; [hstep |]. intros i. cbv beta.
    hweaken (queues_ok cfg).
    simple eapply hoare_bind with (R := λ _, queues_ok cfg).
    { unfold is_retired. destruct (bool_decide _); [by simple apply hoare_ret |].
      simple eapply hoare_bind with (R := λ _, queues_ok cfg).
      - unfold lookup_kwarg. destruct (kwargs !! _); [by simple apply hoare_ret | by simple apply hoare_raise].
      - intros ?. cbv beta. by simple apply hoare_ret. }
    intros [|].
    + simple eapply hoare_bind; [hstep |]. intros ?. cbv beta.
      simple eapply hoare_bind; [hstep |]. intros w0. cbv beta.
      hweaken (queues_ok cfg).
      simple eapply hoare_bind with (R := λ _, queues_ok cfg).
      { destruct (Os.exists_ _ _); [hstep | by simple apply hoare_ret]. }
      intros ?. cbv beta. by apply IH.
    + apply IH; [done |]. apply Forall_app. split; [done | by constructor].
Qed.

Lemma reconcile_ok cfg precommits kwargs t :
  hoare (queues_ok cfg) (reconcile precommits kwargs t) (λ _, queues_ok cfg) (queues_ok cfg).
Proof.
  unfold reconcile. split. intros w Hw. unfold bind. simpl.
  pose proof (filter_submissions_ok cfg t precommits kwargs
                (queue t (pending_submissions w)) [] (proj2 Hw t) (Forall_nil_2 _)) as H.
  destruct H as [H]. specialize (H w Hw).
  destruct (filter_submissions _ _ _ _ _ w) as [[r|e] w']; [| done].
  destruct H as [H1 H2]. by apply queues_ok_set.
Qed.

Lemma on_new_block_ok cfg precommits kwargs :
  hoare (queues_ok cfg) (on_new_block precommits kwargs) (λ _, queues_ok cfg) (queues_ok cfg).
Proof.
  unfold on_new_block.
  simple eapply hoare_bind; [hstep |]. intros w0. cbv beta.
  hweaken (queues_ok cfg).
  simple eapply hoare_bind with (R := λ _, queues_ok cfg).
  { destruct (clear_precommits_submission_on_new_block _); [| by simple apply hoare_ret].
    simple eapply hoare_bind; [hstep |]. intros l. cbv beta.
    hweaken (queues_ok cfg).
    simple eapply hoare_bind; [hstep |]. intros ?. cbv beta.
    simple apply hoare_set_pending_ok. constructor. }
  intros ?. cbv beta. simple apply hoare_for. intros t _. apply reconcile_ok.
Qed.

Lemma submit_ok cfg s outcome now :
  hoare (queues_ok cfg) (submit s outcome now) (λ _, queues_ok cfg) (queues_ok cfg).
Proof.
  unfold submit.
  simple eapply hoare_bind with (R := λ t w, queues_ok cfg w ∧ class_of (request s) = Some t).
  { destruct (class_of (request s)); [simple apply hoare_ret; tauto | by simple apply hoare_raise]. }
  intros t. simple apply hoare_pure. intros Ht.
  simple eapply hoare_bind; [hstep |]. intros ?. cbv beta.
  simple eapply hoare_bind; [hstep |]. intros w0. cbv beta.
  simple apply (hoare_conseq _ (λ w, queues_ok cfg w ∧ config w0 = cfg) _ _ (λ _, queues_ok cfg));
    [| by intros w [-> Hw]; split; [| apply Hw] | done].
  simple apply hoare_pure. intros Hc.
  simple eapply hoare_bind; [hstep |]. intros ?. cbv beta.
  destruct outcome as [status text ct|]; [| by simple apply hoare_raise].
  destruct (status =? 200).
  { simple eapply hoare_bind; [hstep |]. intros ?. cbv beta. hstep. }
  simple eapply hoare_bind with (R := λ _, queues_ok cfg).
  { destruct (bool_decide _); hstep. }
  intros ?. cbv beta.
  simple eapply hoare_bind with (R := λ _, queues_ok cfg); [| intros ?; hstep].
  destruct (_ && _) eqn:Hretry; [| by simple apply hoare_ret].
  simple apply hoare_append_ok. split; [done |]. simpl.
  intros n Hn _. apply andb_true_iff in Hretry as [_ Hretry].
  rewrite Hc, Hn in Hretry. lia.
Qed.

(** ** The update tick *)

Lemma set_queue_set_queue t l l' q : set_queue t l (set_queue t l' q) = set_queue t l q.
Proof. by destruct t. Qed.

(** What [take_ready] does, by cases on the sorted queue. *)
Lemma take_ready_eq now t w :
  take_ready now t w =
    match sorted last_retry_time (queue t (pending_submissions w)) with
    | [] => (Ok None, w)
    | head :: rest =>
        if now - last_retry_time head <? ms_delay_between_retries (config w) then
          (Ok None,
           with_out (out w ++ [Log INFO (NoneReady t)])
             (with_pending (set_queue t (head :: rest) (pending_submissions w)) w))
        else
          let w1 := with_pending (set_queue t rest (pending_submissions w)) w in
          match t, benchmark_id (request head) with
          | precommit, _ =>
              (Ok (Some head),
               with_out (out w ++ [Log INFO (SubmittingPrecommit (request head))]) w1)
          | _, Some id =>
              (Ok (Some head), with_out (out w ++ [Log INFO (Submitting t id)]) w1)
          | _, None => (Raise AttributeError, w1)
          end
    end.
Proof.
  unfold take_ready, bind, pending, set_pending, get, logger, put_out, attr, ret, raise.
  destruct (queue t (pending_submissions w)) as [|x l] eqn:E.
  - done.
  - rewrite bool_decide_true by (simpl; lia).
    cbn [pending_submissions with_pending]. rewrite queue_set_queue_eq.
    pose proof (sorted_length last_retry_time (x :: l)) as Hlen.
    destruct (sorted last_retry_time (x :: l)) as [|head rest]; [done |].
    cbn [config with_pending]. destruct (_ <? _); [done |].
    cbn [pending_submissions with_pending with_out out api_url api_key backup_folder config disk].
    rewrite set_queue_set_queue.
    destruct t; [done | |]; by destruct (benchmark_id (request head)).
Qed.

Lemma oldest_ready_Some now delay l s :
  oldest_ready now delay l = Some s →
  sorted last_retry_time l = s :: after_tick now delay l ∧
  (∀ x, x ∈ l → last_retry_time s ≤ last_retry_time x) ∧
  last_retry_time s + delay ≤ now.
Proof.
  unfold after_tick, oldest_ready.
  destruct (sorted last_retry_time l) as [|head rest] eqn:E; [done |].
  destruct (Z.ltb_spec (now - last_retry_time head) delay); [done |].
  intros [= ->]. split; [done |]. split; [| lia].
  by eapply sorted_head_least.
Qed.

Lemma take_ready_effect now t w :
  let r := fst (take_ready now t w) in
  let w' := snd (take_ready now t w) in
  let delay := ms_delay_between_retries (config w) in
  let q := queue t (pending_submissions w) in
  config w' = config w ∧
  (∀ t', t' ≠ t → queue t' (pending_submissions w') = queue t' (pending_submissions w)) ∧
  queue t (pending_submissions w') = after_tick now delay q ∧
  (∀ o, r = Ok o → o = oldest_ready now delay q).
Proof.
  rewrite take_ready_eq. unfold after_tick, oldest_ready.
  destruct (sorted last_retry_time _) as [|head rest] eqn:E; simpl.
  - repeat split; try done.
    + destruct (queue t (pending_submissions w)) as [|x l] eqn:El; [done |].
      pose proof (sorted_length last_retry_time (x :: l)) as Hlen.
      by rewrite E in Hlen.
    + by intros o [= <-].
  - destruct (_ <? _); simpl.
    + repeat split; try done.
      * intros t' Ht. by rewrite queue_set_queue_ne.
      * by rewrite queue_set_queue_eq.
      * by intros o [= <-].
    + destruct t; simpl; try destruct (benchmark_id (request head)); simpl;
        repeat split; try done; try (by intros [] ?); try (by intros o [= <-]).
Qed.

Lemma omap_ext_in {A B} (f g : A → option B) (l : list A) :
  (∀ x, x ∈ l → f x = g x) → omap f l = omap g l.
Proof.
  induction l as [|x l IH]; intros H; csimpl; [done |].
  rewrite (H x) by left. rewrite IH; [done |]. intros y Hy. apply H. by right.
Qed.

Lemma take_all_spec now ts acc w :
  NoDup ts →
  let r := fst (take_all now ts acc w) in
  let w' := snd (take_all now ts acc w) in
  let delay := ms_delay_between_retries (config w) in
  config w' = config w ∧
  (∀ t, t ∉ ts → queue t (pending_submissions w') = queue t (pending_submissions w)) ∧
  (∀ t, t ∈ ts →
        queue t (pending_submissions w') = queue t (pending_submissions w) ∨
        queue t (pending_submissions w') = after_tick now delay (queue t (pending_submissions w))) ∧
  (∀ l, r = Ok l →
        l = acc ++ omap (λ t, pair t <$> oldest_ready now delay (queue t (pending_submissions w))) ts ∧
        ∀ t, t ∈ ts →
             queue t (pending_submissions w') = after_tick now delay (queue t (pending_submissions w))).
Proof.
  revert acc w. induction ts as [|t ts IH]; intros acc w Hnd; csimpl.
  { split; [done |]. split; [done |]. split.
    - intros t Ht. by apply elem_of_nil in Ht.
    - intros l [= <-]. split; [by rewrite app_nil_r |].
      intros t Ht. by apply elem_of_nil in Ht. }
  apply NoDup_cons in Hnd as [Ht Hnd].
  pose proof (take_ready_effect now t w) as (Hc1 & Hf1 & Hq1 & Hr1).
  unfold bind. destruct (take_ready now t w) as [[o|e] w1]; simpl in *.
  - specialize (Hr1 o eq_refl). subst o.
    pose proof (IH (match oldest_ready now (ms_delay_between_retries (config w))
                             (queue t (pending_submissions w)) with
                    | Some s => acc ++ [(t, s)]
                    | None => acc
                    end) w1 Hnd) as (Hc2 & Hf2 & Hq2 & Hr2).
    rewrite Hc1 in Hq2, Hr2.
    split; [congruence |]. split; [| split].
    + intros t' Ht'. apply not_elem_of_cons in Ht' as [Hne Ht'].
      rewrite Hf2 by done. by apply Hf1.
    + intros t' Ht'. apply elem_of_cons in Ht' as [-> | Ht'].
      * right. rewrite Hf2 by done. done.
      * assert (t' ≠ t) by (intros ->; done).
        rewrite <- (Hf1 t') by done. by apply Hq2.
    + intros l Hl. apply Hr2 in Hl as [-> Hl]. split.
      * rewrite (omap_ext_in _
          (λ t0, pair t0 <$> oldest_ready now (ms_delay_between_retries (config w))
                               (queue t0 (pending_submissions w))) ts).
        2:{ intros t' Ht'. rewrite Hf1; [done |]. by intros ->. }
        destruct (oldest_ready _ _ (queue t _)); simpl; [| done].
        by rewrite <- app_assoc.
      * intros t' Ht'. apply elem_of_cons in Ht' as [-> | Ht'].
        -- by rewrite Hf2.
        -- rewrite Hl by done. rewrite Hf1; [done |]. by intros ->.
  - split; [done |]. split; [| split].
    + intros t' Ht'. apply not_elem_of_cons in Ht' as [Hne Ht']. by apply Hf1.
    + intros t' Ht'. destruct (decide (t' = t)) as [-> |]; [by right | left; by apply Hf1].
    + done.
Qed.

Lemma on_update_dequeue_eq now w :
  on_update_dequeue now w =
    take_all now [precommit; benchmark; proof] []
      (with_out
         (out w ++ [Log INFO (PendingCounts (length (q_precommit (pending_submissions w)))
                                (length (q_benchmark (pending_submissions w)))
                                (length (q_proof (pending_submissions w))))]) w).
Proof. done. Qed.

(** The dequeuing part of a tick, on the three categories. *)
Lemma on_update_dequeue_spec now w :
  let r := fst (on_update_dequeue now w) in
  let w' := snd (on_update_dequeue now w) in
  let delay := ms_delay_between_retries (config w) in
  config w' = config w ∧
  (∀ t, queue t (pending_submissions w') = queue t (pending_submissions w) ∨
        queue t (pending_submissions w') = after_tick now delay (queue t (pending_submissions w))) ∧
  (∀ l, r = Ok l →
        l = omap (λ t, pair t <$> oldest_ready now delay (queue t (pending_submissions w)))
              [precommit; benchmark; proof] ∧
        ∀ t, queue t (pending_submissions w') = after_tick now delay (queue t (pending_submissions w))).
Proof.
  assert (NoDup [precommit; benchmark; proof]) as Hnd.
  { by apply (bool_decide_unpack _). }
  assert (∀ t, t ∈ [precommit; benchmark; proof]) as Hall.
  { intros []; repeat constructor. }
  rewrite on_update_dequeue_eq.
  match goal with
  | |- context [take_all now _ [] ?w0] =>
      pose proof (take_all_spec now [precommit; benchmark; proof] [] w0 Hnd)
        as (Hc & _ & Hq & Hr);
      destruct (take_all now _ [] w0) as [r w']
  end.
  simpl in *.
  split; [done |]. split; [by intros t; apply Hq |].
  intros l Hl. destruct (Hr l Hl) as [-> Hl']. split; [done |]. intros t. by apply Hl'.
Qed.

Lemma oldest_ready_elem now delay l s :
  oldest_ready now delay l = Some s → s ∈ l.
Proof.
  intros H. apply oldest_ready_Some in H as [H _].
  rewrite <- (sorted_Permutation last_retry_time l), H. by left.
Qed.

Lemma after_tick_Forall (P : PendingSubmission → Prop) now delay l :
  Forall P l → Forall P (after_tick now delay l).
Proof.
  intros H. rewrite <- (sorted_Permutation last_retry_time l) in H.
  unfold after_tick. destruct (oldest_ready now delay l); [| done].
  destruct (sorted last_retry_time l); [done |]. by inversion H.
Qed.

Lemma on_update_dequeue_ok cfg now w :
  queues_ok cfg w →
  queues_ok cfg (snd (on_update_dequeue now w)) ∧
  ∀ l, fst (on_update_dequeue now w) = Ok l → Forall (λ ts, item_ok cfg ts.1 ts.2) l.
Proof.
  intros [Hc Hw].
  pose proof (on_update_dequeue_spec now w) as (Hc' & Hq & Hr).
  split; [split |].
  - congruence.
  - intros t. destruct (Hq t) as [-> | ->]; [done | by apply after_tick_Forall].
  - intros l Hl. apply Hr in Hl as [-> _].
    apply Forall_forall. intros [t s] Hts.
    apply list_elem_of_omap in Hts as (t' & _ & Hts).
    destruct (oldest_ready _ _ _) as [s'|] eqn:E; [| done].
    injection Hts as -> ->. simpl.
    apply oldest_ready_elem in E.
    specialize (Hw t). rewrite Forall_forall in Hw. by apply Hw.
Qed.

Lemma hoare_snd {A} (I : World → Prop) (m : M A) w :
  hoare I m (λ _, I) I → I w → I (snd (m w)).
Proof. intros [H] Hw. specialize (H w Hw). by destruct (m w) as [[a|e] w']. Qed.

Lemma new_extension_ok url key backup cfg fs :
  queues_ok cfg (new_extension url key backup cfg fs).
Proof. split; [done |]. intros []; constructor. Qed.

(** In operation the queues stay well formed, and what is in flight
    came out of them. *)
Lemma reachable_ok w fl :
  reachable w fl →
  queues_ok (config w) w ∧ Forall (λ s, ∃ t, item_ok (config w) t s) fl.
Proof.
  induction 1 as [url key backup cfg fs w Hinit
                 | w fl settings n _ [IH1 IH2]
                 | w fl id root nonces _ [IH1 IH2]
                 | w fl id proofs _ [IH1 IH2]
                 | w fl precommits kwargs _ [IH1 IH2]
                 | w fl now _ [IH1 IH2]
                 | w fl1 s fl2 outcome now _ [IH1 IH2]].
  - unfold init in Hinit.
    pose proof (hoare_snd _ _ _ (restore_ok cfg) (new_extension_ok url key backup cfg fs)) as H.
    destruct (_restore_pending_submissions _) as [[[]|e] w']; [| done].
    injection Hinit as <-. simpl in H. destruct H as [Hc H]. rewrite Hc.
    split; [by split | constructor].
  - pose proof (hoare_snd _ _ _ (on_precommit_ready_ok _ settings n) IH1) as H.
    destruct H as [Hc H]. rewrite Hc. by split.
  - pose proof (hoare_snd _ _ _ (on_benchmark_ready_ok _ id root nonces) IH1) as H.
    destruct H as [Hc H]. rewrite Hc. by split.
  - pose proof (hoare_snd _ _ _ (on_proof_ready_ok _ id proofs) IH1) as H.
    destruct H as [Hc H]. rewrite Hc. by split.
  - pose proof (hoare_snd _ _ _ (on_new_block_ok _ precommits kwargs) IH1) as H.
    destruct H as [Hc H]. rewrite Hc. by split.
  - pose proof (on_update_dequeue_ok _ now w IH1) as [[Hc H] Hl].
    rewrite Hc. split; [by split |].
    apply Forall_app. split; [done |].
    destruct (on_update_dequeue now w).1 as [l|e]; [| constructor].
    specialize (Hl l eq_refl). apply Forall_fmap.
    eapply Forall_impl; [exact Hl |]. intros [t s] Hs. by exists t.
  - pose proof (hoare_snd _ _ _ (submit_ok _ s outcome now) IH1) as H.
    destruct H as [Hc H]. rewrite Hc. split; [by split |].
    apply Forall_app in IH2 as [H1 H2]. inversion_clear H2.
    apply Forall_app. by split.
Qed.

(** [submit], once the class of the request is known. *)
Lemma submit_eq s t outcome now w :
  class_of (request s) = Some t →
  submit s outcome now w =
    let d := to_dict (request s) in
    let o1 := (out w ++ [Log DEBUG (SubmittingDict t d)]) ++
              [Post (api_url w +:+ "/submit-" +:+ submission_type t) (api_key w) d] in
    match outcome with
    | ConnectionFailed => (Raise ClientError, with_out o1 w)
    | Response status text content_type =>
        if status =? 200 then
          (Ok tt, with_out ((o1 ++ [Log INFO (Submitted t)]) ++ [Emit (submit_success t text d)]) w)
        else
          let o2 := o1 ++ [Log ERROR (StatusWhenSubmitting t status
                             (if bool_decide (content_type = Some "text/plain")
                              then Some text else None))] in
          let q := if (500 <=? status) && (status <=? 599) &&
                      match max_retries (config w) with
                      | None => true
                      | Some n => retries s + 1 <? n
                      end
                   then set_queue t (queue t (pending_submissions w) ++
                                     [mkPendingSubmission now (retries s + 1) (request s)])
                          (pending_submissions w)
                   else pending_submissions w in
          (Ok tt, with_out (o2 ++ [Emit (submit_error t text status (request s))])
                    (with_pending q w))
    end.
Proof.
  intros Ht. unfold submit. rewrite Ht.
  unfold bind, ret, get, logger, emit, put_out, raise, append, pending, set_pending.
  destruct outcome as [status text ct|]; simpl; [| done].
  destruct (status =? 200); simpl; [done |].
  destruct (bool_decide (ct = Some "text/plain")); simpl;
    destruct (_ && _); simpl; try done.
  all: by destruct w as [? ? ? ? [] ? ?].
Qed.

Lemma submit_no_ValueError s t outcome now w :
  class_of (request s) = Some t → fst (submit s outcome now w) ≠ Raise ValueError.
Proof.
  intros Ht. rewrite (submit_eq s t) by done. simpl.
  destruct outcome as [status text ct|]; [| done].
  by destruct (status =? 200).
Qed.

Lemma gather_no_ValueError (cs : list (M unit)) w :
  Forall (λ c, ∀ w, fst (c w) ≠ Raise ValueError) cs →
  fst (gather cs w) ≠ Raise ValueError.
Proof.
  revert w. induction cs as [|c cs IH]; intros w Hcs; simpl; [done |].
  inversion_clear Hcs as [|? ? Hc Hcs'].
  specialize (Hc w). destruct (c w) as [[[]|e] w']; simpl in *.
  - by apply IH.
  - congruence.
Qed.

(** ** Reconciliation on a new block *)

Lemma no_json_dirs_not_dir fs p :
  no_json_dirs fs = true → Path.endswith ".json" p = true → Os.is_dir fs p = false.
Proof.
  intros Hfs Hp. unfold Os.is_dir. apply bool_decide_eq_false. intros Hd.
  unfold no_json_dirs in Hfs. rewrite forallb_forall in Hfs.
  specialize (Hfs p). rewrite Hp in Hfs.
  assert (negb true = true) as Habs; [| done].
  apply Hfs. apply list_elem_of_In, elem_of_elements. done.
Qed.

Lemma backup_path_json a id : Path.endswith ".json" (Path.join a (id +:+ ".json")) = true.
Proof. apply endswith_join, endswith_app. Qed.

Lemma filter_submissions_eq t precommits kwargs confirmed l acc w :
  kwargs !! (submission_type t +:+ "s") = Some confirmed →
  has_ids l → no_json_dirs (disk w) = true →
  ∃ w', filter_submissions t precommits kwargs l acc w =
          (Ok (acc ++ filter (λ s, retired precommits confirmed s = false) l), w') ∧
        pending_submissions w' = pending_submissions w ∧
        config w' = config w ∧ backup_folder w' = backup_folder w ∧
        dirs (disk w') = dirs (disk w).
Proof.
  intros Hkw. revert acc w. induction l as [|s l IH]; intros acc w Hl Hfs; simpl.
  { exists w. by rewrite app_nil_r. }
  inversion_clear Hl as [|? ? [id Hid] Hl'].
  assert (retired precommits confirmed s =
          bool_decide (precommits !! id = None) || bool_decide (id ∈ confirmed)) as Hret.
  { unfold retired. by rewrite Hid. }
  rewrite filter_cons, Hid.
  unfold bind, attr, ret, is_retired, lookup_kwarg. simpl. rewrite Hkw.
  destruct (bool_decide (precommits !! id = None)) eqn:Hexp; simpl in *.
  - rewrite decide_False by (by rewrite Hret).
    unfold logger, put_out, get. simpl.
    destruct (Os.exists_ _ _) eqn:Hex.
    + unfold on_disk, Os.remove. simpl.
      unfold Os.exists_ in Hex.
      rewrite (no_json_dirs_not_dir (disk w)) in * by (done || apply backup_path_json).
      rewrite orb_false_r in Hex. rewrite Hex.
      edestruct IH as (w' & -> & Hw'); [done | | by exists w'].
      done.
    + edestruct IH as (w' & -> & Hw'); [done | | by exists w'].
      done.
  - destruct (bool_decide (id ∈ confirmed)) eqn:Hconf; simpl.
    + rewrite decide_False by (by rewrite Hret).
      unfold logger, put_out, get. simpl.
      destruct (Os.exists_ _ _) eqn:Hex.
      * unfold on_disk, Os.remove. simpl.
        unfold Os.exists_ in Hex.
        rewrite (no_json_dirs_not_dir (disk w)) in * by (done || apply backup_path_json).
        rewrite orb_false_r in Hex. rewrite Hex.
        edestruct IH as (w' & -> & Hw'); [done | | by exists w'].
        done.
      * edestruct IH as (w' & -> & Hw'); [done | | by exists w'].
        done.
    + rewrite decide_True by done.
      edestruct IH as (w' & -> & Hw'); [done | done |].
      exists w'. by rewrite <- app_assoc.
Qed.

Lemma reconcile_eq precommits kwargs confirmed t w :
  kwargs !! (submission_type t +:+ "s") = Some confirmed →
  has_ids (queue t (pending_submissions w)) → no_json_dirs (disk w) = true →
  ∃ w', reconcile precommits kwargs t w = (Ok tt, w') ∧
        queue t (pending_submissions w') =
          filter (λ s, retired precommits confirmed s = false) (queue t (pending_submissions w)) ∧
        (∀ t', t' ≠ t → queue t' (pending_submissions w') = queue t' (pending_submissions w)) ∧
        config w' = config w ∧ backup_folder w' = backup_folder w ∧
        dirs (disk w') = dirs (disk w).
Proof.
  intros Hkw Hl Hfs. unfold reconcile, bind, pending, set_pending.
  destruct (filter_submissions_eq t precommits kwargs confirmed _ [] w Hkw Hl Hfs)
    as (w' & -> & Hp & Hc & Hb & Hd).
  eexists. split; [done |]. simpl. rewrite Hp.
  split; [by rewrite queue_set_queue_eq |].
  split; [by intros t' Ht'; rewrite queue_set_queue_ne |]. done.
Qed.

Lemma on_new_block_eq precommits kwargs w :
  on_new_block precommits kwargs w =
    for_ [benchmark; proof] (reconcile precommits kwargs) (cleared w).
Proof.
  unfold on_new_block, cleared, bind, get.
  by destruct (clear_precommits_submission_on_new_block (config w)).
Qed.

(** C2: on [new_block], with the confirmed sets of both categories in
    the event, a pending benchmark (proof) leaves its queue if and only
    if its id is absent from [precommits] or in the confirmed set of its
    category; the others stay, in their order. *)
Theorem new_block_removes_expired_and_confirmed
    (precommits : gmap string Precommit) (kwargs : gmap string (gset string))
    (benchmarks proofs : gset string) (w : World) :
  kwargs !! "benchmarks" = Some benchmarks →
  kwargs !! "proofs" = Some proofs →
  has_ids (queue benchmark (pending_submissions w)) →
  has_ids (queue proof (pending_submissions w)) →
  no_json_dirs (disk w) = true →
  ∃ w', on_new_block precommits kwargs w = (Ok tt, w') ∧
    queue benchmark (pending_submissions w') =
      filter (λ s, retired precommits benchmarks s = false)
        (queue benchmark (pending_submissions w)) ∧
    queue proof (pending_submissions w') =
      filter (λ s, retired precommits proofs s = false)
        (queue proof (pending_submissions w)) ∧
    (∀ s, s ∈ queue benchmark (pending_submissions w) →
          (s ∉ queue benchmark (pending_submissions w') ↔
           ∃ id, benchmark_id (request s) = Some id ∧
                 (precommits !! id = None ∨ id ∈ benchmarks))) ∧
    (∀ s, s ∈ queue proof (pending_submissions w) →
          (s ∉ queue proof (pending_submissions w') ↔
           ∃ id, benchmark_id (request s) = Some id ∧
                 (precommits !! id = None ∨ id ∈ proofs))) ∧
    queue benchmark (pending_submissions w') `sublist_of` queue benchmark (pending_submissions w) ∧
    queue proof (pending_submissions w') `sublist_of` queue proof (pending_submissions w).
Proof.
  intros Hb Hp Hlb Hlp Hfs.
  assert (∀ confirmed l l' s,
            has_ids l → l' = filter (λ s, retired precommits confirmed s = false) l → s ∈ l →
            (s ∉ l' ↔ ∃ id, benchmark_id (request s) = Some id ∧
                            (precommits !! id = None ∨ id ∈ confirmed))) as Hiff.
  { intros confirmed l l' s Hl -> Hs. rewrite list_elem_of_filter.
    unfold has_ids in Hl. rewrite Forall_forall in Hl. destruct (Hl s Hs) as [id Hid].
    unfold retired. rewrite Hid. split.
    - intros Hn. exists id. split; [done |].
      destruct (bool_decide (precommits !! id = None)) eqn:E1.
      + left. by apply bool_decide_eq_true in E1.
      + destruct (bool_decide (id ∈ confirmed)) eqn:E2.
        * right. by apply bool_decide_eq_true in E2.
        * exfalso. apply Hn. by split.
    - intros (id' & [= <-] & [H | H]) [Hr _].
      + by rewrite bool_decide_true in Hr.
      + rewrite (bool_decide_true (id ∈ confirmed)) in Hr by done.
        by rewrite orb_true_r in Hr. }
  rewrite on_new_block_eq.
  set (w1 := cleared w).
  assert (queue benchmark (pending_submissions w1) = queue benchmark (pending_submissions w) ∧
          queue proof (pending_submissions w1) = queue proof (pending_submissions w) ∧
          disk w1 = disk w) as (Hb1 & Hp1 & Hd1).
  { subst w1. unfold cleared. by destruct (clear_precommits_submission_on_new_block (config w)). }
  simpl for_. unfold bind at 1.
  destruct (reconcile_eq precommits kwargs benchmarks benchmark w1 Hb)
    as (w2 & -> & Hq2 & Hf2 & _ & _ & Hd2); [by rewrite Hb1 | by rewrite Hd1 |].
  unfold bind.
  destruct (reconcile_eq precommits kwargs proofs proof w2 Hp)
    as (w3 & -> & Hq3 & Hf3 & _ & _ & Hd3).
  { rewrite Hf2 by done. by rewrite Hp1. }
  { unfold no_json_dirs. rewrite Hd2. unfold no_json_dirs in Hfs. by rewrite Hd1. }
  exists w3. split; [done |].
  rewrite Hf3 by done. rewrite Hq2, Hq3, Hf2 by done. rewrite Hb1, Hp1.
  split; [done |]. split; [done |].
  split; [intros s Hs; by apply (Hiff benchmarks _ _ s Hlb eq_refl) |].
  split; [intros s Hs; by apply (Hiff proofs _ _ s Hlp eq_refl) |].
  split; apply sublist_filter.
Qed.

(** ** No duplicate benchmark or proof submissions *)

Lemma ids_app l1 l2 : ids (l1 ++ l2) = ids l1 ++ ids l2.
Proof. apply omap_app. Qed.

Lemma any_benchmark_id_result id l w :
  snd (any_benchmark_id id l w) = w ∧
  (fst (any_benchmark_id id l w) = Ok false → id ∉ ids l) ∧
  (has_ids l → fst (any_benchmark_id id l w) = Ok (bool_decide (id ∈ ids l))).
Proof.
  induction l as [|x l (IH1 & IH2 & IH3)]; csimpl.
  { split; [done |]. split; [intros _; apply not_elem_of_nil |]. by intros _. }
  unfold bind, attr. unfold ids in *. csimpl.
  destruct (benchmark_id (request x)) as [i|] eqn:Hi; simpl.
  - destruct (String.eqb_spec i id) as [-> | Hne]; simpl.
    + split; [done |]. split; [done |]. intros _.
      by rewrite bool_decide_true by left.
    + split; [done |]. split.
      * intros H. apply not_elem_of_cons. split; [done | by apply IH2].
      * intros H. inversion_clear H. rewrite IH3 by done.
        f_equal. apply bool_decide_ext. rewrite elem_of_cons.
        split; [by right | intros [? | ?]; [congruence | done]].
  - split; [done |]. split; [done |].
    intros H. inversion_clear H as [|? ? [? ?] _]. congruence.
Qed.

Lemma on_benchmark_ready_queues id root nonces w :
  let w' := snd (on_benchmark_ready id root nonces w) in
  pending_submissions w' = pending_submissions w ∨
  ((id ∉ ids (queue benchmark (pending_submissions w))) ∧
   pending_submissions w' =
     set_queue benchmark
       (queue benchmark (pending_submissions w) ++
        [mkPendingSubmission 0 0 (ReqBenchmark (mkSubmitBenchmarkRequest id root nonces))])
       (pending_submissions w)).
Proof.
  unfold on_benchmark_ready, bind, pending. simpl.
  pose proof (any_benchmark_id_result id (q_benchmark (pending_submissions w)) w)
    as (Hs & Hf & _).
  destruct (any_benchmark_id id _ w) as [[[|]|e] w1]; simpl in *; subst w1.
  - by left.
  - right. split; [by apply Hf |].
    unfold on_disk. simpl. by destruct (Os.write _ _ _).
  - by left.
Qed.

Lemma on_proof_ready_queues id proofs w :
  let w' := snd (on_proof_ready id proofs w) in
  pending_submissions w' = pending_submissions w ∨
  ((id ∉ ids (queue proof (pending_submissions w))) ∧
   pending_submissions w' =
     set_queue proof
       (queue proof (pending_submissions w) ++
        [mkPendingSubmission 0 0 (ReqProof (mkSubmitProofRequest id proofs))])
       (pending_submissions w)).
Proof.
  unfold on_proof_ready, bind, pending. simpl.
  pose proof (any_benchmark_id_result id (q_proof (pending_submissions w)) w)
    as (Hs & Hf & _).
  destruct (any_benchmark_id id _ w) as [[[|]|e] w1]; simpl in *; subst w1.
  - by left.
  - right. split; [by apply Hf |].
    unfold on_disk. simpl. by destruct (Os.write _ _ _).
  - by left.
Qed.

Lemma handle_ready_unique e w : unique_ids w → unique_ids (snd (handle_ready e w)).
Proof.
  intros [Hb Hp]. unfold unique_ids.
  destruct e as [settings n | id root nonces | id proofs]; cbn [handle_ready].
  - done.
  - destruct (on_benchmark_ready_queues id root nonces w) as [-> | [Hid ->]]; [done |].
    split; [| done]. simpl. rewrite ids_app. apply NoDup_app.
    split; [done |]. split; [| apply NoDup_singleton].
    intros i Hi Hi'. apply list_elem_of_singleton in Hi'. by subst.
  - destruct (on_proof_ready_queues id proofs w) as [-> | [Hid ->]]; [done |].
    split; [done |]. simpl. rewrite ids_app. apply NoDup_app.
    split; [done |]. split; [| apply NoDup_singleton].
    intros i Hi Hi'. apply list_elem_of_singleton in Hi'. by subst.
Qed.

(** C5: along any sequence of ready events the benchmark queue and the
    proof queue never hold two pending submissions with one
    [benchmark_id]; an event whose id is already pending in its queue
    changes neither the queue nor the disk and only logs a warning. *)
Theorem ready_events_never_duplicate (es : list ready_event) (w : World) :
  unique_ids w →
  unique_ids (run_ready es w) ∧
  (∀ id root nonces,
     has_ids (queue benchmark (pending_submissions w)) →
     id ∈ ids (queue benchmark (pending_submissions w)) →
     on_benchmark_ready id root nonces w =
       (Ok tt, with_out (out w ++ [Log WARNING (AlreadyPending benchmark id)]) w)) ∧
  (∀ id proofs,
     has_ids (queue proof (pending_submissions w)) →
     id ∈ ids (queue proof (pending_submissions w)) →
     on_proof_ready id proofs w =
       (Ok tt, with_out (out w ++ [Log WARNING (AlreadyPending proof id)]) w)).
Proof.
  intros Hw. split; [| split].
  - revert w Hw. induction es as [|e es IH]; intros w Hw; simpl; [done |].
    apply IH. by apply handle_ready_unique.
  - intros id root nonces Hl Hid.
    unfold on_benchmark_ready, bind, pending. simpl.
    pose proof (any_benchmark_id_result id (q_benchmark (pending_submissions w)) w)
      as (Hs & _ & Hf).
    specialize (Hf Hl). rewrite bool_decide_true in Hf by done.
    destruct (any_benchmark_id id _ w) as [r w1]. simpl in *. by subst.
  - intros id proofs Hl Hid.
    unfold on_proof_ready, bind, pending. simpl.
    pose proof (any_benchmark_id_result id (q_proof (pending_submissions w)) w)
      as (Hs & _ & Hf).
    specialize (Hf Hl). rewrite bool_decide_true in Hf by done.
    destruct (any_benchmark_id id _ w) as [r w1]. simpl in *. by subst.
Qed.

(** ** What a submission attempt emits *)

(** C7: an attempt answered with status 200 emits the success event of
    its category with the response text and the fields of the request;
    an attempt answered with any other status, re-queued or not, emits
    the error event with the response text, the status and the
    request. *)
Theorem submit_emits_outcome (s : PendingSubmission) (t : category)
    (status : Z) (text : string) (content_type : option string) (now : Z) (w : World) :
  class_of (request s) = Some t →
  let r := fst (submit s (Response status text content_type) now w) in
  let w' := snd (submit s (Response status text content_type) now w) in
  r = Ok tt ∧
  (status = 200 →
   emitted (out w') = emitted (out w) ++ [submit_success t text (to_dict (request s))]) ∧
  (status ≠ 200 →
   emitted (out w') = emitted (out w) ++ [submit_error t text status (request s)]).
Proof.
  intros Ht. rewrite (submit_eq s t) by done. simpl.
  destruct (Z.eqb_spec status 200) as [-> | Hne]; simpl.
  - split; [done |]. split; [| done]. intros _.
    unfold emitted. rewrite !omap_app. simpl. by rewrite !app_nil_r.
  - split; [done |]. split; [done |]. intros _.
    unfold emitted. rewrite !omap_app. simpl. by rewrite !app_nil_r.
Qed.

(** ** One attempt per category and tick, after the delay *)

Lemma take_ready_total now t w :
  (t ≠ precommit → has_ids (queue t (pending_submissions w))) →
  ∃ o, fst (take_ready now t w) = Ok o.
Proof.
  intros Hids. rewrite take_ready_eq.
  destruct (sorted last_retry_time _) as [|head rest] eqn:E; [by eexists |].
  destruct (_ <? _); [by eexists |].
  destruct t; [by eexists | |].
  all: assert (is_Some (benchmark_id (request head))) as [id ->];
    [| by eexists].
  all: specialize (Hids ltac:(done)); unfold has_ids in Hids;
    rewrite <- (sorted_Permutation last_retry_time), E in Hids; by inversion Hids.
Qed.

Lemma take_all_total now ts acc w :
  (∀ t, t ∈ ts → t ≠ precommit → has_ids (queue t (pending_submissions w))) →
  ∃ l, fst (take_all now ts acc w) = Ok l.
Proof.
  revert acc w. induction ts as [|t ts IH]; intros acc w Hids; simpl; [by eexists |].
  unfold bind.
  destruct (take_ready_total now t w) as [o Ho]; [apply Hids; by left |].
  pose proof (take_ready_effect now t w) as (_ & Hf & Hq & _).
  destruct (take_ready now t w) as [r w1]. simpl in *. subst r.
  apply IH. intros t' Ht' Hne.
  destruct (decide (t' = t)) as [-> | Hneq].
  - rewrite Hq. apply after_tick_Forall. apply Hids; [by left | done].
  - rewrite Hf by done. apply Hids; [by right | done].
Qed.

Lemma on_update_dequeue_total now w :
  has_ids (queue benchmark (pending_submissions w)) →
  has_ids (queue proof (pending_submissions w)) →
  ∃ l, fst (on_update_dequeue now w) = Ok l.
Proof.
  intros Hb Hp. rewrite on_update_dequeue_eq. apply take_all_total.
  intros [] _ Hne; done.
Qed.

(** C4: an update tick takes at most one submission out of each queue,
    the first of the queue sorted by [last_retry_time], and only when
    [now - last_retry_time] has reached the delay; what the tick
    attempts are the submissions it took out, so nothing whose
    [last_retry_time] is [T] is attempted before [T] plus the delay. *)
Theorem update_takes_oldest_after_delay (now : Z) (w : World) :
  let r := fst (on_update_dequeue now w) in
  let w' := snd (on_update_dequeue now w) in
  let delay := ms_delay_between_retries (config w) in
  (∀ t, let q := queue t (pending_submissions w) in
        let q' := queue t (pending_submissions w') in
        q' = q ∨ q' = sorted last_retry_time q ∨
        ∃ s, sorted last_retry_time q = s :: q' ∧
             (∀ x, x ∈ q → last_retry_time s ≤ last_retry_time x) ∧
             last_retry_time s + delay ≤ now) ∧
  (∀ l, r = Ok l →
        NoDup (map fst l) ∧
        (∀ t s, (t, s) ∈ l →
           sorted last_retry_time (queue t (pending_submissions w)) =
             s :: queue t (pending_submissions w') ∧
           (∀ x, x ∈ queue t (pending_submissions w) →
                 last_retry_time s ≤ last_retry_time x) ∧
           last_retry_time s + delay ≤ now) ∧
        ∀ server,
          on_update now server w =
            gather (map (λ ts : category * PendingSubmission,
                           submit (snd ts) (fst (server (fst ts))) (snd (server (fst ts)))) l) w').
Proof.
  intros r w' delay.
  pose proof (on_update_dequeue_spec now w) as (_ & Hq & Hr).
  fold r w' delay in Hq, Hr.
  split.
  - intros t q q'. destruct (Hq t) as [H | H]; [by left |]. right.
    fold q q' in H. unfold after_tick in H.
    destruct (oldest_ready now delay q) as [s|] eqn:E; [| by left].
    right. exists s. pose proof (oldest_ready_Some _ _ _ _ E) as (E1 & E2 & E3).
    unfold after_tick in E1. rewrite E in E1. by rewrite H.
  - intros l Hl. destruct (Hr l Hl) as [-> Hq']. split; [| split].
    + simpl.
      destruct (oldest_ready now delay (q_precommit _)),
               (oldest_ready now delay (q_benchmark _)),
               (oldest_ready now delay (q_proof _)); simpl;
        by apply (bool_decide_unpack _).
    + intros t s Hts. apply list_elem_of_omap in Hts as (t' & _ & Hts).
      destruct (oldest_ready now delay (queue t' _)) as [s'|] eqn:E; [| done].
      injection Hts as -> ->.
      apply oldest_ready_Some in E as (E1 & E2 & E3). by rewrite Hq'.
    + intros server. unfold on_update, bind. fold r in Hl.
      subst r w'. destruct (on_update_dequeue now w) as [r0 w0]. simpl in *. by subst r0.
Qed.

(** ** Requests in the queues *)

Lemma item_ok_has_id cfg t s :
  t ≠ precommit → item_ok cfg t s → is_Some (benchmark_id (request s)).
Proof.
  intros Ht [Hc _]. destruct (request s); simpl in *; try congruence; by eexists.
Qed.

Lemma queues_ok_has_ids cfg w t :
  t ≠ precommit → queues_ok cfg w → has_ids (queue t (pending_submissions w)).
Proof.
  intros Ht [_ Hw]. eapply Forall_impl; [apply Hw |].
  intros s. by apply item_ok_has_id.
Qed.

Lemma submit_ValueError s outcome now w :
  fst (submit s outcome now w) = Raise ValueError ↔ request s = OtherObject.
Proof.
  split.
  - intros H. destruct (class_of (request s)) as [t|] eqn:Ht.
    + by apply (submit_no_ValueError s t outcome now w) in Ht.
    + by destruct (request s).
  - intros Hr. unfold submit. by rewrite Hr.
Qed.

(** C8: in operation every pending submission of a queue wraps a
    request of the class of that queue, one of the three request
    classes; [submit] raises [ValueError] on a request of another class
    only, hence on nothing that [on_update] takes out of a queue. *)
Theorem queued_requests_have_a_submission_type (w : World) (fl : list PendingSubmission) :
  reachable w fl →
  (∀ t s, s ∈ queue t (pending_submissions w) → class_of (request s) = Some t) ∧
  (∀ s outcome now w',
     fst (submit s outcome now w') = Raise ValueError ↔ request s = OtherObject) ∧
  (∀ now, ∃ l, fst (on_update_dequeue now w) = Ok l ∧
     ∀ t s outcome now' w',
       (t, s) ∈ l → fst (submit s outcome now' w') ≠ Raise ValueError) ∧
  (∀ s outcome now w', s ∈ fl → fst (submit s outcome now w') ≠ Raise ValueError) ∧
  (∀ now server, fst (on_update now server w) ≠ Raise ValueError).
Proof.
  intros Hreach. apply reachable_ok in Hreach as [Hw Hfl].
  assert (∀ now, ∃ l, fst (on_update_dequeue now w) = Ok l ∧
            ∀ t s outcome now' w',
              (t, s) ∈ l → fst (submit s outcome now' w') ≠ Raise ValueError) as Hdeq.
  { intros now.
    destruct (on_update_dequeue_total now w) as [l Hl];
      [by eapply queues_ok_has_ids | by eapply queues_ok_has_ids |].
    exists l. split; [done |].
    destruct (on_update_dequeue_ok _ now w Hw) as [_ Hok].
    specialize (Hok l Hl). rewrite Forall_forall in Hok.
    intros t s outcome now' w' Hts. destruct (Hok _ Hts) as [Hc _].
    by apply (submit_no_ValueError s t). }
  split; [| split; [| split; [| split]]].
  - intros t s Hs. destruct Hw as [_ Hw]. specialize (Hw t).
    rewrite Forall_forall in Hw. by destruct (Hw s Hs).
  - intros. apply submit_ValueError.
  - done.
  - intros s outcome now w' Hs. rewrite Forall_forall in Hfl.
    destruct (Hfl s Hs) as [t [Hc _]]. by apply (submit_no_ValueError s t).
  - intros now server. destruct (Hdeq now) as (l & Hl & Hsub).
    unfold on_update, bind. destruct (on_update_dequeue now w) as [r w1].
    simpl in Hl. subst r. apply gather_no_ValueError.
    apply Forall_fmap, Forall_forall. intros [t s] Hts w2. simpl. by eapply Hsub.
Qed.

(** C10: with a retry budget of [n], one or more, every pending
    submission of every queue has fewer than [n] retries, in every world
    the manager reaches. *)
Theorem queued_retries_below_max (w : World) (fl : list PendingSubmission) (n : Z) :
  reachable w fl →
  max_retries (config w) = Some n →
  1 ≤ n →
  ∀ t s, s ∈ queue t (pending_submissions w) → retries s < n.
Proof.
  intros Hreach Hmax Hn t s Hs.
  apply reachable_ok in Hreach as [[_ Hw] _]. specialize (Hw t).
  rewrite Forall_forall in Hw. destruct (Hw s Hs) as [_ Hr]. by apply Hr.
Qed.

(** ** Retries after a server error *)

Lemma tick_single t s status now w :
  class_of (request s) = Some t →
  pending_submissions w = set_queue t [s] no_queues →
  last_retry_time s + ms_delay_between_retries (config w) ≤ now →
  let w' := snd (on_update now (always status now) w) in
  config w' = config w ∧
  pending_submissions w' =
    set_queue t
      (if (500 <=? status) && (status <=? 599) &&
          match max_retries (config w) with
          | None => true
          | Some n => retries s + 1 <? n
          end
       then [mkPendingSubmission now (retries s + 1) (request s)] else [])
      no_queues.
Proof.
  intros Ht Hq Hnow.
  assert ((now - last_retry_time s <? ms_delay_between_retries (config w)) = false) as Hlt
    by (apply Z.ltb_ge; lia).
  destruct w as [url key bk cfg q d o]. simpl in *. subst q.
  unfold on_update, bind. rewrite on_update_dequeue_eq. simpl take_all. unfold bind.
  destruct (request s) as [r | r | r |] eqn:Hr; simpl in Ht; [| | | done].
  all: simplify_eq; simpl.
  all: repeat (rewrite take_ready_eq; simpl; rewrite ?Hlt, ?Hr; simpl).
  all: unfold always; simpl; erewrite submit_eq by (by rewrite Hr); simpl.
  all: destruct (Z.eqb_spec status 200) as [-> | Hne]; simpl; [done |].
  all: rewrite Hr; by destruct (_ && _).
Qed.

Lemma tick_empty status now w :
  pending_submissions w = no_queues →
  let w' := snd (on_update now (always status now) w) in
  config w' = config w ∧ pending_submissions w' = no_queues.
Proof.
  intros Hq. destruct w as [url key bk cfg q d o]. simpl in *. subst q.
  unfold on_update, bind. rewrite on_update_dequeue_eq. simpl take_all. unfold bind.
  by repeat (rewrite take_ready_eq; simpl).
Qed.

Lemma set_queue_nil t : set_queue t [] no_queues = no_queues.
Proof. by destruct t. Qed.

(** The queues after [k] ticks, for one fresh submission that the
    server always refuses with a 5xx status. *)
Lemma ticks_state t req n status step w :
  class_of req = Some t →
  500 ≤ status ≤ 599 →
  max_retries (config w) = Some n →
  ms_delay_between_retries (config w) ≤ step →
  pending_submissions w = set_queue t [mkPendingSubmission 0 0 req] no_queues →
  ∀ k : nat,
    config (ticks status step k w) = config w ∧
    pending_submissions (ticks status step k w) =
      set_queue t
        (if bool_decide (k = 0%nat ∨ Z.of_nat k < n)
         then [mkPendingSubmission (Z.of_nat k * step) (Z.of_nat k) req] else [])
        no_queues.
Proof.
  intros Ht Hstatus Hmax Hstep Hq k. induction k as [|k [IHc IHq]].
  { split; [done |]. rewrite bool_decide_true by (by left). done. }
  cbn [ticks]. set (now := Z.of_nat (S k) * step).
  destruct (bool_decide (k = 0%nat ∨ Z.of_nat k < n)) eqn:E.
  - destruct (tick_single t (mkPendingSubmission (Z.of_nat k * step) (Z.of_nat k) req)
                status now (ticks status step k w) Ht IHq) as [Hc' Hq'].
    { simpl. rewrite IHc. subst now. lia. }
    split; [congruence |]. rewrite Hq', IHc, Hmax. simpl.
    assert ((500 <=? status) && (status <=? 599) = true) as -> by lia.
    simpl. subst now.
    destruct (Z.ltb_spec (Z.of_nat k + 1) n).
    + rewrite bool_decide_true by lia. do 3 f_equal. lia.
    + rewrite bool_decide_false by lia. done.
  - rewrite set_queue_nil in IHq.
    destruct (tick_empty status now (ticks status step k w) IHq) as [Hc' Hq'].
    split; [congruence |]. rewrite Hq'.
    apply bool_decide_eq_false in E.
    rewrite bool_decide_false by lia. by rewrite set_queue_nil.
Qed.

Lemma reenqueues_count t req n status step w :
  class_of req = Some t →
  500 ≤ status ≤ 599 →
  max_retries (config w) = Some n →
  ms_delay_between_retries (config w) ≤ step →
  pending_submissions w = set_queue t [mkPendingSubmission 0 0 req] no_queues →
  ∀ k : nat,
    Z.of_nat (reenqueues t status step k w) = Z.max 0 (Z.min (Z.of_nat k) (n - 1)).
Proof.
  intros Ht Hstatus Hmax Hstep Hq k. induction k as [|k IH]; [simpl; lia |].
  cbn [reenqueues].
  destruct (ticks_state t req n status step w Ht Hstatus Hmax Hstep Hq (S k)) as [_ ->].
  rewrite queue_set_queue_eq.
  destruct (decide (Z.of_nat (S k) < n)).
  - rewrite (bool_decide_true (_ ∨ _)) by (by right).
    rewrite bool_decide_false by done. lia.
  - rewrite (bool_decide_false (_ ∨ _)) by lia.
    rewrite bool_decide_true by done. lia.
Qed.

(** C3: a submission answered with a 5xx status goes back to the tail
    of its queue, with one more retry and the current time, if and only
    if no maximum is configured or the incremented count stays below it;
    no other answer puts it back.  With a maximum [n] of one or more, a
    submission that always fails with 5xx is put back exactly [n - 1]
    times and is then gone for good; with a maximum of zero or less it
    is never put back. *)
Theorem server_error_retries (s : PendingSubmission) (t : category)
    (status : Z) (text : string) (content_type : option string) (now : Z) (w : World) :
  class_of (request s) = Some t →
  let w' := snd (submit s (Response status text content_type) now w) in
  (retryable (config w) status s →
   pending_submissions w' =
     set_queue t (queue t (pending_submissions w) ++
                  [mkPendingSubmission now (retries s + 1) (request s)])
       (pending_submissions w)) ∧
  (¬ retryable (config w) status s → pending_submissions w' = pending_submissions w) ∧
  (status < 500 ∨ 599 < status → pending_submissions w' = pending_submissions w) ∧
  (∀ (n step : Z) (w0 : World),
     500 ≤ status ≤ 599 →
     max_retries (config w0) = Some n →
     ms_delay_between_retries (config w0) ≤ step →
     pending_submissions w0 = set_queue t [mkPendingSubmission 0 0 (request s)] no_queues →
     (1 ≤ n → ∀ k : nat, n - 1 ≤ Z.of_nat k →
              Z.of_nat (reenqueues t status step k w0) = n - 1) ∧
     (n ≤ 0 → ∀ k : nat, reenqueues t status step k w0 = 0%nat) ∧
     (∀ k : nat, k ≠ 0%nat → n ≤ Z.of_nat k →
                 queue t (pending_submissions (ticks status step k w0)) = [])).
Proof.
  intros Ht w'.
  assert (retryable (config w) status s ↔
          (500 <=? status) && (status <=? 599) &&
          match max_retries (config w) with
          | None => true
          | Some n => retries s + 1 <? n
          end = true) as Hretry.
  { unfold retryable. destruct (max_retries (config w)) as [n|].
    - split.
      + intros (H & [? | (n' & [= <-] & ?)]); [done | lia].
      + intros H. split; [lia |]. right. exists n. split; [done | lia].
    - split; [lia |]. intros H. split; [lia | by left]. }
  assert (pending_submissions w' =
          if (500 <=? status) && (status <=? 599) &&
             match max_retries (config w) with
             | None => true
             | Some n => retries s + 1 <? n
             end
          then set_queue t (queue t (pending_submissions w) ++
                            [mkPendingSubmission now (retries s + 1) (request s)])
                 (pending_submissions w)
          else pending_submissions w) as Hw'.
  { subst w'. rewrite (submit_eq s t) by done. simpl.
    destruct (Z.eqb_spec status 200) as [-> | Hne]; [done |]. simpl.
    by destruct (_ && _). }
  split; [| split; [| split]].
  - intros H. apply Hretry in H. by rewrite Hw', H.
  - intros H. rewrite Hw'. destruct (_ && _) eqn:E; [| done].
    exfalso. by apply H, Hretry.
  - intros H. rewrite Hw'.
    assert ((500 <=? status) && (status <=? 599) = false) as -> by lia. done.
  - intros n step w0 Hstatus Hmax Hstep Hq. split; [| split].
    + intros Hn k Hk.
      rewrite (reenqueues_count t (request s) n status step w0) by done. lia.
    + intros Hn k. apply Nat2Z.inj.
      rewrite (reenqueues_count t (request s) n status step w0) by done. lia.
    + intros k Hk Hnk.
      destruct (ticks_state t (request s) n status step w0 Ht Hstatus Hmax Hstep Hq k) as [_ ->].
      rewrite queue_set_queue_eq. by rewrite bool_decide_false by lia.
Qed.

(** ** Restoration at startup *)

Lemma restore_file_skip t path file w :
  Path.endswith ".json" file = false → restore_file t path file w = (Ok tt, w).
Proof. intros H. unfold restore_file. by rewrite H. Qed.

Lemma restore_file_json t path file w :
  Path.endswith ".json" file = true →
  restore_file t path file w = restore_json t path file w.
Proof. intros H. unfold restore_file. by rewrite H. Qed.

Lemma for_restore_file t path listing w :
  for_ listing (restore_file t path) w =
  for_ (filter (λ file, Path.endswith ".json" file = true) listing) (restore_json t path) w.
Proof.
  revert w. induction listing as [|file listing IH]; intros w; [done |].
  rewrite filter_cons. destruct (Path.endswith ".json" file) eqn:E.
  - rewrite decide_True by done. cbn [for_]. unfold bind.
    rewrite restore_file_json by done.
    destruct (restore_json t path file w) as [[[]|e] w']; [apply IH | done].
  - rewrite decide_False by done. cbn [for_]. unfold bind.
    rewrite restore_file_skip by done. apply IH.
Qed.

Lemma restore_type_directory t w : restore_type t w = restore_directory t w.
Proof.
  unfold restore_type, restore_directory, bind, get.
  destruct (negb (Os.exists_ (disk w) _)).
  - unfold logger, put_out, on_disk. simpl.
    destruct (Os.makedirs _ _) as [fs|e]; [| done].
    unfold from_disk, lift. simpl.
    destruct (Os.listdir _ _) as [listing|e]; [| done].
    apply for_restore_file.
  - unfold ret, from_disk, lift. simpl.
    destruct (Os.listdir _ _) as [listing|e]; [| done].
    apply for_restore_file.
Qed.

Lemma restore_by_directory w :
  _restore_pending_submissions w =
    match restore_directory benchmark w with
    | (Ok _, w1) => restore_directory proof w1
    | (Raise e, w1) => (Raise e, w1)
    end.
Proof.
  unfold _restore_pending_submissions. cbn [for_]. unfold bind.
  rewrite restore_type_directory.
  destruct (restore_directory benchmark w) as [[[]|e] w1]; [| done].
  rewrite restore_type_directory.
  by destruct (restore_directory proof w1) as [[[]|e] w2].
Qed.

(** C9: restoration reads and deserializes the entries whose name ends
    in ".json" and no other: an entry with another name changes
    nothing, not even the log; and the proof directory is only looked
    at once the benchmark directory has been gone through. *)
Theorem restore_reads_json_entries_only :
  (∀ t path file w,
     Path.endswith ".json" file = false → restore_file t path file w = (Ok tt, w)) ∧
  (∀ t w, restore_type t w = restore_directory t w) ∧
  (∀ w, _restore_pending_submissions w =
        match restore_directory benchmark w with
        | (Ok _, w1) => restore_directory proof w1
        | (Raise e, w1) => (Raise e, w1)
        end).
Proof.
  split; [apply restore_file_skip |]. split; [apply restore_type_directory |].
  apply restore_by_directory.
Qed.

(** ** Persistence round trip *)

Lemma restored_Some t fs path file s :
  restored t fs path file = Some s →
  ∃ text r, Os.read fs (Path.join path file) = Ok text ∧ decode t text = Ok r ∧
            s = mkPendingSubmission 0 0 r.
Proof.
  unfold restored. destruct (Os.read _ _) as [text|]; [| done].
  destruct (decode t text) as [r|] eqn:E; [| done].
  intros [= <-]. by exists text, r.
Qed.

Lemma restore_json_eq t path file w s :
  restored t (disk w) path file = Some s →
  restore_json t path file w =
    (Ok tt,
     with_pending (set_queue t (queue t (pending_submissions w) ++ [s]) (pending_submissions w))
       (with_out (out w ++ [Log INFO (Restoring t (Path.join path file))]) w)).
Proof.
  intros H. apply restored_Some in H as (text & r & Hread & Hdec & ->).
  unfold restore_json, bind, logger, put_out, from_disk, lift, append, pending, set_pending.
  simpl. rewrite Hread. unfold decode in Hdec.
  destruct (json_load text) as [d|]; [| done].
  destruct t.
  - destruct (from_dict_proof d); [| done]. by injection Hdec as <-.
  - destruct (from_dict_benchmark d); [| done]. by injection Hdec as <-.
  - destruct (from_dict_proof d); [| done]. by injection Hdec as <-.
Qed.

Lemma for_restore_json_ok t path l w :
  Forall (λ file, is_Some (restored t (disk w) path file)) l →
  ∃ w', for_ l (restore_json t path) w = (Ok tt, w') ∧
        disk w' = disk w ∧ backup_folder w' = backup_folder w ∧
        (∀ t', t' ≠ t → queue t' (pending_submissions w') = queue t' (pending_submissions w)) ∧
        queue t (pending_submissions w') =
          queue t (pending_submissions w) ++ omap (restored t (disk w) path) l.
Proof.
  revert w. induction l as [|file l IH]; intros w Hl.
  { exists w. csimpl. by rewrite app_nil_r. }
  inversion_clear Hl as [|? ? [s Hs] Hl'].
  cbn [for_]. unfold bind. rewrite (restore_json_eq t path file w s Hs).
  match goal with |- context [for_ l _ ?w1] => destruct (IH w1) as (w' & -> & Hd & Hb & Hf & Hq) end.
  { done. }
  exists w'. split; [done |]. simpl in *.
  split; [done |]. split; [done |]. split.
  - intros t' Ht'. rewrite Hf by done. by rewrite queue_set_queue_ne.
  - rewrite Hq, queue_set_queue_eq. csimpl. rewrite Hs. by rewrite <- app_assoc.
Qed.

Lemma restorable_listing fs t path :
  restorable fs t path = true ↔
  ∃ listing, Os.listdir fs path = Ok listing ∧
    Forall (λ file, is_Some (restored t fs path file))
      (filter (λ file, Path.endswith ".json" file = true) listing).
Proof.
  unfold restorable. destruct (Os.listdir fs path) as [listing|e].
  2:{ split; [done | by intros (? & ? & _)]. }
  rewrite forallb_forall. split.
  - intros H. exists listing. split; [done |].
    apply Forall_forall. intros file Hfile.
    apply list_elem_of_filter in Hfile as [Hj Hfile].
    apply list_elem_of_In in Hfile. specialize (H file Hfile). rewrite Hj in H.
    simpl in H. unfold restored. destruct (Os.read _ _) as [text|]; [| done].
    by destruct (decode t text).
  - intros (listing' & [= <-] & H) file Hfile.
    destruct (Path.endswith ".json" file) eqn:Hj; [| done]. simpl.
    rewrite Forall_forall in H. destruct (H file) as [s Hs].
    { apply list_elem_of_filter. split; [done | by apply list_elem_of_In]. }
    unfold restored in Hs. destruct (Os.read _ _) as [text|]; [| done].
    by destruct (decode t text).
Qed.

Lemma restore_directory_ok t w listing :
  Os.listdir (disk w) (Path.join (backup_folder w) (submission_type t)) = Ok listing →
  Forall (λ file, is_Some (restored t (disk w)
                             (Path.join (backup_folder w) (submission_type t)) file))
    (filter (λ file, Path.endswith ".json" file = true) listing) →
  ∃ w', restore_directory t w = (Ok tt, w') ∧
        disk w' = disk w ∧ backup_folder w' = backup_folder w ∧
        (∀ t', t' ≠ t → queue t' (pending_submissions w') = queue t' (pending_submissions w)) ∧
        queue t (pending_submissions w') =
          queue t (pending_submissions w) ++
          omap (restored t (disk w) (Path.join (backup_folder w) (submission_type t)))
            (filter (λ file, Path.endswith ".json" file = true) listing).
Proof.
  intros Hlist Hall. unfold restore_directory, bind, get.
  assert (Os.exists_ (disk w) (Path.join (backup_folder w) (submission_type t)) = true) as ->.
  { unfold Os.listdir in Hlist. unfold Os.exists_.
    destruct (Os.is_dir _ _); [by rewrite orb_true_r |].
    by destruct (Os.is_file _ _). }
  simpl. unfold from_disk, lift. simpl. rewrite Hlist.
  by apply for_restore_json_ok.
Qed.

(** Construction over a disk whose two directories are restorable. *)
Lemma init_ok url key backup cfg fs :
  restorable fs benchmark (Path.join backup "benchmark") = true →
  restorable fs proof (Path.join backup "proof") = true →
  ∃ w lb lp,
    init url key backup cfg fs = Ok w ∧
    Os.listdir fs (Path.join backup "benchmark") = Ok lb ∧
    Os.listdir fs (Path.join backup "proof") = Ok lp ∧
    queue precommit (pending_submissions w) = [] ∧
    queue benchmark (pending_submissions w) =
      omap (restored benchmark fs (Path.join backup "benchmark"))
        (filter (λ file, Path.endswith ".json" file = true) lb) ∧
    queue proof (pending_submissions w) =
      omap (restored proof fs (Path.join backup "proof"))
        (filter (λ file, Path.endswith ".json" file = true) lp).
Proof.
  intros Hb Hp.
  apply restorable_listing in Hb as (lb & Hlb & Hb).
  apply restorable_listing in Hp as (lp & Hlp & Hp).
  pose (w0 := new_extension url key backup cfg fs).
  destruct (restore_directory_ok benchmark w0 lb Hlb Hb) as (w1 & Hr1 & Hd1 & Hb1 & Hf1 & Hq1).
  destruct (restore_directory_ok proof w1 lp) as (w2 & Hr2 & Hd2 & Hb2 & Hf2 & Hq2).
  { by rewrite Hd1, Hb1. }
  { by rewrite Hd1, Hb1. }
  exists w2, lb, lp. unfold init. fold w0.
  rewrite restore_by_directory, Hr1, Hr2.
  split; [done |]. split; [done |]. split; [done |].
  rewrite !Hf2, Hq2, !Hf1, Hq1 by done. rewrite Hd1, Hb1.
  rewrite (Hf1 proof) by done. done.
Qed.


Lemma listdir_elem (fs : FS Text) p l f :
  p ≠ "" → Path.endswith "/" p = false → Os.listdir fs p = Ok l →
  f ∈ l ↔ Path.is_name f = true ∧
          (is_Some (files fs !! Path.join p f) ∨ Path.join p f ∈ dirs fs).
Proof.
  intros Hp Hs. unfold Os.listdir.
  destruct (Os.is_dir fs p); [| by destruct (Os.is_file fs p)].
  intros [= <-]. rewrite list_elem_of_omap. split.
  - intros (k & Hk & Hc). apply child_name_Some in Hc as [Hn ->]; [| done..].
    split; [done |]. apply elem_of_elements, elem_of_union in Hk as [Hk | Hk].
    + left. by apply elem_of_dom.
    + by right.
  - intros [Hn Hk]. exists (Path.join p f). split; [| by apply child_name_join].
    apply elem_of_elements, elem_of_union. destruct Hk as [Hk | Hk].
    + left. by apply elem_of_dom.
    + by right.
Qed.

Lemma restorable_entries (fs : FS Text) t p :
  p ≠ "" → Path.endswith "/" p = false →
  restorable fs t p = true ↔
  Os.is_dir fs p = true ∧
  ∀ f, Path.is_name f = true →
       is_Some (files fs !! Path.join p f) ∨ Path.join p f ∈ dirs fs →
       Path.endswith ".json" f = true →
       is_Some (restored t fs p f).
Proof.
  intros Hp Hs. rewrite restorable_listing. split.
  - intros (l & Hl & Hall). split.
    + unfold Os.listdir in Hl. destruct (Os.is_dir fs p); [done |].
      by destruct (Os.is_file fs p).
    + intros f Hn Hf Hj. rewrite Forall_forall in Hall. apply Hall.
      apply list_elem_of_filter. split; [done |].
      by apply (listdir_elem fs p l f Hp Hs Hl).
  - intros [Hd Hall]. unfold Os.listdir. rewrite Hd. eexists. split; [done |].
    apply Forall_forall. intros f Hf. apply list_elem_of_filter in Hf as [Hj Hf].
    apply (listdir_elem fs p _ f Hp Hs) in Hf as [Hn Hf].
    + by apply Hall.
    + unfold Os.listdir. by rewrite Hd.
Qed.

Lemma backup_file_name id :
  Path.has_slash id = false →
  Path.is_name (id +:+ ".json") = true ∧ Path.has_slash (id +:+ ".json") = false.
Proof.
  intros Hid.
  assert (Path.has_slash (id +:+ ".json") = false) as Hs.
  { rewrite has_slash_app, Hid. done. }
  split; [| done]. unfold Path.is_name. rewrite Hs.
  destruct (String.eqb_spec (id +:+ ".json") ""); [| done].
  by destruct id.
Qed.

Lemma category_dir_inj backup t t' :
  Path.join backup (submission_type t) = Path.join backup (submission_type t') → t = t'.
Proof.
  unfold Path.join.
  assert (Path.startswith "/" (submission_type t) = false) as -> by by destruct t.
  assert (Path.startswith "/" (submission_type t') = false) as -> by by destruct t'.
  destruct (_ || _); intros H; apply (inj (String.append backup)) in H.
  - by destruct t, t'.
  - by destruct t, t'.
Qed.

Lemma join_name_inj p p' f f' :
  p ≠ "" → Path.endswith "/" p = false →
  p' ≠ "" → Path.endswith "/" p' = false →
  Path.has_slash f = false → Path.has_slash f' = false →
  Path.join p f = Path.join p' f' → p = p' ∧ f = f'.
Proof.
  intros Hp Hs Hp' Hs' Hf Hf' H.
  rewrite !join_name in H by done.
  assert (p = p') as <-.
  { rewrite <- (dirname_name p f), <- (dirname_name p' f') by done. by rewrite H. }
  split; [done |]. apply (inj (String.append p)) in H. by injection H.
Qed.

Lemma is_name_no_slash f : Path.is_name f = true → Path.has_slash f = false.
Proof.
  unfold Path.is_name. intros H. apply andb_true_iff in H as [_ H].
  by apply negb_true_iff.
Qed.

(** Writing the backup file of a request keeps the directories
    restorable and makes the request one of what is restored. *)
Lemma write_backup_ok (fs : FS Text) backup t0 id text r :
  t0 ≠ precommit →
  Path.has_slash id = false →
  restorable fs benchmark (Path.join backup "benchmark") = true →
  restorable fs proof (Path.join backup "proof") = true →
  decode t0 text = Ok r →
  let p0 := Path.join backup (submission_type t0) in
  let path0 := Path.join p0 (id +:+ ".json") in
  Os.write fs path0 text = Ok (mkFS (<[path0 := text]> (files fs)) (dirs fs)) ∧
  restorable (mkFS (<[path0 := text]> (files fs)) (dirs fs)) benchmark
    (Path.join backup "benchmark") = true ∧
  restorable (mkFS (<[path0 := text]> (files fs)) (dirs fs)) proof
    (Path.join backup "proof") = true ∧
  restored t0 (mkFS (<[path0 := text]> (files fs)) (dirs fs)) p0 (id +:+ ".json") =
    Some (mkPendingSubmission 0 0 r) ∧
  Path.is_name (id +:+ ".json") = true.
Proof.
  intros Ht0 Hid Hb Hp Hdec p0 path0.
  destruct (backup_file_name id Hid) as [Hname Hnoslash].
  destruct (category_dir_spelling backup t0) as [Hp0 Hs0]. fold p0 in Hp0, Hs0.
  assert (∀ t, t ≠ precommit →
               restorable fs t (Path.join backup (submission_type t)) = true) as Hres.
  { intros [] Ht; done. }
  assert (∀ t, t ≠ precommit →
               Os.is_dir fs (Path.join backup (submission_type t)) = true ∧
               ∀ f, Path.is_name f = true →
                    is_Some (files fs !! Path.join (Path.join backup (submission_type t)) f) ∨
                    Path.join (Path.join backup (submission_type t)) f ∈ dirs fs →
                    Path.endswith ".json" f = true →
                    is_Some (restored t fs (Path.join backup (submission_type t)) f)) as Hent.
  { intros t Ht. destruct (category_dir_spelling backup t) as [? ?].
    apply restorable_entries; [done | done |]. by apply Hres. }
  assert (Os.is_dir fs path0 = false) as Hnd.
  { destruct (Os.is_dir fs path0) eqn:E; [| done].
    destruct (Hent t0 Ht0) as [_ H]. destruct (H (id +:+ ".json")) as [s Hs].
    - done.
    - right. fold p0 path0. unfold Os.is_dir in E. by apply bool_decide_eq_true in E.
    - apply endswith_app.
    - apply restored_Some in Hs as (text' & _ & Hread & _).
      fold p0 path0 in Hread. unfold Os.read in Hread. by rewrite E in Hread. }
  set (fs' := mkFS (<[path0 := text]> (files fs)) (dirs fs)).
  assert (Os.read fs' path0 = Ok text) as Hread0.
  { unfold Os.read. unfold Os.is_dir in *. simpl. rewrite Hnd. by rewrite lookup_insert_eq. }
  assert (∀ t, t ≠ precommit →
               restorable fs' t (Path.join backup (submission_type t)) = true) as Hres'.
  { intros t Ht. destruct (category_dir_spelling backup t) as [Hpt Hst].
    destruct (Hent t Ht) as [Hd Hall].
    apply restorable_entries; [done | done |]. split; [done |].
    intros f Hn Hf Hj.
    destruct (decide (Path.join (Path.join backup (submission_type t)) f = path0)) as [E | E].
    - apply join_name_inj in E as [E1 E2]; [| done | done | done | done | | done].
      2:{ by apply is_name_no_slash. }
      apply category_dir_inj in E1. subst t f.
      unfold restored. fold p0 path0. rewrite Hread0, Hdec. by eexists.
    - destruct (Hall f Hn) as [s Hs]; [| done |].
      + simpl in Hf. by rewrite lookup_insert_ne in Hf.
      + exists s. unfold restored in *. unfold Os.read in *. unfold Os.is_dir in *. simpl.
        by rewrite lookup_insert_ne. }
  split; [| split; [| split; [| split]]].
  - assert (Path.dirname path0 = p0) as Hdir.
    { unfold path0. rewrite join_name by done. by rewrite dirname_name. }
    destruct (Hent t0 Ht0) as [Hd0 _]. fold p0 in Hd0.
    unfold Os.write. by rewrite Hnd, Hdir, Hd0, orb_true_r.
  - by apply (Hres' benchmark).
  - by apply (Hres' proof).
  - unfold restored. fold path0. by rewrite Hread0, Hdec.
  - done.
Qed.

Lemma init_restores url key backup cfg (fs : FS Text) t file s :
  t ≠ precommit →
  restorable fs benchmark (Path.join backup "benchmark") = true →
  restorable fs proof (Path.join backup "proof") = true →
  Path.is_name file = true →
  Path.endswith ".json" file = true →
  is_Some (files fs !! Path.join (Path.join backup (submission_type t)) file) →
  restored t fs (Path.join backup (submission_type t)) file = Some s →
  ∃ w0, init url key backup cfg fs = Ok w0 ∧
        s ∈ queue t (pending_submissions w0) ∧
        ∀ t' s', s' ∈ queue t' (pending_submissions w0) →
                 retries s' = 0 ∧ last_retry_time s' = 0.
Proof.
  intros Ht Hb Hp Hname Hjson Hfile Hs.
  destruct (init_ok url key backup cfg fs Hb Hp) as (w0 & lb & lp & Hinit & Hlb & Hlp & Hq0 & Hq1 & Hq2).
  exists w0. split; [done |]. split.
  - assert (∀ l, Os.listdir fs (Path.join backup (submission_type t)) = Ok l →
                 s ∈ omap (restored t fs (Path.join backup (submission_type t)))
                       (filter (λ file, Path.endswith ".json" file = true) l)) as Hin.
    { intros l Hl. apply list_elem_of_omap. exists file. split; [| done].
      apply list_elem_of_filter. split; [done |].
      destruct (category_dir_spelling backup t) as [? ?].
      apply (listdir_elem fs (Path.join backup (submission_type t)) l file);
        [done | done | done |]. split; [done | by left]. }
    destruct t; [done | |].
    + rewrite Hq1. by apply Hin.
    + rewrite Hq2. by apply Hin.
  - intros t' s' Hs'. destruct t'; simpl in *.
    + rewrite Hq0 in Hs'. by apply elem_of_nil in Hs'.
    + rewrite Hq1 in Hs'. apply list_elem_of_omap in Hs' as (f & _ & Hf).
      by apply restored_Some in Hf as (? & ? & _ & _ & ->).
    + rewrite Hq2 in Hs'. apply list_elem_of_omap in Hs' as (f & _ & Hf).
      by apply restored_Some in Hf as (? & ? & _ & _ & ->).
Qed.

(** C6: a benchmark or proof request accepted into its queue and
    written to its backup file comes back, when the manager is
    constructed again over that disk, as a pending submission with the
    same request and with [retries] and [last_retry_time] zero.  The id
    is a file name (it has no separator), the request reads back from
    its own serialization, and the other backup files are readable. *)
Theorem persisted_submission_is_restored (w : World) (id : string) :
  Path.has_slash id = false →
  restorable (disk w) benchmark (Path.join (backup_folder w) "benchmark") = true →
  restorable (disk w) proof (Path.join (backup_folder w) "proof") = true →
  (∀ root nonces,
     let r := ReqBenchmark (mkSubmitBenchmarkRequest id root nonces) in
     has_ids (queue benchmark (pending_submissions w)) →
     id ∉ ids (queue benchmark (pending_submissions w)) →
     decode benchmark (json_dump (to_dict r)) = Ok r →
     ∃ w', on_benchmark_ready id root nonces w = (Ok tt, w') ∧
           queue benchmark (pending_submissions w') =
             queue benchmark (pending_submissions w) ++ [mkPendingSubmission 0 0 r] ∧
           files (disk w') !! Path.join3 (backup_folder w) "benchmark" (id +:+ ".json") =
             Some (json_dump (to_dict r)) ∧
           ∀ url key cfg,
             ∃ w0, init url key (backup_folder w) cfg (disk w') = Ok w0 ∧
                   mkPendingSubmission 0 0 r ∈ queue benchmark (pending_submissions w0) ∧
                   ∀ t s, s ∈ queue t (pending_submissions w0) →
                          retries s = 0 ∧ last_retry_time s = 0) ∧
  (∀ proofs,
     let r := ReqProof (mkSubmitProofRequest id proofs) in
     has_ids (queue proof (pending_submissions w)) →
     id ∉ ids (queue proof (pending_submissions w)) →
     decode proof (json_dump (to_dict r)) = Ok r →
     ∃ w', on_proof_ready id proofs w = (Ok tt, w') ∧
           queue proof (pending_submissions w') =
             queue proof (pending_submissions w) ++ [mkPendingSubmission 0 0 r] ∧
           files (disk w') !! Path.join3 (backup_folder w) "proof" (id +:+ ".json") =
             Some (json_dump (to_dict r)) ∧
           ∀ url key cfg,
             ∃ w0, init url key (backup_folder w) cfg (disk w') = Ok w0 ∧
                   mkPendingSubmission 0 0 r ∈ queue proof (pending_submissions w0) ∧
                   ∀ t s, s ∈ queue t (pending_submissions w0) →
                          retries s = 0 ∧ last_retry_time s = 0).
Proof.
  intros Hid Hb Hp. split.
  - intros root nonces r Hids Hnew Hdec.
    destruct (write_backup_ok (disk w) (backup_folder w) benchmark id _ r
                ltac:(done) Hid Hb Hp Hdec) as (Hwrite & Hb' & Hp' & Hrest & Hname).
    simpl submission_type in *.
    pose proof (any_benchmark_id_result id (queue benchmark (pending_submissions w)) w)
      as (Hs & _ & Hf).
    specialize (Hf Hids). rewrite bool_decide_false in Hf by done.
    eexists. split; [| split; [| split]].
    + unfold on_benchmark_ready, bind, pending. simpl in *.
      destruct (any_benchmark_id id _ w) as [res w1]. simpl in *. subst res w1.
      unfold on_disk, Path.join3. simpl. fold r. by rewrite Hwrite.
    + simpl. done.
    + simpl. unfold Path.join3. by rewrite lookup_insert_eq.
    + intros url key cfg. simpl.
      apply (init_restores url key (backup_folder w) cfg _ benchmark (id +:+ ".json"));
        try done.
      * apply endswith_app.
      * simpl. by rewrite lookup_insert_eq.
  - intros proofs r Hids Hnew Hdec.
    destruct (write_backup_ok (disk w) (backup_folder w) proof id _ r
                ltac:(done) Hid Hb Hp Hdec) as (Hwrite & Hb' & Hp' & Hrest & Hname).
    simpl submission_type in *.
    pose proof (any_benchmark_id_result id (queue proof (pending_submissions w)) w)
      as (Hs & _ & Hf).
    specialize (Hf Hids). rewrite bool_decide_false in Hf by done.
    eexists. split; [| split; [| split]].
    + unfold on_proof_ready, bind, pending. simpl in *.
      destruct (any_benchmark_id id _ w) as [res w1]. simpl in *. subst res w1.
      unfold on_disk, Path.join3. simpl. fold r. by rewrite Hwrite.
    + simpl. done.
    + simpl. unfold Path.join3. by rewrite lookup_insert_eq.
    + intros url key cfg. simpl.
      apply (init_restores url key (backup_folder w) cfg _ proof (id +:+ ".json"));
        try done.
      * apply endswith_app.
      * simpl. by rewrite lookup_insert_eq.
Qed.

(** ** Which submission a tick takes *)

Lemma insert_sorted_head {A} (key : A → Z) (x : A) (l : list A) :
  Forall (λ y, key x ≤ key y) l → insert_sorted key x l = x :: l.
Proof.
  destruct l as [|y l]; simpl; [done |]. intros H. inversion_clear H.
  by destruct (Z.leb_spec (key x) (key y)); [| lia].
Qed.

Lemma sorted_first_least {A} (key : A → Z) (l1 l2 : list A) (s : A) :
  Forall (λ x, key s < key x) l1 → Forall (λ x, key s ≤ key x) l2 →
  sorted key (l1 ++ s :: l2) = s :: sorted key (l1 ++ l2).
Proof.
  intros H1 H2. induction l1 as [|x l1 IH]; simpl.
  - apply insert_sorted_head. by rewrite sorted_Permutation.
  - inversion_clear H1 as [|? ? Hx H1']. rewrite IH by done. simpl.
    by destruct (Z.leb_spec (key x) (key s)); [lia |].
Qed.

(** The head of [sorted l] is the first element of [l] among those of
    the least key. *)
Lemma sorted_head_position {A} (key : A → Z) (l : list A) (s : A) (rest : list A) :
  sorted key l = s :: rest →
  ∃ l1 l2, l = l1 ++ s :: l2 ∧
           Forall (λ x, key s < key x) l1 ∧ Forall (λ x, key s ≤ key x) l2 ∧
           rest = sorted key (l1 ++ l2).
Proof.
  revert s rest. induction l as [|x l IH]; intros s rest; simpl; [done |].
  destruct (sorted key l) as [|h r] eqn:E; simpl.
  - intros [= <- <-]. exists [], [].
    pose proof (sorted_length key l) as Hlen. rewrite E in Hlen.
    destruct l; [| done]. by repeat split.
  - destruct (IH h r eq_refl) as (a & b & -> & Ha & Hb & ->).
    destruct (Z.leb_spec (key x) (key h)).
    + intros [= <- <-]. exists [], (a ++ h :: b). split; [done |]. split; [done |].
      split; [| symmetry; exact E].
      apply Forall_app. split.
      * eapply Forall_impl; [exact Ha |]. simpl. intros; lia.
      * constructor; [done |]. eapply Forall_impl; [exact Hb |]. simpl. intros; lia.
    + intros [= <- <-]. exists (x :: a), b. split; [done |].
      split; [by constructor |]. split; done.
Qed.

Lemma sorted_ascending_id {A} (key : A → Z) (l : list A) :
  ascending key l → sorted key l = l.
Proof.
  unfold ascending. induction 1 as [|x l Hl IH Hx]; simpl; [done |].
  rewrite IH. by apply insert_sorted_head.
Qed.

Lemma dequeued_oldest_ready now w l t s :
  fst (on_update_dequeue now w) = Ok l → (t, s) ∈ l →
  oldest_ready now (ms_delay_between_retries (config w)) (queue t (pending_submissions w)) = Some s.
Proof.
  intros Hl Hts.
  pose proof (on_update_dequeue_spec now w) as (_ & _ & Hr).
  destruct (Hr l Hl) as [-> _].
  apply list_elem_of_omap in Hts as (t' & _ & Hts).
  destruct (oldest_ready _ _ (queue t' _)) as [s'|] eqn:E; [| done].
  by injection Hts as -> ->.
Qed.

(** X6: the submission a tick takes out of a queue is the first of
    the queue among those with the least [last_retry_time]: everything
    before it in the queue is strictly younger, nothing after it is
    older, and the others stay, sorted.  A queue that is already in
    ascending order, such as one of submissions never retried, is
    served first come, first out. *)
Theorem update_takes_first_of_the_oldest (now : Z) (w : World)
    (l : list (category * PendingSubmission)) (t : category) (s : PendingSubmission) :
  fst (on_update_dequeue now w) = Ok l →
  (t, s) ∈ l →
  let q := queue t (pending_submissions w) in
  let q' := queue t (pending_submissions (snd (on_update_dequeue now w))) in
  (∃ l1 l2, q = l1 ++ s :: l2 ∧
            Forall (λ x, last_retry_time s < last_retry_time x) l1 ∧
            Forall (λ x, last_retry_time s ≤ last_retry_time x) l2 ∧
            q' = sorted last_retry_time (l1 ++ l2)) ∧
  (ascending last_retry_time q → q = s :: q').
Proof.
  intros Hl Hts q q'.
  pose proof (dequeued_oldest_ready now w l t s Hl Hts) as Hs.
  pose proof (on_update_dequeue_spec now w) as (_ & _ & Hr).
  destruct (Hr l Hl) as [_ Hq]. specialize (Hq t). fold q q' in Hq.
  apply oldest_ready_Some in Hs as (Hsorted & _ & _). fold q in Hsorted.
  rewrite <- Hq in Hsorted. split.
  - by apply sorted_head_position.
  - intros Hasc. by rewrite <- (sorted_ascending_id last_retry_time q).
Qed.

Lemma oldest_ready_due now delay l :
  is_Some (oldest_ready now delay l) ↔ Exists (λ x, last_retry_time x + delay ≤ now) l.
Proof.
  split.
  - intros [s Hs]. apply Exists_exists. exists s. split.
    + by eapply oldest_ready_elem.
    + by apply oldest_ready_Some in Hs as (_ & _ & ?).
  - intros H. apply Exists_exists in H as (x & Hx & Hdue).
    unfold oldest_ready.
    destruct (sorted last_retry_time l) as [|head rest] eqn:E.
    + pose proof (sorted_length last_retry_time l) as Hlen. rewrite E in Hlen.
      destruct l; [by apply elem_of_nil in Hx | done].
    + pose proof (sorted_head_least last_retry_time l head rest E x Hx).
      destruct (Z.ltb_spec (now - last_retry_time head) delay); [lia | by eexists].
Qed.

(** X7: a tick takes a submission out of a queue exactly when some
    submission of the queue is due, and then the queue gets shorter by
    one; when none is due it takes nothing and only sorts the queue.  So
    a due submission is never held back because another one is first. *)
Theorem update_takes_one_when_some_is_due (now : Z) (w : World)
    (l : list (category * PendingSubmission)) (t : category) :
  fst (on_update_dequeue now w) = Ok l →
  let delay := ms_delay_between_retries (config w) in
  let q := queue t (pending_submissions w) in
  let q' := queue t (pending_submissions (snd (on_update_dequeue now w))) in
  (Exists (λ x, last_retry_time x + delay ≤ now) q →
   (∃ s, (t, s) ∈ l) ∧ length q = S (length q')) ∧
  (Forall (λ x, now < last_retry_time x + delay) q →
   (∀ s, (t, s) ∉ l) ∧ q' = sorted last_retry_time q).
Proof.
  intros Hl delay q q'.
  pose proof (on_update_dequeue_spec now w) as (_ & _ & Hr).
  destruct (Hr l Hl) as [El Hq]. specialize (Hq t). fold q q' delay in Hq.
  split.
  - intros Hdue. apply oldest_ready_due in Hdue as [s Hs]. split.
    + exists s. rewrite El. apply list_elem_of_omap. exists t. split.
      * destruct t; repeat constructor.
      * fold delay q. by rewrite Hs.
    + apply oldest_ready_Some in Hs as (Hsorted & _ & _).
      rewrite <- Hq in Hsorted.
      by rewrite <- (sorted_length last_retry_time q), Hsorted.
  - intros Hnone.
    assert (oldest_ready now delay q = None) as Hnot.
    { destruct (oldest_ready now delay q) as [s|] eqn:E; [| done].
      assert (Exists (λ x, last_retry_time x + delay ≤ now) q) as Hex
        by (apply oldest_ready_due; by eexists).
      apply Exists_exists in Hex as (x & Hx & Hdue).
      rewrite Forall_forall in Hnone. specialize (Hnone x Hx). lia. }
    split.
    + intros s Hts. apply (dequeued_oldest_ready now w l t s Hl) in Hts.
      fold delay q in Hts. congruence.
    + rewrite Hq. unfold after_tick. by rewrite Hnot.
Qed.

(** ** What the tick and the attempts leave alone *)

Lemma take_ready_disk now t w : disk (snd (take_ready now t w)) = disk w.
Proof.
  rewrite take_ready_eq.
  destruct (sorted last_retry_time _) as [|head rest]; [done |].
  destruct (_ <? _); [done |].
  destruct t; [done | |]; by destruct (benchmark_id (request head)).
Qed.

Lemma take_all_disk now ts acc w : disk (snd (take_all now ts acc w)) = disk w.
Proof.
  revert acc w. induction ts as [|t ts IH]; intros acc w; simpl; [done |].
  unfold bind. pose proof (take_ready_disk now t w) as H.
  destruct (take_ready now t w) as [[o|e] w1]; simpl in *; [| done].
  by rewrite IH.
Qed.

Lemma on_update_dequeue_disk now w : disk (snd (on_update_dequeue now w)) = disk w.
Proof. rewrite on_update_dequeue_eq. by rewrite take_all_disk. Qed.

Lemma submit_disk s outcome now w : disk (snd (submit s outcome now w)) = disk w.
Proof.
  destruct (class_of (request s)) as [t|] eqn:Ht.
  - rewrite (submit_eq s t) by done. simpl.
    destruct outcome as [status text ct|]; [| done].
    by destruct (status =? 200).
  - unfold submit. by rewrite Ht.
Qed.

Lemma gather_frame {A} (f : World → A) (cs : list (M unit)) w :
  Forall (λ c, ∀ w, f (snd (c w)) = f w) cs → f (snd (gather cs w)) = f w.
Proof.
  revert w. induction cs as [|c cs IH]; intros w Hcs; simpl; [done |].
  inversion_clear Hcs as [|? ? Hc Hcs'].
  specialize (Hc w). destruct (c w) as [[[]|e] w']; simpl in *.
  - by rewrite IH.
  - by rewrite IH.
Qed.

(** X5: neither a tick with its attempts, nor a single attempt, nor
    [precommit_ready] changes the disk, whatever the server answers: a
    submission that the server accepted keeps its backup file. *)
Theorem attempts_leave_the_disk :
  (∀ now server w, disk (snd (on_update now server w)) = disk w) ∧
  (∀ s outcome now w, disk (snd (submit s outcome now w)) = disk w) ∧
  (∀ settings num_nonces w, disk (snd (on_precommit_ready settings num_nonces w)) = disk w).
Proof.
  split; [| split].
  - intros now server w. unfold on_update, bind.
    pose proof (on_update_dequeue_disk now w) as Hd.
    destruct (on_update_dequeue now w) as [[l|e] w1]; simpl in *; [| done].
    rewrite <- Hd. apply (gather_frame disk).
    apply Forall_fmap, Forall_forall. intros [t s] _ w2. apply submit_disk.
  - apply submit_disk.
  - done.
Qed.

(** ** A server that cannot be reached *)

Lemma submit_unreached s now w :
  let w' := snd (submit s ConnectionFailed now w) in
  (∃ e, fst (submit s ConnectionFailed now w) = Raise e) ∧
  pending_submissions w' = pending_submissions w ∧
  emitted (out w') = emitted (out w).
Proof.
  destruct (class_of (request s)) as [t|] eqn:Ht.
  - rewrite (submit_eq s t) by done. simpl. split; [by eexists |]. split; [done |].
    unfold emitted. rewrite !omap_app. simpl. by rewrite !app_nil_r.
  - unfold submit. rewrite Ht. simpl. split; [by eexists | done].
Qed.

Lemma gather_raises (cs : list (M unit)) w :
  cs ≠ [] → Forall (λ c, ∀ w, ∃ e, fst (c w) = Raise e) cs →
  ∃ e, fst (gather cs w) = Raise e.
Proof.
  destruct cs as [|c cs]; [done |]. intros _ Hcs. inversion_clear Hcs as [|? ? Hc _].
  simpl. destruct (Hc w) as [e He]. destruct (c w) as [[[]|e'] w']; simpl in *; [done |].
  by eexists.
Qed.

Lemma emitted_log o l m : emitted (o ++ [Log l m]) = emitted o.
Proof. unfold emitted. rewrite omap_app. simpl. by rewrite app_nil_r. Qed.

Lemma take_ready_emitted now t w : emitted (out (snd (take_ready now t w))) = emitted (out w).
Proof.
  rewrite take_ready_eq.
  destruct (sorted last_retry_time _) as [|head rest]; [done |].
  destruct (_ <? _); simpl; [apply emitted_log |].
  destruct t; simpl; try destruct (benchmark_id (request head)); simpl;
    try done; apply emitted_log.
Qed.

Lemma take_all_emitted now ts acc w :
  emitted (out (snd (take_all now ts acc w))) = emitted (out w).
Proof.
  revert acc w. induction ts as [|t ts IH]; intros acc w; simpl; [done |].
  unfold bind. pose proof (take_ready_emitted now t w) as H.
  destruct (take_ready now t w) as [[o|e] w1]; simpl in *; [| done].
  by rewrite IH.
Qed.

Lemma on_update_dequeue_emitted now w :
  emitted (out (snd (on_update_dequeue now w))) = emitted (out w).
Proof. rewrite on_update_dequeue_eq, take_all_emitted. simpl. apply emitted_log. Qed.

(** X9: [submit] handles no exception.  When the server cannot be
    reached, the tick raises, every submission it took out stays out of
    its queue, whatever its retry budget, and no event is emitted. *)
Theorem unreachable_server_drops_submissions (now : Z)
    (server : category → http_outcome * Z) (w : World)
    (l : list (category * PendingSubmission)) :
  fst (on_update_dequeue now w) = Ok l →
  (∀ t, fst (server t) = ConnectionFailed) →
  let w' := snd (on_update now server w) in
  (l ≠ [] → ∃ e, fst (on_update now server w) = Raise e) ∧
  (∀ t s, (t, s) ∈ l →
          sorted last_retry_time (queue t (pending_submissions w)) =
            s :: queue t (pending_submissions w')) ∧
  (∀ t, (∀ s, (t, s) ∉ l) →
        queue t (pending_submissions w') =
          sorted last_retry_time (queue t (pending_submissions w))) ∧
  emitted (out w') = emitted (out w).
Proof.
  intros Hl Hserver w'.
  pose proof (on_update_dequeue_spec now w) as (_ & _ & Hr).
  destruct (Hr l Hl) as [_ Hq].
  pose proof (on_update_dequeue_emitted now w) as Hout.
  pose proof (λ t s, dequeued_oldest_ready now w l t s Hl) as Hs.
  assert (∀ t, oldest_ready now (ms_delay_between_retries (config w))
                 (queue t (pending_submissions w)) = None ∨ ∃ s, (t, s) ∈ l) as Hcases.
  { intros t. destruct (Hr l Hl) as [El _].
    destruct (oldest_ready _ _ _) as [s|] eqn:E; [| by left].
    right. exists s. rewrite El. apply list_elem_of_omap. exists t. split.
    - destruct t; repeat constructor.
    - by rewrite E. }
  set (cs := map (λ ts : category * PendingSubmission,
                    submit (snd ts) (fst (server (fst ts))) (snd (server (fst ts)))) l).
  assert (Forall (λ c : M unit,
            (∀ w, ∃ e, fst (c w) = Raise e) ∧
            (∀ w, pending_submissions (snd (c w)) = pending_submissions w) ∧
            (∀ w, emitted (out (snd (c w))) = emitted (out w))) cs) as Hcs.
  { apply Forall_fmap, Forall_forall. intros [t s] _. simpl. rewrite Hserver.
    split; [| split]; intros w2; by destruct (submit_unreached s (snd (server t)) w2) as (? & ? & ?). }
  assert (on_update now server w = gather cs (snd (on_update_dequeue now w))) as Hup.
  { unfold on_update, bind. destruct (on_update_dequeue now w) as [r w1].
    simpl in Hl. by subst r. }
  assert (pending_submissions w' = pending_submissions (snd (on_update_dequeue now w))) as Hp.
  { subst w'. rewrite Hup. apply (gather_frame pending_submissions).
    eapply Forall_impl; [exact Hcs |]. simpl. by intros c (_ & ? & _). }
  split; [| split; [| split]].
  - intros Hne. rewrite Hup. apply gather_raises.
    + subst cs. by destruct l.
    + eapply Forall_impl; [exact Hcs |]. simpl. by intros c (? & _).
  - intros t s Hts. rewrite Hp, Hq.
    by apply Hs, oldest_ready_Some in Hts as (? & _).
  - intros t Ht. rewrite Hp, Hq. unfold after_tick.
    destruct (Hcases t) as [-> | [s Hts]]; [done |]. by apply Ht in Hts.
  - subst w'. rewrite Hup, <- Hout. apply (gather_frame (λ w, emitted (out w))).
    eapply Forall_impl; [exact Hcs |]. simpl. by intros c (_ & _ & ?).
Qed.

(** ** What a new block can change *)

Lemma remove_Ok (fs fs' : FS Text) p :
  Os.remove fs p = Ok fs' → fs' = mkFS (delete p (files fs)) (dirs fs).
Proof.
  unfold Os.remove. destruct (Os.is_dir fs p); [done |].
  destruct (Os.is_file fs p); [| done]. by intros [= <-].
Qed.

Lemma is_retired_state t precommits kwargs id w :
  snd (is_retired t precommits kwargs id w) = w.
Proof.
  unfold is_retired. destruct (bool_decide _); [done |].
  unfold bind, lookup_kwarg. by destruct (kwargs !! _).
Qed.

Lemma ids_cons s l id :
  benchmark_id (request s) = Some id → ids (s :: l) = id :: ids l.
Proof. intros H. unfold ids. csimpl. by rewrite H. Qed.

#[local] Arguments ids : simpl never.

(** The loop of [on_new_block] over one queue: it leaves the queues and
    the directories alone, and of the files it can only remove those
    named after the ids of the queue, directly under the backup
    folder. *)
Lemma filter_submissions_shrinks t precommits kwargs l acc w :
  let r := fst (filter_submissions t precommits kwargs l acc w) in
  let w' := snd (filter_submissions t precommits kwargs l acc w) in
  pending_submissions w' = pending_submissions w ∧
  config w' = config w ∧
  backup_folder w' = backup_folder w ∧
  files (disk w') ⊆ files (disk w) ∧
  dirs (disk w') = dirs (disk w) ∧
  (∀ p, (∀ id, id ∈ ids l → p ≠ Path.join (backup_folder w) (id +:+ ".json")) →
        files (disk w') !! p = files (disk w) !! p) ∧
  (∀ r0, r = Ok r0 → ∃ l', r0 = acc ++ l' ∧ l' `sublist_of` l).
Proof.
  revert acc w. induction l as [|s l IH]; intros acc w.
  { simpl. repeat split; try done. intros r0 [= <-]. exists []. by rewrite app_nil_r. }
  destruct (filter_submissions t precommits kwargs (s :: l) acc w) as [r w'] eqn:E.
  cbn [fst snd]. cbn [filter_submissions] in E. unfold bind at 1 in E. unfold attr in E.
  destruct (benchmark_id (request s)) as [id|] eqn:Hid; simpl in E.
  2:{ injection E as <- <-. by repeat split. }
  rewrite (ids_cons s l id Hid).
  unfold bind at 1 in E. pose proof (is_retired_state t precommits kwargs id w) as Hst.
  destruct (is_retired t precommits kwargs id w) as [[gone|e] w1]; simpl in Hst; subst w1.
  2:{ injection E as <- <-. by repeat split. }
  destruct gone.
  - unfold bind at 1 in E. unfold logger, put_out in E. simpl in E.
    unfold bind at 1 in E. unfold get in E. simpl in E.
    unfold bind at 1 in E.
    set (path := Path.join (backup_folder w) (id +:+ ".json")) in *.
    assert (∀ w2 : World,
              pending_submissions w2 = pending_submissions w →
              config w2 = config w → backup_folder w2 = backup_folder w →
              dirs (disk w2) = dirs (disk w) →
              files (disk w2) ⊆ files (disk w) →
              (∀ p, p ≠ path → files (disk w2) !! p = files (disk w) !! p) →
              filter_submissions t precommits kwargs l acc w2 = (r, w') →
              pending_submissions w' = pending_submissions w ∧
              config w' = config w ∧
              backup_folder w' = backup_folder w ∧
              files (disk w') ⊆ files (disk w) ∧
              dirs (disk w') = dirs (disk w) ∧
              (∀ p, (∀ id0, id0 ∈ id :: ids l → p ≠ Path.join (backup_folder w) (id0 +:+ ".json")) →
                    files (disk w') !! p = files (disk w) !! p) ∧
              (∀ r0, r = Ok r0 → ∃ l', r0 = acc ++ l' ∧ l' `sublist_of` s :: l)) as Hnext.
    { intros w2 Hp Hc Hb Hd Hf Hl E2.
      destruct (IH acc w2) as (Hp' & Hc' & Hb' & Hf' & Hd' & Hl' & Hr').
      rewrite E2 in *. cbn [fst snd] in *.
      split; [congruence |]. split; [congruence |]. split; [congruence |].
      split; [by etrans |]. split; [congruence |]. split.
      - intros p Hne. rewrite Hl'.
        + apply Hl. apply Hne. by left.
        + intros id0 Hid0. rewrite Hb. apply Hne. by right.
      - intros r0 Hr0. destruct (Hr' r0 Hr0) as (l' & -> & Hsub).
        exists l'. split; [done |]. by apply sublist_cons. }
    destruct (Os.exists_ _ path).
    + unfold on_disk in E. simpl in E.
      destruct (Os.remove (disk w) path) as [fs|e] eqn:Hrm; simpl in E.
      * apply remove_Ok in Hrm. subst fs. apply Hnext in E; try done.
        -- simpl. apply delete_subseteq.
        -- intros p Hne. simpl. by rewrite lookup_delete_ne.
      * injection E as <- <-. by repeat split.
    + simpl in E. by apply Hnext in E.
  - destruct (IH (acc ++ [s]) w) as (Hp' & Hc' & Hb' & Hf' & Hd' & Hl' & Hr').
    rewrite E in *. cbn [fst snd] in *.
    split; [done |]. split; [done |]. split; [done |]. split; [done |]. split; [done |].
    split.
    + intros p Hne. apply Hl'. intros id0 Hid0. apply Hne. by right.
    + intros r0 Hr0. destruct (Hr' r0 Hr0) as (l' & -> & Hsub).
      exists (s :: l'). split; [by rewrite <- app_assoc |]. by apply sublist_skip.
Qed.

Lemma reconcile_shrinks precommits kwargs t w :
  let w' := snd (reconcile precommits kwargs t w) in
  config w' = config w ∧
  backup_folder w' = backup_folder w ∧
  queue t (pending_submissions w') `sublist_of` queue t (pending_submissions w) ∧
  (∀ t', t' ≠ t → queue t' (pending_submissions w') = queue t' (pending_submissions w)) ∧
  files (disk w') ⊆ files (disk w) ∧
  dirs (disk w') = dirs (disk w) ∧
  (∀ p, (∀ id, id ∈ ids (queue t (pending_submissions w)) →
               p ≠ Path.join (backup_folder w) (id +:+ ".json")) →
        files (disk w') !! p = files (disk w) !! p).
Proof.
  unfold reconcile, bind, pending, set_pending.
  pose proof (filter_submissions_shrinks t precommits kwargs
                (queue t (pending_submissions w)) [] w) as (Hp & Hc & Hb & Hf & Hd & Hl & Hr).
  destruct (filter_submissions _ _ _ _ _ w) as [[r|e] w1]; simpl in *.
  - destruct (Hr r eq_refl) as (l' & -> & Hsub). rewrite Hp.
    split; [done |]. split; [done |]. split; [by rewrite queue_set_queue_eq |].
    split; [by intros t' Ht'; rewrite queue_set_queue_ne |]. done.
  - rewrite Hp. by repeat split.
Qed.

Lemma cleared_queues w :
  config (cleared w) = config w ∧ backup_folder (cleared w) = backup_folder w ∧
  disk (cleared w) = disk w ∧
  queue precommit (pending_submissions (cleared w)) =
    (if clear_precommits_submission_on_new_block (config w)
     then [] else queue precommit (pending_submissions w)) ∧
  queue benchmark (pending_submissions (cleared w)) = queue benchmark (pending_submissions w) ∧
  queue proof (pending_submissions (cleared w)) = queue proof (pending_submissions w).
Proof. unfold cleared. by destruct (clear_precommits_submission_on_new_block (config w)). Qed.

(** The same for the whole handler. *)
Lemma on_new_block_shrinks precommits kwargs w :
  let w' := snd (on_new_block precommits kwargs w) in
  config w' = config w ∧
  backup_folder w' = backup_folder w ∧
  queue precommit (pending_submissions w') =
    (if clear_precommits_submission_on_new_block (config w)
     then [] else queue precommit (pending_submissions w)) ∧
  queue benchmark (pending_submissions w') `sublist_of` queue benchmark (pending_submissions w) ∧
  queue proof (pending_submissions w') `sublist_of` queue proof (pending_submissions w) ∧
  files (disk w') ⊆ files (disk w) ∧
  dirs (disk w') = dirs (disk w) ∧
  (∀ p, (∀ id, id ∈ ids (queue benchmark (pending_submissions w)) ++
                    ids (queue proof (pending_submissions w)) →
               p ≠ Path.join (backup_folder w) (id +:+ ".json")) →
        files (disk w') !! p = files (disk w) !! p).
Proof.
  rewrite on_new_block_eq.
  destruct (cleared_queues w) as (Hc0 & Hb0 & Hd0 & Hq0 & Hqb0 & Hqp0).
  destruct (for_ [benchmark; proof] (reconcile precommits kwargs) (cleared w)) as [r w'] eqn:E.
  cbn [fst snd]. cbn [for_] in E. unfold bind at 1 in E.
  pose proof (reconcile_shrinks precommits kwargs benchmark (cleared w))
    as (Hc1 & Hb1 & Hs1 & Hf1 & Hfi1 & Hd1 & Hl1).
  destruct (reconcile precommits kwargs benchmark (cleared w)) as [[[]|e] w1];
    cbn [fst snd] in *.
  - unfold bind at 1 in E.
    pose proof (reconcile_shrinks precommits kwargs proof w1)
      as (Hc2 & Hb2 & Hs2 & Hf2 & Hfi2 & Hd2 & Hl2).
    assert (w' = snd (reconcile precommits kwargs proof w1)) as ->.
    { destruct (reconcile precommits kwargs proof w1) as [[[]|e] w2]; by injection E as <- <-. }
    set (w2 := snd (reconcile precommits kwargs proof w1)) in *.
    split; [congruence |]. split; [congruence |].
    split; [by rewrite (Hf2 precommit), (Hf1 precommit) |].
    split; [by rewrite (Hf2 benchmark), <- Hqb0 |].
    split; [by rewrite <- Hqp0, <- (Hf1 proof) |].
    split; [rewrite <- Hd0; by etrans |]. split; [congruence |].
    intros p Hne. rewrite Hl2, Hl1, Hd0; [done | |].
    + intros id Hid. rewrite Hb0. apply Hne, elem_of_app. left. by rewrite <- Hqb0.
    + intros id Hid. rewrite Hb1, Hb0. apply Hne, elem_of_app. right.
      by rewrite <- Hqp0, <- (Hf1 proof).
  - injection E as <- <-.
    split; [congruence |]. split; [congruence |].
    split; [by rewrite (Hf1 precommit) |].
    split; [by rewrite <- Hqb0 |].
    split; [by rewrite (Hf1 proof), Hqp0 |].
    split; [by rewrite <- Hd0 |]. split; [congruence |].
    intros p Hne. rewrite Hl1, Hd0; [done |].
    intros id Hid. rewrite Hb0. apply Hne, elem_of_app. left. by rewrite <- Hqb0.
Qed.

(** X1: whatever the event holds, and whether or not the handler
    raises, [on_new_block] keeps the configuration, empties the
    precommit queue when told to and leaves it alone otherwise, leaves
    in the two other queues a part of what was there, in order, creates
    no file or directory, changes no file and removes no directory. *)
Theorem new_block_only_removes (precommits : gmap string Precommit)
    (kwargs : gmap string (gset string)) (w : World) :
  let w' := snd (on_new_block precommits kwargs w) in
  config w' = config w ∧
  backup_folder w' = backup_folder w ∧
  queue precommit (pending_submissions w') =
    (if clear_precommits_submission_on_new_block (config w)
     then [] else queue precommit (pending_submissions w)) ∧
  queue benchmark (pending_submissions w') `sublist_of` queue benchmark (pending_submissions w) ∧
  queue proof (pending_submissions w') `sublist_of` queue proof (pending_submissions w) ∧
  files (disk w') ⊆ files (disk w) ∧
  dirs (disk w') = dirs (disk w).
Proof.
  pose proof (on_new_block_shrinks precommits kwargs w) as (? & ? & ? & ? & ? & ? & ? & _).
  by repeat split.
Qed.

(** [os.path.join] with a relative second component. *)
Lemma join_relative (a b : string) :
  Path.has_slash b = false →
  Path.join a b = (if String.eqb a "" || Path.endswith "/" a then a else a +:+ "/") +:+ b.
Proof.
  intros Hb. unfold Path.join.
  destruct (Path.startswith "/" b) eqn:E.
  { apply startswith_slash in E. congruence. }
  destruct (_ || _); [done |]. by rewrite append_assoc.
Qed.

Lemma join_category_name (backup : string) (t : category) (f : string) :
  Path.has_slash f = false →
  Path.join (Path.join backup (submission_type t)) f =
    (if String.eqb backup "" || Path.endswith "/" backup then backup else backup +:+ "/")
      +:+ (submission_type t +:+ "/" +:+ f).
Proof.
  intros Hf. destruct (category_dir_spelling backup t) as [Hne Hend].
  rewrite join_name by done.
  rewrite join_relative by (by destruct t).
  by rewrite append_assoc.
Qed.

(** The file [on_new_block] looks for is not a file of a category
    directory. *)
Lemma removal_path_outside (backup id f : string) (t : category) :
  Path.has_slash id = false → Path.has_slash f = false →
  Path.join (Path.join backup (submission_type t)) f ≠ Path.join backup (id +:+ ".json").
Proof.
  intros Hid Hf. rewrite join_category_name by done.
  rewrite join_relative by (by rewrite has_slash_app, Hid).
  intros H. apply (inj (String.append _)) in H.
  assert (Path.has_slash (id +:+ ".json") = true) as Habs.
  { rewrite <- H. rewrite !has_slash_app. simpl. by rewrite orb_true_r. }
  rewrite has_slash_app, Hid in Habs. done.
Qed.

(** X2: the file [on_new_block] looks for is
    [backup_folder/<id>.json].  When the queued ids have no separator,
    no file directly inside a category directory is removed or changed,
    whatever the event and the outcome. *)
Theorem new_block_keeps_category_files (precommits : gmap string Precommit)
    (kwargs : gmap string (gset string)) (w : World) (t : category) (f : string) :
  Forall (λ id, Path.has_slash id = false)
    (ids (queue benchmark (pending_submissions w)) ++
     ids (queue proof (pending_submissions w))) →
  Path.has_slash f = false →
  files (disk (snd (on_new_block precommits kwargs w)))
    !! Path.join (Path.join (backup_folder w) (submission_type t)) f =
  files (disk w) !! Path.join (Path.join (backup_folder w) (submission_type t)) f.
Proof.
  intros Hids Hf.
  pose proof (on_new_block_shrinks precommits kwargs w) as (_ & _ & _ & _ & _ & _ & _ & Hl).
  apply Hl. intros id Hid. apply removal_path_outside; [| done].
  rewrite Forall_forall in Hids. by apply Hids.
Qed.

Lemma restorable_shrink (fs fs' : FS Text) t p :
  p ≠ "" → Path.endswith "/" p = false →
  files fs' ⊆ files fs → dirs fs' = dirs fs →
  restorable fs t p = true → restorable fs' t p = true.
Proof.
  intros Hp Hs Hf Hd. rewrite !restorable_entries by done.
  intros [Hdir Hall]. split.
  { unfold Os.is_dir in *. by rewrite Hd. }
  intros f Hn Hex Hj.
  assert (is_Some (files fs !! Path.join p f) ∨ Path.join p f ∈ dirs fs) as Hex'.
  { destruct Hex as [[text Htext] | Hin]; [left | right; by rewrite <- Hd].
    exists text. by eapply lookup_weaken. }
  destruct (Hall f Hn Hex' Hj) as [s Hres]. exists s.
  unfold restored, Os.read, Os.is_dir in *. rewrite Hd.
  destruct (bool_decide (Path.join p f ∈ dirs fs)) eqn:Hisdir; [done |].
  apply bool_decide_eq_false in Hisdir.
  destruct Hex as [[text Htext] | Hin]; [| by rewrite Hd in Hin].
  rewrite Htext. by rewrite (lookup_weaken _ _ _ _ Htext Hf) in Hres.
Qed.

(** X4: a directory from which the manager can restore stays so
    across [on_new_block], whatever the event and the outcome. *)
Theorem new_block_keeps_restartable (precommits : gmap string Precommit)
    (kwargs : gmap string (gset string)) (w : World) (t : category) :
  restorable (disk w) t (Path.join (backup_folder w) (submission_type t)) = true →
  restorable (disk (snd (on_new_block precommits kwargs w))) t
    (Path.join (backup_folder w) (submission_type t)) = true.
Proof.
  pose proof (on_new_block_shrinks precommits kwargs w) as (_ & _ & _ & _ & _ & Hf & Hd & _).
  destruct (category_dir_spelling (backup_folder w) t) as [Hne Hend].
  by apply restorable_shrink.
Qed.

(** ** A new block without a confirmed set *)

(** One turn of the loop on a submission whose id is not in
    [precommits]: the confirmed set is not looked up. *)
Lemma filter_submissions_expired_head t precommits kwargs s l acc w id :
  benchmark_id (request s) = Some id → precommits !! id = None →
  no_json_dirs (disk w) = true →
  ∃ w1, filter_submissions t precommits kwargs (s :: l) acc w =
          filter_submissions t precommits kwargs l acc w1 ∧
        pending_submissions w1 = pending_submissions w ∧
        dirs (disk w1) = dirs (disk w).
Proof.
  intros Hid Hexp Hfs. cbn [filter_submissions]. rewrite Hid.
  unfold bind at 1. unfold attr, ret at 1.
  unfold bind at 1. unfold is_retired. rewrite bool_decide_true by done. unfold ret at 1.
  unfold bind at 1. unfold logger, put_out.
  unfold bind at 1. unfold get.
  unfold bind at 1. cbn [disk with_out backup_folder].
  destruct (Os.exists_ _ _) eqn:Hex.
  - unfold on_disk, Os.remove. cbn [disk with_out].
    unfold Os.exists_ in Hex.
    rewrite (no_json_dirs_not_dir (disk w)) in * by (done || apply backup_path_json).
    rewrite orb_false_r in Hex. rewrite Hex. by eexists.
  - unfold ret at 1. by eexists.
Qed.

Lemma filter_submissions_expired t precommits kwargs l acc w :
  has_ids l → Forall (λ id, precommits !! id = None) (ids l) →
  no_json_dirs (disk w) = true →
  ∃ w', filter_submissions t precommits kwargs l acc w = (Ok acc, w').
Proof.
  revert w. induction l as [|s l IH]; intros w Hl Hexp Hfs; [by eexists |].
  inversion_clear Hl as [|? ? [id Hid] Hl'].
  rewrite (ids_cons s l id Hid) in Hexp. inversion_clear Hexp as [|? ? Hs Hexp'].
  destruct (filter_submissions_expired_head t precommits kwargs s l acc w id Hid Hs Hfs)
    as (w1 & -> & _ & Hd).
  apply IH; [done | done |]. unfold no_json_dirs in *. by rewrite Hd.
Qed.

Lemma filter_submissions_KeyError t precommits kwargs l acc w :
  kwargs !! (submission_type t +:+ "s") = None →
  has_ids l → Exists (λ id, is_Some (precommits !! id)) (ids l) →
  no_json_dirs (disk w) = true →
  fst (filter_submissions t precommits kwargs l acc w) = Raise KeyError.
Proof.
  intros Hkw. revert w. induction l as [|s l IH]; intros w Hl Hex Hfs.
  { by apply Exists_nil in Hex. }
  inversion_clear Hl as [|? ? [id Hid] Hl'].
  rewrite (ids_cons s l id Hid) in Hex.
  destruct (precommits !! id) as [pc|] eqn:Hpc.
  - cbn [filter_submissions]. rewrite Hid.
    unfold bind at 1. unfold attr, ret at 1.
    unfold bind at 1. unfold is_retired.
    rewrite bool_decide_false by (by rewrite Hpc).
    unfold bind at 1. unfold lookup_kwarg. by rewrite Hkw.
  - apply Exists_cons in Hex as [[? Habs] | Hex]; [congruence |].
    destruct (filter_submissions_expired_head t precommits kwargs s l acc w id Hid Hpc Hfs)
      as (w1 & -> & _ & Hd).
    apply IH; [done | done |]. unfold no_json_dirs in *. by rewrite Hd.
Qed.

Lemma reconcile_expired precommits kwargs t w :
  has_ids (queue t (pending_submissions w)) →
  Forall (λ id, precommits !! id = None) (ids (queue t (pending_submissions w))) →
  no_json_dirs (disk w) = true →
  fst (reconcile precommits kwargs t w) = Ok tt ∧
  queue t (pending_submissions (snd (reconcile precommits kwargs t w))) = [].
Proof.
  intros Hl Hexp Hfs. unfold reconcile, bind, pending, set_pending.
  pose proof (filter_submissions_shrinks t precommits kwargs
                (queue t (pending_submissions w)) [] w) as (Hp & _).
  destruct (filter_submissions_expired t precommits kwargs _ [] w Hl Hexp Hfs) as [w' E].
  rewrite E in *. cbn [fst snd] in *. split; [done |]. simpl. by rewrite queue_set_queue_eq.
Qed.

Lemma reconcile_KeyError precommits kwargs t w :
  kwargs !! (submission_type t +:+ "s") = None →
  has_ids (queue t (pending_submissions w)) →
  Exists (λ id, is_Some (precommits !! id)) (ids (queue t (pending_submissions w))) →
  no_json_dirs (disk w) = true →
  fst (reconcile precommits kwargs t w) = Raise KeyError ∧
  pending_submissions (snd (reconcile precommits kwargs t w)) = pending_submissions w.
Proof.
  intros Hkw Hl Hex Hfs. unfold reconcile, bind, pending.
  pose proof (filter_submissions_shrinks t precommits kwargs
                (queue t (pending_submissions w)) [] w) as (Hp & _).
  pose proof (filter_submissions_KeyError t precommits kwargs _ [] w Hkw Hl Hex Hfs) as E.
  destruct (filter_submissions _ _ _ _ _ w) as [r w']. cbn [fst snd] in *. by subst r.
Qed.

(** X3: the confirmed set is looked up only for a submission whose
    id is in [precommits].  When every queued id has expired the handler
    returns and empties both queues, even if the event has no confirmed
    set at all; when "benchmarks" is missing and some queued benchmark
    is still precommitted it raises [KeyError] and leaves the benchmark
    queue and the proof queue as they were. *)
Theorem new_block_missing_confirmed_set (precommits : gmap string Precommit)
    (kwargs : gmap string (gset string)) (w : World) :
  has_ids (queue benchmark (pending_submissions w)) →
  has_ids (queue proof (pending_submissions w)) →
  no_json_dirs (disk w) = true →
  let r := fst (on_new_block precommits kwargs w) in
  let w' := snd (on_new_block precommits kwargs w) in
  (Forall (λ id, precommits !! id = None)
     (ids (queue benchmark (pending_submissions w)) ++
      ids (queue proof (pending_submissions w))) →
   r = Ok tt ∧
   queue benchmark (pending_submissions w') = [] ∧
   queue proof (pending_submissions w') = []) ∧
  (kwargs !! "benchmarks" = None →
   Exists (λ id, is_Some (precommits !! id))
     (ids (queue benchmark (pending_submissions w))) →
   r = Raise KeyError ∧
   queue benchmark (pending_submissions w') = queue benchmark (pending_submissions w) ∧
   queue proof (pending_submissions w') = queue proof (pending_submissions w)).
Proof.
  intros Hlb Hlp Hfs r w'. subst r w'. rewrite on_new_block_eq.
  destruct (cleared_queues w) as (Hc0 & Hb0 & Hd0 & Hq0 & Hqb0 & Hqp0).
  destruct (for_ [benchmark; proof] (reconcile precommits kwargs) (cleared w)) as [r w'] eqn:E.
  cbn [fst snd]. cbn [for_] in E. unfold bind at 1 in E. split.
  - intros Hexp. apply Forall_app in Hexp as [Hexpb Hexpp].
    pose proof (reconcile_shrinks precommits kwargs benchmark (cleared w))
      as (_ & _ & _ & Hf1 & _ & Hd1 & _).
    destruct (reconcile_expired precommits kwargs benchmark (cleared w)) as [Hr1 Hq1].
    { by rewrite Hqb0. } { by rewrite Hqb0. } { by rewrite Hd0. }
    destruct (reconcile precommits kwargs benchmark (cleared w)) as [r1 w1].
    cbn [fst snd] in *. subst r1. unfold bind at 1 in E.
    pose proof (reconcile_shrinks precommits kwargs proof w1)
      as (_ & _ & _ & Hf2 & _ & _ & _).
    destruct (reconcile_expired precommits kwargs proof w1) as [Hr2 Hq2].
    { by rewrite (Hf1 proof), Hqp0. } { by rewrite (Hf1 proof), Hqp0. }
    { unfold no_json_dirs in *. by rewrite Hd1, Hd0. }
    destruct (reconcile precommits kwargs proof w1) as [r2 w2].
    cbn [fst snd] in *. subst r2. injection E as <- <-.
    split; [done |]. split; [| done]. by rewrite (Hf2 benchmark).
  - intros Hkw Hex.
    destruct (reconcile_KeyError precommits kwargs benchmark (cleared w)) as [Hr1 Hp1];
      [done | by rewrite Hqb0 | by rewrite Hqb0 | by rewrite Hd0 |].
    destruct (reconcile precommits kwargs benchmark (cleared w)) as [r1 w1].
    cbn [fst snd] in *. subst r1. injection E as <- <-. rewrite Hp1.
    by rewrite Hqb0, Hqp0.
Qed.

(** ** Retries without a maximum *)

(** X10: with no maximum configured, a submission that the server
    refuses with a 5xx status at every tick is put back every time: after
    [k] ticks it is alone in its queue with [k] retries. *)
Theorem unbounded_retries_never_give_up (t : category) (req : Request)
    (status step : Z) (w : World) :
  class_of req = Some t →
  500 ≤ status ≤ 599 →
  max_retries (config w) = None →
  ms_delay_between_retries (config w) ≤ step →
  pending_submissions w = set_queue t [mkPendingSubmission 0 0 req] no_queues →
  ∀ k : nat,
    pending_submissions (ticks status step k w) =
      set_queue t [mkPendingSubmission (Z.of_nat k * step) (Z.of_nat k) req] no_queues.
Proof.
  intros Ht Hstatus Hmax Hstep Hq k.
  assert (config (ticks status step k w) = config w ∧
          pending_submissions (ticks status step k w) =
            set_queue t [mkPendingSubmission (Z.of_nat k * step) (Z.of_nat k) req] no_queues)
    as [_ H]; [| done].
  induction k as [|k [IHc IHq]]; [done |].
  cbn [ticks]. set (now := Z.of_nat (S k) * step).
  destruct (tick_single t (mkPendingSubmission (Z.of_nat k * step) (Z.of_nat k) req)
              status now (ticks status step k w) Ht IHq) as [Hc' Hq'].
  { simpl. rewrite IHc. subst now. lia. }
  split; [congruence |]. rewrite Hq', IHc, Hmax. simpl.
  assert ((500 <=? status) && (status <=? 599) = true) as -> by lia.
  simpl. subst now. do 3 f_equal. lia.
Qed.

(** ** A backup file that cannot be written *)

Lemma has_ids_app l1 l2 : has_ids l1 → has_ids l2 → has_ids (l1 ++ l2).
Proof. unfold has_ids. intros. by apply Forall_app. Qed.

Lemma ready_write_fails (t : category) (r : Request) (id : string) (e : exn) (w : World)
    (handler : M unit) (name : string) :
  benchmark_id r = Some id →
  (∀ w0, handler w0 =
     (let! l := pending t in
      let! dup := any_benchmark_id id l in
      if dup then logger WARNING (AlreadyPending t id)
      else
        append t (mkPendingSubmission 0 0 r) ;;
        let! w := get in
        on_disk (λ fs, Os.write fs (Path.join3 (backup_folder w) name (id +:+ ".json"))
                         (json_dump (to_dict r)))) w0) →
  has_ids (queue t (pending_submissions w)) →
  id ∉ ids (queue t (pending_submissions w)) →
  Os.write (disk w) (Path.join3 (backup_folder w) name (id +:+ ".json"))
    (json_dump (to_dict r)) = Raise e →
  let w1 := with_pending
              (set_queue t (queue t (pending_submissions w) ++ [mkPendingSubmission 0 0 r])
                 (pending_submissions w)) w in
  handler w = (Raise e, w1) ∧
  handler w1 = (Ok tt, with_out (out w1 ++ [Log WARNING (AlreadyPending t id)]) w1).
Proof.
  intros Hr Hh Hids Hnew Hwrite w1. split.
  - rewrite Hh. unfold bind at 1. unfold pending. unfold bind at 1.
    pose proof (any_benchmark_id_result id (queue t (pending_submissions w)) w)
      as (Hs & _ & Hf).
    specialize (Hf Hids). rewrite bool_decide_false in Hf by done.
    destruct (any_benchmark_id id _ w) as [res w0]. simpl in Hs, Hf. subst res w0.
    unfold bind, append, pending, set_pending, get, on_disk. simpl.
    fold w1. by rewrite Hwrite.
  - rewrite Hh. unfold bind at 1. unfold pending. unfold bind at 1.
    pose proof (any_benchmark_id_result id (queue t (pending_submissions w1)) w1)
      as (Hs & _ & Hf).
    assert (queue t (pending_submissions w1) =
            queue t (pending_submissions w) ++ [mkPendingSubmission 0 0 r]) as Hq1.
    { subst w1. simpl. by rewrite queue_set_queue_eq. }
    rewrite Hq1 in *.
    rewrite bool_decide_true in Hf.
    2:{ rewrite ids_app. apply elem_of_app. right. unfold ids. csimpl. rewrite Hr. by left. }
    specialize (Hf ltac:(apply has_ids_app; [done |]; constructor; [by eexists | constructor])).
    destruct (any_benchmark_id id _ w1) as [res w0]. simpl in Hs, Hf. by subst res w0.
Qed.

Lemma write_raises_at_open (fs : FS Text) (p : string) (text : Text) :
  Os.is_dir fs p = true ∨ (Path.dirname p ≠ "" ∧ Os.is_dir fs (Path.dirname p) = false) →
  ∃ e, e ∈ [IsADirectoryError; NotADirectoryError; FileNotFoundError] ∧
       Os.write fs p text = Raise e.
Proof.
  unfold Os.write. intros [-> | [Hd ->]].
  { exists IsADirectoryError. split; [by left | done]. }
  destruct (Os.is_dir fs p).
  { exists IsADirectoryError. split; [by left | done]. }
  apply String.eqb_neq in Hd. rewrite Hd. simpl.
  destruct (Os.is_file fs (Path.dirname p)).
  - exists NotADirectoryError. split; [by right; left | done].
  - exists FileNotFoundError. split; [by right; right; left | done].
Qed.

(** X11: [on_benchmark_ready] and [on_proof_ready] queue the
    submission before they open its backup file.  When [open] raises,
    the path being a directory or its directory not being one, the
    handler raises that error with the submission queued and the disk
    as it was; the same event delivered again only logs the warning, so
    the file is not written then either. *)
Theorem ready_queues_before_it_writes (id : string) (w : World) :
  (∀ root nonces,
     let r := ReqBenchmark (mkSubmitBenchmarkRequest id root nonces) in
     let p := Path.join3 (backup_folder w) "benchmark" (id +:+ ".json") in
     has_ids (queue benchmark (pending_submissions w)) →
     id ∉ ids (queue benchmark (pending_submissions w)) →
     Os.is_dir (disk w) p = true ∨
       (Path.dirname p ≠ "" ∧ Os.is_dir (disk w) (Path.dirname p) = false) →
     let w1 := with_pending
                 (set_queue benchmark
                    (queue benchmark (pending_submissions w) ++ [mkPendingSubmission 0 0 r])
                    (pending_submissions w)) w in
     ∃ e, e ∈ [IsADirectoryError; NotADirectoryError; FileNotFoundError] ∧
          on_benchmark_ready id root nonces w = (Raise e, w1) ∧
          disk w1 = disk w ∧
          on_benchmark_ready id root nonces w1 =
            (Ok tt, with_out (out w1 ++ [Log WARNING (AlreadyPending benchmark id)]) w1)) ∧
  (∀ proofs,
     let r := ReqProof (mkSubmitProofRequest id proofs) in
     let p := Path.join3 (backup_folder w) "proof" (id +:+ ".json") in
     has_ids (queue proof (pending_submissions w)) →
     id ∉ ids (queue proof (pending_submissions w)) →
     Os.is_dir (disk w) p = true ∨
       (Path.dirname p ≠ "" ∧ Os.is_dir (disk w) (Path.dirname p) = false) →
     let w1 := with_pending
                 (set_queue proof
                    (queue proof (pending_submissions w) ++ [mkPendingSubmission 0 0 r])
                    (pending_submissions w)) w in
     ∃ e, e ∈ [IsADirectoryError; NotADirectoryError; FileNotFoundError] ∧
          on_proof_ready id proofs w = (Raise e, w1) ∧
          disk w1 = disk w ∧
          on_proof_ready id proofs w1 =
            (Ok tt, with_out (out w1 ++ [Log WARNING (AlreadyPending proof id)]) w1)).
Proof.
  split.
  - intros root nonces r p Hids Hnew Hopen w1.
    destruct (write_raises_at_open (disk w) p (json_dump (to_dict r)) Hopen)
      as (e & He & Hwrite).
    exists e. split; [done |].
    destruct (ready_write_fails benchmark r id e w (on_benchmark_ready id root nonces)
                "benchmark") as [H1 H2]; try done.
  - intros proofs r p Hids Hnew Hopen w1.
    destruct (write_raises_at_open (disk w) p (json_dump (to_dict r)) Hopen)
      as (e & He & Hwrite).
    exists e. split; [done |].
    destruct (ready_write_fails proof r id e w (on_proof_ready id proofs) "proof")
      as [H1 H2]; try done.
Qed.

(** ** Restoration and the disk *)

Lemma ancestors_prefix (a s : string) :
  a ∈ Path.ancestors s → ∃ r, s = a +:+ "/" +:+ r.
Proof.
  revert a. induction s as [|c s IH]; intros a; simpl.
  { intros H. by apply elem_of_nil in H. }
  intros H. apply elem_of_app in H as [H | H].
  - unfold Path.is_slash in H. destruct (Ascii.eqb_spec c "/") as [-> |].
    + apply list_elem_of_singleton in H as ->. by exists s.
    + by apply elem_of_nil in H.
  - apply list_elem_of_fmap in H as (a' & -> & Ha').
    destruct (IH a' Ha') as [r ->]. by exists r.
Qed.

Lemma append_length (a b : string) :
  String.length (a +:+ b) = (String.length a + String.length b)%nat.
Proof. induction a as [|x a IH]; simpl; [done | by rewrite IH]. Qed.

Lemma append_slash_ne (p x : string) : p ≠ p +:+ "/" +:+ x.
Proof.
  intros H. apply (f_equal String.length) in H.
  rewrite !append_length in H. simpl in H. lia.
Qed.

(** No category directory lies below a category directory. *)
Lemma category_dir_not_below (backup : string) (t t' : category) (x : string) :
  Path.join backup (submission_type t') ≠ Path.join backup (submission_type t) +:+ "/" +:+ x.
Proof.
  rewrite (join_relative _ (submission_type t)) by (by destruct t).
  rewrite (join_relative _ (submission_type t')) by (by destruct t').
  rewrite !append_assoc. intros H. apply (inj (String.append _)) in H.
  destruct t, t'; simpl in H; discriminate.
Qed.

Lemma makedirs_Ok (fs fs' : FS Text) p :
  Os.makedirs fs p = Ok fs' →
  files fs' = files fs ∧
  dirs fs' = dirs fs ∪ list_to_set (filter (λ d, d ≠ "") (Path.ancestors p)) ∪ {[ p ]}.
Proof.
  unfold Os.makedirs. destruct (Os.is_file fs p); [done |].
  destruct (existsb _ _); [done |]. by intros [= <-].
Qed.

(** A directory that [os.makedirs(p)] creates is [p] or spelled by a
    part of [p] that ends before a separator. *)
Lemma makedirs_new_dir (fs fs' : FS Text) p d :
  Os.makedirs fs p = Ok fs' → d ∈ dirs fs' →
  d ∈ dirs fs ∨ d = p ∨ ∃ r, p = d +:+ "/" +:+ r.
Proof.
  intros H Hd. apply makedirs_Ok in H as [_ H]. rewrite H in Hd.
  apply elem_of_union in Hd as [Hd | Hd].
  - apply elem_of_union in Hd as [Hd | Hd]; [by left |].
    right. right. apply elem_of_list_to_set, list_elem_of_filter in Hd as [_ Hd].
    by apply ancestors_prefix.
  - right. left. by apply elem_of_singleton in Hd.
Qed.

(** Directories created elsewhere do not change what a directory
    restores. *)
Lemma restorable_more_dirs (fs fs' : FS Text) t p :
  p ≠ "" → Path.endswith "/" p = false →
  files fs' = files fs → dirs fs ⊆ dirs fs' →
  (∀ d f, d ∈ dirs fs' → d ∉ dirs fs → d ≠ p +:+ "/" +:+ f) →
  restorable fs t p = true → restorable fs' t p = true.
Proof.
  intros Hp Hs Hf Hd Hnew. rewrite !restorable_entries by done.
  intros [Hdir Hall]. split.
  { unfold Os.is_dir in *. apply bool_decide_eq_true. apply bool_decide_eq_true in Hdir.
    by apply Hd. }
  intros f Hn Hex Hj.
  pose proof (is_name_no_slash f Hn) as Hnf.
  assert (Path.join p f ∈ dirs fs' → Path.join p f ∈ dirs fs) as Hback.
  { intros Hin. destruct (decide (Path.join p f ∈ dirs fs)) as [| Hnot]; [done |].
    exfalso. apply (Hnew _ f Hin Hnot). by apply join_name. }
  assert (is_Some (files fs !! Path.join p f) ∨ Path.join p f ∈ dirs fs) as Hex'.
  { destruct Hex as [Hfile | Hin]; [left; by rewrite <- Hf | right; by apply Hback]. }
  destruct (Hall f Hn Hex' Hj) as [s Hres]. exists s.
  unfold restored, Os.read, Os.is_dir in *. rewrite Hf.
  destruct (bool_decide (Path.join p f ∈ dirs fs)) eqn:E; [done |].
  apply bool_decide_eq_false in E.
  rewrite bool_decide_false; [done |]. intros Hin. by apply E, Hback.
Qed.

Lemma restore_file_frame t path file w :
  t ≠ precommit →
  let r := fst (restore_file t path file w) in
  let w' := snd (restore_file t path file w) in
  disk w' = disk w ∧ config w' = config w ∧ backup_folder w' = backup_folder w ∧
  (∀ t', t' ≠ t → queue t' (pending_submissions w') = queue t' (pending_submissions w)) ∧
  (∃ l, queue t (pending_submissions w') = queue t (pending_submissions w) ++ l ∧
        Forall (fresh t) l) ∧
  (r = Ok tt → Path.endswith ".json" file = true → is_Some (restored t (disk w) path file)).
Proof.
  intros Ht.
  destruct (restore_file t path file w) as [r w'] eqn:E. cbn [fst snd].
  unfold restore_file in E.
  destruct (Path.endswith ".json" file) eqn:Hj; simpl in E.
  2:{ injection E as <- <-. repeat split; try done. exists []. by rewrite app_nil_r. }
  unfold bind, logger, put_out, from_disk, lift in E. simpl in E.
  unfold restored, decode.
  destruct (Os.read (disk w) (Path.join path file)) as [text|e].
  2:{ injection E as <- <-. repeat split; try done. exists []. by rewrite app_nil_r. }
  destruct (json_load text) as [d|e].
  2:{ injection E as <- <-. repeat split; try done. exists []. by rewrite app_nil_r. }
  assert (∀ req, class_of req = Some t →
            append t (mkPendingSubmission 0 0 req)
              (with_out (out w ++ [Log INFO (Restoring t (Path.join path file))]) w) = (r, w') →
            disk w' = disk w ∧ config w' = config w ∧ backup_folder w' = backup_folder w ∧
            (∀ t', t' ≠ t → queue t' (pending_submissions w') = queue t' (pending_submissions w)) ∧
            (∃ l, queue t (pending_submissions w') = queue t (pending_submissions w) ++ l ∧
                  Forall (fresh t) l)) as Happ.
  { intros req Hreq [= <- <-]. simpl. repeat split; try done.
    - intros t' Ht'. by rewrite queue_set_queue_ne.
    - eexists. rewrite queue_set_queue_eq. split; [done |]. by repeat constructor. }
  destruct t; [done | |].
  - destruct (from_dict_benchmark d) as [req|e]; simpl in E.
    + destruct (Happ (ReqBenchmark req) eq_refl E) as (? & ? & ? & ? & ?).
      injection E as <- _. repeat split; try done; by eexists.
    + injection E as <- <-. repeat split; try done. exists []. by rewrite app_nil_r.
  - destruct (from_dict_proof d) as [req|e]; simpl in E.
    + destruct (Happ (ReqProof req) eq_refl E) as (? & ? & ? & ? & ?).
      injection E as <- _. repeat split; try done; by eexists.
    + injection E as <- <-. repeat split; try done. exists []. by rewrite app_nil_r.
Qed.

Lemma for_restore_file_frame t path listing w :
  t ≠ precommit →
  let r := fst (for_ listing (restore_file t path) w) in
  let w' := snd (for_ listing (restore_file t path) w) in
  disk w' = disk w ∧ config w' = config w ∧ backup_folder w' = backup_folder w ∧
  (∀ t', t' ≠ t → queue t' (pending_submissions w') = queue t' (pending_submissions w)) ∧
  (∃ l, queue t (pending_submissions w') = queue t (pending_submissions w) ++ l ∧
        Forall (fresh t) l) ∧
  (r = Ok tt →
   Forall (λ file, is_Some (restored t (disk w) path file))
     (filter (λ file, Path.endswith ".json" file = true) listing)).
Proof.
  intros Ht. revert w. induction listing as [|file listing IH]; intros w.
  { simpl. repeat split; try done. exists []. by rewrite app_nil_r. }
  destruct (for_ (file :: listing) (restore_file t path) w) as [r w'] eqn:E.
  cbn [fst snd]. cbn [for_] in E. unfold bind in E.
  pose proof (restore_file_frame t path file w Ht) as (Hd1 & Hc1 & Hb1 & Hf1 & (l1 & Hq1 & Hl1) & Hr1).
  destruct (restore_file t path file w) as [[[]|e] w1]; cbn [fst snd] in *.
  - pose proof (IH w1) as (Hd2 & Hc2 & Hb2 & Hf2 & (l2 & Hq2 & Hl2) & Hr2).
    rewrite E in *. cbn [fst snd] in *.
    split; [congruence |]. split; [congruence |]. split; [congruence |].
    split; [by intros t' Ht'; rewrite Hf2, Hf1 |].
    split.
    + exists (l1 ++ l2). rewrite Hq2, Hq1, <- app_assoc. split; [done |]. by apply Forall_app.
    + intros Hr. rewrite filter_cons. rewrite Hd1 in Hr2.
      destruct (decide (Path.endswith ".json" file = true)).
      * constructor; [by apply Hr1 | by apply Hr2].
      * by apply Hr2.
  - injection E as <- <-. repeat split; try done. by exists l1.
Qed.

(** What the restoration of one category does. *)
Lemma restore_type_frame t w :
  t ≠ precommit →
  let p := Path.join (backup_folder w) (submission_type t) in
  let r := fst (restore_type t w) in
  let w' := snd (restore_type t w) in
  files (disk w') = files (disk w) ∧
  (dirs (disk w') = dirs (disk w) ∨
   Os.exists_ (disk w) p = false ∧ Os.makedirs (disk w) p = Ok (disk w')) ∧
  config w' = config w ∧ backup_folder w' = backup_folder w ∧
  (∀ t', t' ≠ t → queue t' (pending_submissions w') = queue t' (pending_submissions w)) ∧
  (∃ l, queue t (pending_submissions w') = queue t (pending_submissions w) ++ l ∧
        Forall (fresh t) l) ∧
  (r = Ok tt → restorable (disk w') t p = true).
Proof.
  intros Ht p.
  destruct (restore_type t w) as [r w'] eqn:E. cbn [fst snd].
  unfold restore_type in E. unfold bind at 1 in E. unfold get in E. fold p in E.
  unfold bind at 1 in E.
  assert (∀ w1 : World,
            files (disk w1) = files (disk w) →
            config w1 = config w → backup_folder w1 = backup_folder w →
            pending_submissions w1 = pending_submissions w →
            (let! fs := from_disk id in
             let! listing := lift (Os.listdir fs p) in
             for_ listing (restore_file t p)) w1 = (r, w') →
            files (disk w') = files (disk w) ∧
            disk w' = disk w1 ∧
            config w' = config w ∧ backup_folder w' = backup_folder w ∧
            (∀ t', t' ≠ t → queue t' (pending_submissions w') = queue t' (pending_submissions w)) ∧
            (∃ l, queue t (pending_submissions w') = queue t (pending_submissions w) ++ l ∧
                  Forall (fresh t) l) ∧
            (r = Ok tt → restorable (disk w') t p = true)) as Hrest.
  { intros w1 Hf Hc Hb Hp E1. unfold bind, from_disk, lift in E1. simpl in E1.
    destruct (Os.listdir (disk w1) p) as [listing|e] eqn:Hlist.
    - pose proof (for_restore_file_frame t p listing w1 Ht)
        as (Hd2 & Hc2 & Hb2 & Hf2 & (l2 & Hq2 & Hl2) & Hr2).
      rewrite E1 in *. cbn [fst snd] in *.
      split; [congruence |]. split; [done |]. split; [congruence |]. split; [congruence |].
      split; [intros t' Ht'; by rewrite Hf2, Hp |].
      split; [exists l2; by rewrite Hq2, Hp |].
      intros Hr. apply restorable_listing. exists listing. rewrite Hd2. split; [done |].
      by apply Hr2.
    - injection E1 as <- <-.
      split; [done |]. split; [done |]. split; [done |]. split; [done |].
      split; [intros t' Ht'; by rewrite Hp |].
      split; [| done]. exists []. by rewrite app_nil_r, Hp. }
  destruct (Os.exists_ (disk w) p) eqn:Hex; simpl in E.
  - apply Hrest in E as (H1 & H2 & H3 & H4 & H5 & H6 & H7); try done.
    split; [done |]. split; [left; by rewrite H2 |]. done.
  - unfold bind at 1 in E. unfold logger, put_out in E. simpl in E.
    unfold on_disk in E. simpl in E.
    destruct (Os.makedirs (disk w) p) as [fs1|e] eqn:Hmk; simpl in E.
    + pose proof (makedirs_Ok _ _ _ Hmk) as [Hf1 Hd1].
      apply Hrest in E as (H1 & H2 & H3 & H4 & H5 & H6 & H7); try done.
      split; [done |]. split; [right; by rewrite H2 |]. done.
    + injection E as <- <-. simpl.
      split; [done |]. split; [by left |]. split; [done |]. split; [done |].
      split; [done |]. split; [| done]. exists []. by rewrite app_nil_r.
Qed.

Lemma restore_type_dirs t w d :
  t ≠ precommit →
  d ∈ dirs (disk (snd (restore_type t w))) →
  d ∈ dirs (disk w) ∨
  Os.exists_ (disk w) (Path.join (backup_folder w) (submission_type t)) = false ∧
  (d = Path.join (backup_folder w) (submission_type t) ∨
   ∃ r, Path.join (backup_folder w) (submission_type t) = d +:+ "/" +:+ r).
Proof.
  intros Ht Hd.
  pose proof (restore_type_frame t w Ht) as (_ & [Hdirs | [Hex Hmk]] & _).
  - left. by rewrite <- Hdirs.
  - apply (makedirs_new_dir _ _ _ d Hmk) in Hd as [? | ?]; [by left | by right].
Qed.

Lemma restore_type_dirs_grow t w :
  t ≠ precommit → dirs (disk w) ⊆ dirs (disk (snd (restore_type t w))).
Proof.
  intros Ht.
  pose proof (restore_type_frame t w Ht) as (_ & [Hdirs | [Hex Hmk]] & _).
  - by rewrite Hdirs.
  - apply makedirs_Ok in Hmk as [_ ->]. intros d Hd. apply elem_of_union. left.
    apply elem_of_union. by left.
Qed.

(** The two categories one after the other. *)
Lemma restore_frame w :
  let r := fst (_restore_pending_submissions w) in
  let w' := snd (_restore_pending_submissions w) in
  files (disk w') = files (disk w) ∧
  dirs (disk w) ⊆ dirs (disk w') ∧
  (∀ d, d ∈ dirs (disk w') → d ∉ dirs (disk w) →
        ∃ t, t ≠ precommit ∧
             Os.exists_ (disk w) (Path.join (backup_folder w) (submission_type t)) = false ∧
             (d = Path.join (backup_folder w) (submission_type t) ∨
              ∃ r, Path.join (backup_folder w) (submission_type t) = d +:+ "/" +:+ r)) ∧
  config w' = config w ∧ backup_folder w' = backup_folder w ∧
  queue precommit (pending_submissions w') = queue precommit (pending_submissions w) ∧
  (∀ t, t ≠ precommit →
        ∃ l, queue t (pending_submissions w') = queue t (pending_submissions w) ++ l ∧
             Forall (fresh t) l) ∧
  (r = Ok tt →
   restorable (disk w') benchmark (Path.join (backup_folder w) "benchmark") = true ∧
   restorable (disk w') proof (Path.join (backup_folder w) "proof") = true).
Proof.
  destruct (_restore_pending_submissions w) as [r w'] eqn:E. cbn [fst snd].
  unfold _restore_pending_submissions in E. cbn [for_] in E. unfold bind at 1 in E.
  pose proof (restore_type_frame benchmark w ltac:(done))
    as (Hf1 & _ & Hc1 & Hb1 & Hq1 & (l1 & Hl1 & Hfr1) & Hr1).
  pose proof (restore_type_dirs benchmark w) as Hnew1.
  pose proof (restore_type_dirs_grow benchmark w ltac:(done)) as Hgrow1.
  destruct (restore_type benchmark w) as [[[]|e] w1]; cbn [fst snd] in *.
  2:{ injection E as <- <-.
      split; [done |]. split; [done |]. split.
      { intros d Hd Hnd. exists benchmark. split; [done |].
        destruct (Hnew1 d ltac:(done) Hd) as [? | ?]; done. }
      split; [done |]. split; [done |]. split; [by apply Hq1 |].
      split; [| done]. intros [] Ht; [done | by exists l1 |].
      exists []. rewrite app_nil_r. split; [by apply Hq1 | done]. }
  unfold bind at 1 in E.
  pose proof (restore_type_frame proof w1 ltac:(done))
    as (Hf2 & _ & Hc2 & Hb2 & Hq2 & (l2 & Hl2 & Hfr2) & Hr2).
  pose proof (restore_type_dirs proof w1) as Hnew2.
  pose proof (restore_type_dirs_grow proof w1 ltac:(done)) as Hgrow2.
  assert (w' = snd (restore_type proof w1) ∧ r = fst (restore_type proof w1)) as [-> ->].
  { destruct (restore_type proof w1) as [[[]|e] w2]; by injection E as <- <-. }
  set (w2 := snd (restore_type proof w1)) in *.
  rewrite Hb1 in *.
  assert (∀ d, d ∈ dirs (disk w2) → d ∉ dirs (disk w1) →
               d = Path.join (backup_folder w) "proof" ∨
               ∃ r, Path.join (backup_folder w) "proof" = d +:+ "/" +:+ r) as Hnew2'.
  { intros d Hd Hnd. destruct (Hnew2 d ltac:(done) Hd) as [? | [_ ?]]; done. }
  split; [congruence |]. split; [by etrans |]. split.
  { intros d Hd Hnd. destruct (decide (d ∈ dirs (disk w1))) as [Hd1 | Hd1].
    - exists benchmark. split; [done |].
      destruct (Hnew1 d ltac:(done) Hd1) as [? | ?]; done.
    - exists proof. split; [done |].
      destruct (Hnew2 d ltac:(done) Hd) as [? | [Hex ?]]; [done |]. split; [| done].
      unfold Os.exists_, Os.is_file, Os.is_dir in *. rewrite Hf1 in Hex.
      apply orb_false_iff in Hex as [Hex1 Hex2]. rewrite Hex1. simpl.
      apply bool_decide_eq_false. apply bool_decide_eq_false in Hex2.
      intros Hin. by apply Hex2, Hgrow1. }
  split; [congruence |]. split; [congruence |].
  split; [by rewrite (Hq2 precommit), (Hq1 precommit) |].
  split.
  { intros [] Ht; [done | |].
    - exists l1. by rewrite (Hq2 benchmark).
    - exists l2. by rewrite Hl2, (Hq1 proof). }
  intros Hr. specialize (Hr1 eq_refl). specialize (Hr2 Hr). split; [| done].
  destruct (category_dir_spelling (backup_folder w) benchmark) as [Hne Hend].
  apply (restorable_more_dirs (disk w1)); try done.
  intros d f Hd Hnd Heq. destruct (Hnew2' d Hd Hnd) as [Hp | [x Hp]].
  - subst d. by apply (category_dir_not_below (backup_folder w) benchmark proof f).
  - subst d. rewrite !append_assoc in Hp.
    by apply (category_dir_not_below (backup_folder w) benchmark proof (f +:+ "/" +:+ x)).
Qed.

(** X13: restoration, whether it returns or raises, never changes
    the files of the disk; it removes no directory, the directories it
    creates are a category directory that was missing or lead to one,
    and it leaves the precommit queue alone. *)
Theorem restoration_keeps_files (w : World) :
  let w' := snd (_restore_pending_submissions w) in
  files (disk w') = files (disk w) ∧
  dirs (disk w) ⊆ dirs (disk w') ∧
  (∀ d, d ∈ dirs (disk w') → d ∉ dirs (disk w) →
        ∃ t, t ≠ precommit ∧
             Os.exists_ (disk w) (Path.join (backup_folder w) (submission_type t)) = false ∧
             (d = Path.join (backup_folder w) (submission_type t) ∨
              ∃ r, Path.join (backup_folder w) (submission_type t) = d +:+ "/" +:+ r)) ∧
  queue precommit (pending_submissions w') = queue precommit (pending_submissions w).
Proof.
  pose proof (restore_frame w) as (? & ? & ? & _ & _ & ? & _). by repeat split.
Qed.

Lemma init_Ok url key backup cfg (fs : FS Text) w :
  init url key backup cfg fs = Ok w →
  _restore_pending_submissions (new_extension url key backup cfg fs) = (Ok tt, w).
Proof.
  unfold init.
  by destruct (_restore_pending_submissions _) as [[[]|e] w']; intros [= <-].
Qed.

(** What a manager that could be constructed holds and leaves. *)
Lemma init_frame url key backup cfg (fs : FS Text) w :
  init url key backup cfg fs = Ok w →
  files (disk w) = files fs ∧
  backup_folder w = backup ∧
  restorable (disk w) benchmark (Path.join backup "benchmark") = true ∧
  restorable (disk w) proof (Path.join backup "proof") = true ∧
  queue precommit (pending_submissions w) = [] ∧
  (∀ t s, s ∈ queue t (pending_submissions w) → fresh t s).
Proof.
  intros Hinit. apply init_Ok in Hinit.
  pose proof (restore_frame (new_extension url key backup cfg fs))
    as (Hf & _ & _ & _ & Hb & Hq & Hl & Hr).
  rewrite Hinit in *. cbn [fst snd] in *. specialize (Hr eq_refl) as [Hr1 Hr2].
  split; [done |]. split; [done |]. split; [done |]. split; [done |]. split; [done |].
  intros t s Hs. destruct (decide (t = precommit)) as [-> | Ht].
  - rewrite Hq in Hs. by apply elem_of_nil in Hs.
  - destruct (Hl t Ht) as (l & Hql & Hfresh). rewrite Hql in Hs.
    assert (queue t (pending_submissions (new_extension url key backup cfg fs)) = []) as Hnil
      by by destruct t.
    rewrite Hnil in Hs. simpl in Hs. rewrite Forall_forall in Hfresh. by apply Hfresh.
Qed.

(** X15: a manager that could be constructed starts with no
    precommit, with benchmark and proof submissions that were never
    retried, each of the class of its queue, and leaves a disk from
    which a manager can be constructed again. *)
Theorem construction_leaves_restartable (url key backup : string)
    (cfg : SubmissionsManagerConfig) (fs : FS Text) (w : World) :
  init url key backup cfg fs = Ok w →
  restorable (disk w) benchmark (Path.join backup "benchmark") = true ∧
  restorable (disk w) proof (Path.join backup "proof") = true ∧
  queue precommit (pending_submissions w) = [] ∧
  (∀ t s, s ∈ queue t (pending_submissions w) → fresh t s) ∧
  (∀ url' key' cfg', ∃ w2, init url' key' backup cfg' (disk w) = Ok w2).
Proof.
  intros Hinit.
  destruct (init_frame url key backup cfg fs w Hinit) as (_ & _ & Hr1 & Hr2 & Hq & Hfresh).
  split; [done |]. split; [done |]. split; [done |]. split; [done |].
  intros url' key' cfg'.
  destruct (init_ok url' key' backup cfg' (disk w) Hr1 Hr2) as (w2 & _ & _ & Hok & _).
  by exists w2.
Qed.

(** X14: with both category directories in place, construction
    succeeds, and leaves the disk as it is, exactly when every entry
    named "*.json" of both directories is a regular file that
    deserializes: one unreadable backup file keeps the manager from
    starting. *)
Theorem construction_succeeds_iff_restorable (url key backup : string)
    (cfg : SubmissionsManagerConfig) (fs : FS Text) :
  Os.is_dir fs (Path.join backup "benchmark") = true →
  Os.is_dir fs (Path.join backup "proof") = true →
  (∃ w, init url key backup cfg fs = Ok w ∧ disk w = fs) ↔
  restorable fs benchmark (Path.join backup "benchmark") = true ∧
  restorable fs proof (Path.join backup "proof") = true.
Proof.
  intros Hd1 Hd2.
  assert (∀ w, init url key backup cfg fs = Ok w → disk w = fs) as Hdisk.
  { intros w Hinit. apply init_Ok in Hinit.
    pose proof (restore_frame (new_extension url key backup cfg fs))
      as (Hf & Hgrow & Hnew & _).
    rewrite Hinit in *. cbn [fst snd] in *. simpl in *.
    assert (dirs (disk w) = dirs fs) as Hdirs.
    { apply (anti_symm (⊆)); [| done]. intros d Hd.
      destruct (decide (d ∈ dirs fs)) as [| Hnd]; [done |].
      destruct (Hnew d Hd Hnd) as (t & Ht & Hex & _). exfalso.
      unfold Os.exists_ in Hex. apply orb_false_iff in Hex as [_ Hex].
      destruct t; [done | |]; simpl in Hex; congruence. }
    destruct (disk w) as [f d], fs as [f' d']. simpl in *. by subst. }
  split.
  - intros (w & Hinit & Hw).
    destruct (init_frame url key backup cfg fs w Hinit) as (_ & _ & Hr1 & Hr2 & _).
    by rewrite Hw in Hr1, Hr2.
  - intros [Hr1 Hr2].
    destruct (init_ok url key backup cfg fs Hr1 Hr2) as (w & _ & _ & Hok & _).
    exists w. split; [done | by apply Hdisk].
Qed.

(** ** Starting on a disk without backup directories *)

Lemma omap_None {A B} (f : A → option B) (l : list A) :
  (∀ x, x ∈ l → f x = None) → omap f l = [].
Proof.
  induction l as [|x l IH]; intros H; csimpl; [done |].
  rewrite (H x) by left. apply IH. intros y Hy. apply H. by right.
Qed.

Lemma child_name_below (p k n : string) :
  p ≠ "" → Path.endswith "/" p = false →
  Path.child_name p k = Some n → k = p +:+ "/" +:+ n.
Proof.
  intros Hp Hs H. apply child_name_Some in H as [Hn ->]; [| done..].
  apply join_name; [done | done |]. by apply is_name_no_slash.
Qed.

Lemma listdir_empty (fs : FS Text) (p : string) :
  p ≠ "" → Path.endswith "/" p = false → Os.is_dir fs p = true →
  (∀ k, k ∈ dom (files fs) ∪ dirs fs → ∀ x, k ≠ p +:+ "/" +:+ x) →
  Os.listdir fs p = Ok [].
Proof.
  intros Hp Hs Hd Hnone. unfold Os.listdir. rewrite Hd. f_equal.
  apply omap_None. intros k Hk. apply elem_of_elements in Hk.
  destruct (Path.child_name p k) as [n|] eqn:E; [| done].
  apply child_name_below in E; [| done..]. by apply Hnone in E.
Qed.

Lemma prefix_not_below (p k r x : string) :
  p = k +:+ r → k ≠ p +:+ "/" +:+ x.
Proof.
  intros -> H. apply (f_equal String.length) in H.
  rewrite !append_length in H. simpl in H. lia.
Qed.

Lemma nothing_not_exists (fs : FS Text) (p : string) :
  nothing_at_or_below fs p → Os.is_file fs p = false ∧ Os.is_dir fs p = false.
Proof.
  intros H. unfold Os.is_file, Os.is_dir. split; apply bool_decide_eq_false; intros Hin.
  - destruct (H p) as [Hne _]; [| done]. apply elem_of_union. left. by apply elem_of_dom.
  - destruct (H p) as [Hne _]; [| done]. apply elem_of_union. by right.
Qed.

(** The restoration of a category whose directory is not there. *)
Lemma restore_type_fresh t w :
  t ≠ precommit →
  let p := Path.join (backup_folder w) (submission_type t) in
  nothing_at_or_below (disk w) p →
  existsb (Os.is_file (disk w)) (Path.ancestors p) = false →
  ∃ fs', Os.makedirs (disk w) p = Ok fs' ∧
         restore_type t w =
           (Ok tt, with_disk fs' (with_out (out w ++ [Log INFO (CreatingBackupFolder p)]) w)).
Proof.
  intros Ht p Hnone Hanc.
  destruct (nothing_not_exists _ _ Hnone) as [Hnf Hnd].
  destruct (category_dir_spelling (backup_folder w) t) as [Hne Hend]. fold p in Hne, Hend.
  destruct (Os.makedirs (disk w) p) as [fs'|e] eqn:Hmk.
  2:{ unfold Os.makedirs in Hmk. by rewrite Hnf, Hanc in Hmk. }
  exists fs'. split; [done |].
  pose proof (makedirs_Ok _ _ _ Hmk) as [Hf Hd].
  assert (Os.listdir fs' p = Ok []) as Hlist.
  { apply listdir_empty; [done | done | |].
    - unfold Os.is_dir. apply bool_decide_eq_true. rewrite Hd.
      apply elem_of_union. right. by apply elem_of_singleton.
    - intros k Hk x. rewrite Hf in Hk. apply elem_of_union in Hk as [Hk | Hk].
      + apply Hnone. apply elem_of_union. by left.
      + destruct (makedirs_new_dir _ _ _ k Hmk Hk) as [Hold | [-> | [r Hr]]].
        * apply Hnone. apply elem_of_union. by right.
        * apply append_slash_ne.
        * by apply (prefix_not_below p k ("/" +:+ r)). }
  unfold restore_type, bind, get. fold p.
  unfold Os.exists_. rewrite Hnf, Hnd. simpl.
  unfold on_disk. simpl. rewrite Hmk. simpl. by rewrite Hlist.
Qed.

Lemma init_fresh url key backup cfg (fs : FS Text) :
  nothing_at_or_below fs (Path.join backup "benchmark") →
  nothing_at_or_below fs (Path.join backup "proof") →
  existsb (Os.is_file fs) (Path.ancestors (Path.join backup "benchmark")) = false →
  existsb (Os.is_file fs) (Path.ancestors (Path.join backup "proof")) = false →
  ∃ w, init url key backup cfg fs = Ok w ∧
       pending_submissions w = no_queues ∧
       out w = [Log INFO (CreatingBackupFolder (Path.join backup "benchmark"));
                Log INFO (CreatingBackupFolder (Path.join backup "proof"))] ∧
       files (disk w) = files fs ∧
       Os.is_dir (disk w) (Path.join backup "benchmark") = true ∧
       Os.is_dir (disk w) (Path.join backup "proof") = true.
Proof.
  intros Hn1 Hn2 Ha1 Ha2.
  set (w0 := new_extension url key backup cfg fs).
  destruct (restore_type_fresh benchmark w0 ltac:(done) Hn1 Ha1) as (fs1 & Hmk1 & E1).
  pose proof (makedirs_Ok _ _ _ Hmk1) as [Hf1 Hd1].
  set (w1 := with_disk fs1 _) in E1.
  destruct (restore_type_fresh proof w1 ltac:(done)) as (fs2 & Hmk2 & E2).
  { intros k Hk. simpl in Hk. rewrite Hf1 in Hk.
    apply elem_of_union in Hk as [Hk | Hk].
    - apply Hn2. apply elem_of_union. by left.
    - destruct (makedirs_new_dir _ _ _ k Hmk1 Hk) as [Hold | [-> | [r Hr]]].
      + apply Hn2. apply elem_of_union. by right.
      + split.
        * intros H. by apply (category_dir_inj backup benchmark proof) in H.
        * intros x. apply (category_dir_not_below backup proof benchmark).
      + simpl in Hr. split.
        * intros ->. by apply (category_dir_not_below backup proof benchmark r).
        * intros x ->. rewrite !append_assoc in Hr.
          by apply (category_dir_not_below backup proof benchmark (x +:+ "/" +:+ r)). }
  { simpl. unfold Os.is_file in *. by rewrite Hf1. }
  pose proof (makedirs_Ok _ _ _ Hmk2) as [Hf2 Hd2]. simpl in Hf2, Hd2.
  eexists. split.
  { unfold init, _restore_pending_submissions. cbn [for_]. unfold bind. fold w0.
    rewrite E1, E2. done. }
  clear E1 E2. subst w1 w0. simpl in *.
  split; [done |]. split; [done |]. split; [congruence |].
  unfold Os.is_dir. rewrite Hd2, Hd1.
  split; apply bool_decide_eq_true.
  - apply elem_of_union. left. apply elem_of_union. left.
    apply elem_of_union. right. by apply elem_of_singleton.
  - apply elem_of_union. right. by apply elem_of_singleton.
Qed.

(** X16: on a disk with nothing at or below the two category
    directories and no regular file on the way to them, construction
    creates both directories, logs the two creations, touches no file
    and starts with three empty queues. *)
Theorem construction_on_a_fresh_disk (url key backup : string)
    (cfg : SubmissionsManagerConfig) (fs : FS Text) :
  nothing_at_or_below fs (Path.join backup "benchmark") →
  nothing_at_or_below fs (Path.join backup "proof") →
  existsb (Os.is_file fs) (Path.ancestors (Path.join backup "benchmark")) = false →
  existsb (Os.is_file fs) (Path.ancestors (Path.join backup "proof")) = false →
  ∃ w, init url key backup cfg fs = Ok w ∧
       pending_submissions w = no_queues ∧
       out w = [Log INFO (CreatingBackupFolder (Path.join backup "benchmark"));
                Log INFO (CreatingBackupFolder (Path.join backup "proof"))] ∧
       files (disk w) = files fs ∧
       Os.is_dir (disk w) (Path.join backup "benchmark") = true ∧
       Os.is_dir (disk w) (Path.join backup "proof") = true.
Proof. apply init_fresh. Qed.

(** ** The backup folder that [master.py] prepares *)

Lemma ancestors_self (a x : string) : a ∈ Path.ancestors (a +:+ "/" +:+ x).
Proof.
  induction a as [|c a IH]; simpl.
  - by left.
  - apply elem_of_app. right. by apply list_elem_of_fmap_2.
Qed.

Lemma ancestors_app_name (a n : string) :
  Path.has_slash n = false →
  Path.ancestors (a +:+ "/" +:+ n) = Path.ancestors a ++ [a].
Proof.
  intros Hn. induction a as [|c a IH]; simpl.
  - assert (Path.ancestors n = []) as ->; [| done].
    clear -Hn. induction n as [|c n IH]; simpl in *; [done |].
    apply orb_false_iff in Hn as [-> Hn]. by rewrite IH.
  - simpl in IH. rewrite IH. rewrite fmap_app. simpl. by rewrite app_assoc.
Qed.

(** X17: [master.py] creates the backup folder when nothing is at
    that path, and construction then succeeds with empty queues and both
    category directories in place; when the path is a regular file,
    [master.py] leaves it alone and construction raises
    [NotADirectoryError]. *)
Theorem master_prepares_the_backup_folder (url key backup : string)
    (cfg : SubmissionsManagerConfig) (fs : FS Text) :
  backup ≠ "" → Path.endswith "/" backup = false →
  (nothing_at_or_below fs backup →
   existsb (Os.is_file fs) (Path.ancestors backup) = false →
   ∃ fs1 w,
     prepare_backup_folder backup fs = ([CreatingBackupFolderAt backup], Ok fs1) ∧
     Os.is_dir fs1 backup = true ∧
     init url key backup cfg fs1 = Ok w ∧
     pending_submissions w = no_queues ∧
     files (disk w) = files fs ∧
     Os.is_dir (disk w) (Path.join backup "benchmark") = true ∧
     Os.is_dir (disk w) (Path.join backup "proof") = true) ∧
  (Os.is_file fs backup = true →
   Os.exists_ fs (Path.join backup "benchmark") = false →
   prepare_backup_folder backup fs = ([], Ok fs) ∧
   init url key backup cfg fs = Raise NotADirectoryError).
Proof.
  intros Hne Hend.
  assert (∀ t, Path.join backup (submission_type t) = backup +:+ "/" +:+ submission_type t) as Hjoin.
  { intros t. apply join_name; [done | done | by destruct t]. }
  split.
  - intros Hnone Hanc.
    destruct (nothing_not_exists _ _ Hnone) as [Hnf Hnd].
    destruct (Os.makedirs fs backup) as [fs1|e] eqn:Hmk.
    2:{ unfold Os.makedirs in Hmk. by rewrite Hnf, Hanc in Hmk. }
    pose proof (makedirs_Ok _ _ _ Hmk) as [Hf1 Hd1].
    assert (∀ t, t ≠ precommit →
                 nothing_at_or_below fs1 (Path.join backup (submission_type t)) ∧
                 existsb (Os.is_file fs1)
                   (Path.ancestors (Path.join backup (submission_type t))) = false) as Hfresh.
    { intros t Ht. rewrite Hjoin. split.
      - intros k Hk. rewrite Hf1 in Hk.
        assert (k ∈ dom (files fs) ∪ dirs fs ∨ k = backup ∨ ∃ r, backup = k +:+ "/" +:+ r)
          as [Hold | Hnew].
        { apply elem_of_union in Hk as [Hk | Hk]; [left; apply elem_of_union; by left |].
          destruct (makedirs_new_dir _ _ _ k Hmk Hk) as [? | ?]; [| by right].
          left. apply elem_of_union. by right. }
        + destruct (Hnone k Hold) as [_ Hbelow]. split; [apply Hbelow |].
          intros x. rewrite append_assoc. simpl. apply Hbelow.
        + assert (∃ r, backup = k +:+ r) as [r Hr].
          { destruct Hnew as [-> | [r Hr]]; [exists ""; by rewrite append_empty_r | by eexists]. }
          split.
          * by apply (prefix_not_below backup k r).
          * intros x H. apply (f_equal String.length) in H, Hr.
            rewrite !append_length in H. rewrite append_length in Hr. simpl in H. lia.
      - rewrite ancestors_app_name by (by destruct t).
        assert (Os.is_file fs1 = Os.is_file fs) as ->
          by (unfold Os.is_file; by rewrite Hf1).
        rewrite existsb_app, Hanc. simpl. by rewrite Hnf. }
    destruct (Hfresh benchmark ltac:(done)) as [Hn1 Ha1].
    destruct (Hfresh proof ltac:(done)) as [Hn2 Ha2].
    destruct (init_fresh url key backup cfg fs1 Hn1 Hn2 Ha1 Ha2)
      as (w & Hinit & Hq & _ & Hf & Hdir1 & Hdir2).
    exists fs1, w. split.
    { unfold prepare_backup_folder, Os.exists_. by rewrite Hnf, Hnd, Hmk. }
    split.
    { unfold Os.is_dir. apply bool_decide_eq_true. rewrite Hd1.
      apply elem_of_union. right. by apply elem_of_singleton. }
    split; [done |]. split; [done |]. split; [congruence | done].
  - intros Hfile Hex. split.
    { unfold prepare_backup_folder, Os.exists_. by rewrite Hfile. }
    unfold init, _restore_pending_submissions. cbn [for_]. unfold bind at 1.
    unfold restore_type. unfold bind at 1. unfold get. cbn [backup_folder new_extension disk].
    unfold bind at 1. cbn [submission_type]. rewrite Hex. cbn [negb].
    unfold bind at 1. unfold logger, put_out. cbn [disk with_out].
    unfold on_disk. cbn [disk with_out new_extension].
    assert (Os.makedirs fs (Path.join backup "benchmark") = Raise NotADirectoryError) as ->; [| done].
    unfold Os.makedirs.
    unfold Os.exists_ in Hex. apply orb_false_iff in Hex as [-> _].
    assert (existsb (Os.is_file fs) (Path.ancestors (Path.join backup "benchmark")) = true) as ->;
      [| done].
    apply existsb_exists. exists backup. split; [| done].
    apply list_elem_of_In. pose proof (Hjoin benchmark) as Hj. simpl in Hj. rewrite Hj.
    apply ancestors_self.
Qed.

(** ** The requests a tick posts *)

Lemma posted_log o l m : posted (o ++ [Log l m]) = posted o.
Proof. unfold posted. rewrite omap_app. simpl. by rewrite app_nil_r. Qed.

Lemma posted_emit o e : posted (o ++ [Emit e]) = posted o.
Proof. unfold posted. rewrite omap_app. simpl. by rewrite app_nil_r. Qed.

Lemma posted_post o url key d : posted (o ++ [Post url key d]) = posted o ++ [(url, key, d)].
Proof. unfold posted. by rewrite omap_app. Qed.

Lemma take_ready_static now t w :
  let w' := snd (take_ready now t w) in
  api_url w' = api_url w ∧ api_key w' = api_key w ∧ posted (out w') = posted (out w).
Proof.
  rewrite take_ready_eq.
  destruct (sorted last_retry_time _) as [|head rest]; [done |].
  destruct (_ <? _); simpl; [by rewrite posted_log |].
  destruct t; simpl; try destruct (benchmark_id (request head)); simpl;
    by rewrite ?posted_log.
Qed.

Lemma take_all_static now ts acc w :
  let w' := snd (take_all now ts acc w) in
  api_url w' = api_url w ∧ api_key w' = api_key w ∧ posted (out w') = posted (out w).
Proof.
  revert acc w. induction ts as [|t ts IH]; intros acc w; simpl; [done |].
  unfold bind. pose proof (take_ready_static now t w) as (H1 & H2 & H3).
  destruct (take_ready now t w) as [[o|e] w1]; simpl in *; [| done].
  destruct (IH (match o with Some s => acc ++ [(t, s)] | None => acc end) w1) as (? & ? & ?).
  split; [congruence |]. split; congruence.
Qed.

Lemma on_update_dequeue_static now w :
  let w' := snd (on_update_dequeue now w) in
  api_url w' = api_url w ∧ api_key w' = api_key w ∧ posted (out w') = posted (out w).
Proof.
  rewrite on_update_dequeue_eq.
  match goal with
  | |- context [take_all now ?ts [] ?w0] =>
      pose proof (take_all_static now ts [] w0) as (H1 & H2 & H3)
  end.
  simpl in *. by rewrite posted_log in H3.
Qed.

Lemma submit_posts s t outcome now w :
  class_of (request s) = Some t →
  let w' := snd (submit s outcome now w) in
  api_url w' = api_url w ∧ api_key w' = api_key w ∧
  posted (out w') =
    posted (out w) ++ [(api_url w +:+ "/submit-" +:+ submission_type t, api_key w,
                        to_dict (request s))].
Proof.
  intros Ht. rewrite (submit_eq s t) by done. simpl.
  destruct outcome as [status text ct|]; simpl.
  - destruct (status =? 200); simpl.
    + by rewrite posted_emit, posted_log, posted_post, posted_log.
    + by rewrite posted_emit, posted_log, posted_post, posted_log.
  - by rewrite posted_post, posted_log.
Qed.

Lemma gather_posts (server : category → http_outcome * Z)
    (l : list (category * PendingSubmission)) w :
  Forall (λ ts, class_of (request ts.2) = Some ts.1) l →
  let w' := snd (gather (map (λ ts : category * PendingSubmission,
                                submit (snd ts) (fst (server (fst ts))) (snd (server (fst ts))))
                           l) w) in
  api_url w' = api_url w ∧ api_key w' = api_key w ∧
  posted (out w') =
    posted (out w) ++
    map (λ ts : category * PendingSubmission,
           (api_url w +:+ "/submit-" +:+ submission_type ts.1, api_key w,
            to_dict (request ts.2))) l.
Proof.
  revert w. induction l as [|[t s] l IH]; intros w Hl; simpl.
  { by rewrite app_nil_r. }
  inversion_clear Hl as [|? ? Hs Hl']. simpl in Hs.
  pose proof (submit_posts s t (fst (server t)) (snd (server t)) w Hs) as (H1 & H2 & H3).
  destruct (submit s _ _ w) as [[[]|e] w1]; simpl in *.
  - destruct (IH w1 Hl') as (H4 & H5 & H6).
    split; [congruence |]. split; [congruence |].
    rewrite H6, H3, H1, H2, <- app_assoc. done.
  - destruct (IH w1 Hl') as (H4 & H5 & H6).
    split; [congruence |]. split; [congruence |].
    rewrite H6, H3, H1, H2, <- app_assoc. done.
Qed.

(** X8: a tick posts exactly the submissions it took out, one
    request each, in the order precommit, benchmark, proof, to
    [api_url/submit-<category>] with the API key and the body
    [to_dict] of the request, whatever the answers are. *)
Theorem update_posts_what_it_dequeues (now : Z) (server : category → http_outcome * Z)
    (w : World) (l : list (category * PendingSubmission)) :
  (∀ t s, s ∈ queue t (pending_submissions w) → class_of (request s) = Some t) →
  fst (on_update_dequeue now w) = Ok l →
  posted (out (snd (on_update now server w))) =
    posted (out w) ++
    map (λ ts : category * PendingSubmission,
           (api_url w +:+ "/submit-" +:+ submission_type ts.1, api_key w,
            to_dict (request ts.2))) l.
Proof.
  intros Hclass Hl.
  assert (Forall (λ ts : category * PendingSubmission,
                    class_of (request ts.2) = Some ts.1) l) as Hcl.
  { apply Forall_forall. intros [t s] Hts. simpl. apply Hclass.
    eapply oldest_ready_elem. by eapply dequeued_oldest_ready. }
  pose proof (on_update_dequeue_static now w) as (H1 & H2 & H3).
  unfold on_update, bind.
  destruct (on_update_dequeue now w) as [r w1]. simpl in *. subst r.
  destruct (gather_posts server l w1 Hcl) as (_ & _ & H).
  rewrite H, H1, H2, H3. done.
Qed.

(** ** Precommits as they come *)

Lemma ready_precommit_queue e w :
  queue precommit (pending_submissions (snd (handle_ready e w))) =
    queue precommit (pending_submissions w) ++ precommit_requests [e].
Proof.
  destruct e as [settings n | id root nonces | id proofs]; cbn [handle_ready].
  - reflexivity.
  - unfold precommit_requests. csimpl. rewrite app_nil_r.
    by destruct (on_benchmark_ready_queues id root nonces w) as [-> | [_ ->]].
  - unfold precommit_requests. csimpl. rewrite app_nil_r.
    by destruct (on_proof_ready_queues id proofs w) as [-> | [_ ->]].
Qed.

(** X12: precommits are not told apart.  Along any sequence of ready
    events, whatever the other handlers do, the precommit queue grows by
    one fresh submission for every [precommit_ready] of the sequence,
    in order, equal ones included. *)
Theorem precommits_are_queued_as_they_come (es : list ready_event) (w : World) :
  queue precommit (pending_submissions (run_ready es w)) =
    queue precommit (pending_submissions w) ++ precommit_requests es.
Proof.
  revert w. induction es as [|e es IH]; intros w.
  { unfold precommit_requests. simpl. by rewrite app_nil_r. }
  unfold run_ready in *. cbn [foldl]. rewrite IH, ready_precommit_queue.
  rewrite <- app_assoc. f_equal.
  unfold precommit_requests. csimpl. by destruct e.
Qed.

(** ** The events of a tick *)

Lemma emitted_post o url key d : emitted (o ++ [Post url key d]) = emitted o.
Proof. unfold emitted. rewrite omap_app. simpl. by rewrite app_nil_r. Qed.

Lemma emitted_emit o e : emitted (o ++ [Emit e]) = emitted o ++ [e].
Proof. unfold emitted. by rewrite omap_app. Qed.

Lemma submit_event s t outcome now w :
  class_of (request s) = Some t →
  emitted (out (snd (submit s outcome now w))) =
    emitted (out w) ++ option_list (outcome_event t s outcome) ∧
  (outcome ≠ ConnectionFailed → fst (submit s outcome now w) = Ok tt).
Proof.
  intros Ht. rewrite (submit_eq s t) by done. simpl.
  destruct outcome as [status text ct|]; simpl.
  - destruct (status =? 200); simpl.
    + by rewrite emitted_emit, emitted_log, emitted_post, emitted_log.
    + by rewrite emitted_emit, emitted_log, emitted_post, emitted_log.
  - by rewrite emitted_post, emitted_log, app_nil_r.
Qed.

Lemma gather_events (server : category → http_outcome * Z)
    (l : list (category * PendingSubmission)) w :
  Forall (λ ts, class_of (request ts.2) = Some ts.1) l →
  (∀ t, fst (server t) ≠ ConnectionFailed) →
  let m := gather (map (λ ts : category * PendingSubmission,
                          submit (snd ts) (fst (server (fst ts))) (snd (server (fst ts))))
                     l) in
  fst (m w) = Ok tt ∧
  ∃ new, emitted (out (snd (m w))) = emitted (out w) ++ new ∧
         new ≡ₚ omap (λ ts : category * PendingSubmission,
                        outcome_event ts.1 ts.2 (fst (server ts.1))) l ∧
         length new = length l.
Proof.
  intros Hl Hserver. revert w.
  induction l as [|[t s] l IH]; intros w; simpl.
  { split; [done |]. exists []. by rewrite app_nil_r. }
  inversion_clear Hl as [|? ? Hs Hl']. simpl in Hs.
  pose proof (submit_event s t (fst (server t)) (snd (server t)) w Hs) as [H1 H2].
  specialize (H2 (Hserver t)).
  destruct (IH Hl' (snd (submit s (fst (server t)) (snd (server t)) w)))
    as (H3 & new & H4 & H5 & H6).
  destruct (submit s _ _ w) as [r w1]. simpl in *. subst r.
  split; [done |].
  destruct (fst (server t)) as [status text ct|] eqn:E; [| by destruct (Hserver t)].
  simpl in *.
  eexists (_ :: new). split; [| split].
  - rewrite H4, H1, <- app_assoc. reflexivity.
  - by rewrite H5.
  - simpl. by rewrite H6.
Qed.

(** X18: when the server answers every request of a tick, whatever
    the statuses, the tick returns: an HTTP error is an event, not an
    exception.  The tick then has emitted one event for each submission
    it took out, a success for a status of 200 and an error otherwise,
    and no other; the order of these events among each other is left
    open. *)
Theorem update_emits_an_event_per_answer (now : Z) (server : category → http_outcome * Z)
    (w : World) (l : list (category * PendingSubmission)) :
  (∀ t s, s ∈ queue t (pending_submissions w) → class_of (request s) = Some t) →
  fst (on_update_dequeue now w) = Ok l →
  (∀ t, fst (server t) ≠ ConnectionFailed) →
  fst (on_update now server w) = Ok tt ∧
  ∃ new, emitted (out (snd (on_update now server w))) = emitted (out w) ++ new ∧
         new ≡ₚ omap (λ ts : category * PendingSubmission,
                        outcome_event ts.1 ts.2 (fst (server ts.1))) l ∧
         length new = length l.
Proof.
  intros Hclass Hl Hserver.
  assert (Forall (λ ts : category * PendingSubmission,
                    class_of (request ts.2) = Some ts.1) l) as Hcl.
  { apply Forall_forall. intros [t s] Hts. simpl. apply Hclass.
    eapply oldest_ready_elem. by eapply dequeued_oldest_ready. }
  pose proof (on_update_dequeue_emitted now w) as Hout.
  unfold on_update, bind.
  destruct (on_update_dequeue now w) as [r w1]. simpl in *. subst r.
  destruct (gather_events server l w1 Hcl Hserver) as (H1 & new & H2 & H3 & H4).
  split; [done |]. exists new. by rewrite H2, Hout.
Qed.

End SubmissionsManager.

(** * A concrete manager

    The black boxes instantiated: settings are trivial, hashes and
    Merkle proofs are strings, and serialization is the identity, so
    that a backup file holds the request itself. *)

Module Demo.

Definition request : Type :=
  @Request unit string string.
Definition world : Type :=
  @World unit string string request request.

Definition to_dict (r : request) : request := r.
Definition json_dump (d : request) : request := d.
Definition json_load (text : request) : result request := Ok text.

Definition from_dict_benchmark (d : request) : result (@SubmitBenchmarkRequest string) :=
  match d with
  | ReqBenchmark r => Ok r
  | _ => Raise KeyError
  end.

Definition from_dict_proof (d : request) : result (@SubmitProofRequest string) :=
  match d with
  | ReqProof r => Ok r
  | _ => Raise KeyError
  end.

Definition config (max_retries : option Z) : SubmissionsManagerConfig :=
  mkConfig true max_retries 5000.

(** The manager constructed over an empty disk, with three attempts
    at most. *)
Definition started : world :=
  match init from_dict_benchmark from_dict_proof json_load
          "https://api" "key" "backup" (config (Some 3)) (mkFS ∅ ∅) with
  | Ok w => w
  | Raise _ => new_extension "https://api" "key" "backup" (config (Some 3)) (mkFS ∅ ∅)
  end.

Definition b1 : request :=
  ReqBenchmark (mkSubmitBenchmarkRequest "b1" "root" {[1; 2; 3]}).

(** After [benchmark_ready("b1", root, {1, 2, 3})]. *)
Definition ready : world :=
  snd (on_benchmark_ready to_dict json_dump "b1" "root" {[1; 2; 3]} started).

(** A block in which "b1" has no precommit any more. *)
Definition expired_block : world :=
  snd (on_new_block (Precommit := unit) ∅ {[ "benchmarks" := ∅; "proofs" := ∅ ]} ready).

(** Three benchmarks pending: "b1" is still precommitted, "b2" has lost
    its precommit, "b3" is confirmed. *)
Definition three_ready : world :=
  run_ready to_dict json_dump
    [benchmark_ready "b1" "root" {[1; 2; 3]};
     benchmark_ready "b2" "root" {[4]};
     benchmark_ready "b3" "root" ∅]
    started.

Definition precommits : gmap string unit := {[ "b1" := tt; "b3" := tt ]}.
Definition kwargs : gmap string (gset string) :=
  {[ "benchmarks" := {[ "b3" ]}; "proofs" := ∅ ]}.

(** The first tick after the delay takes "b1" out of its queue; the
    server answers 503 one millisecond later. *)
Definition dequeued : world := snd (on_update_dequeue 5000 ready).
Definition refused : world :=
  snd (submit to_dict (mkPendingSubmission 0 0 b1) (Response 503 "busy" None) 5001 dequeued).

(** The manager with "b1" pending and no maximum of retries. *)
Definition ready_forever : world :=
  mkWorld "https://api" "key" "backup" (config None)
    (pending_submissions ready) (disk ready) [].

(** A server out of reach, and one that accepts everything. *)
Definition unreachable : category → http_outcome * Z :=
  λ _, (ConnectionFailed, 5001).
Definition accepting : category → http_outcome * Z :=
  λ _, (Response 200 "ok" None, 5001).

(** A disk where the backup folder is a regular file. *)
Definition backup_is_a_file : FS request :=
  mkFS {[ "backup" := b1 ]} ∅.

End Demo.


(** * The properties at a concrete manager *)

(** C1 (the code at the failing input): "b1" is accepted and written to
    [backup/benchmark/b1.json]; the block that retires it empties the
    queue but removes [backup/b1.json], which does not exist, so the
    backup file stays and the next start restores the retired
    submission. *)
Theorem new_block_leaves_backup_file :
  files (disk Demo.ready) !! "backup/benchmark/b1.json" = Some Demo.b1 ∧
  queue benchmark (pending_submissions Demo.ready) = [mkPendingSubmission 0 0 Demo.b1] ∧
  Path.join3 (backup_folder Demo.ready) "benchmark" ("b1" +:+ ".json")
    = "backup/benchmark/b1.json" ∧
  Path.join (backup_folder Demo.ready) ("b1" +:+ ".json") = "backup/b1.json" ∧
  fst (on_new_block (Precommit := unit) ∅ {[ "benchmarks" := ∅; "proofs" := ∅ ]} Demo.ready)
    = Ok tt ∧
  queue benchmark (pending_submissions Demo.expired_block) = [] ∧
  files (disk Demo.expired_block) !! "backup/benchmark/b1.json" = Some Demo.b1 ∧
  (pending_submissions <$>
     match init Demo.from_dict_benchmark Demo.from_dict_proof Demo.json_load
             "https://api" "key" "backup" (Demo.config (Some 3)) (disk Demo.expired_block) with
     | Ok w => Some w
     | Raise _ => None
     end) = Some (mkQueues [] [mkPendingSubmission 0 0 Demo.b1] []).
Proof. repeat split; vm_compute; reflexivity. Qed.

(** C2 at [three_ready]: "b2" goes as expired, "b3" as confirmed, "b1"
    stays. *)
Lemma new_block_witness :
  Demo.kwargs !! "benchmarks" = Some ({[ "b3" ]} : gset string) ∧
  Demo.kwargs !! "proofs" = Some (∅ : gset string) ∧
  has_ids (queue benchmark (pending_submissions Demo.three_ready)) ∧
  has_ids (queue proof (pending_submissions Demo.three_ready)) ∧
  no_json_dirs (disk Demo.three_ready) = true ∧
  ∃ w', on_new_block Demo.precommits Demo.kwargs Demo.three_ready = (Ok tt, w') ∧
        queue benchmark (pending_submissions w') = [mkPendingSubmission 0 0 Demo.b1].
Proof.
  assert (Demo.kwargs !! "benchmarks" = Some ({[ "b3" ]} : gset string)) as H1
    by (vm_compute; reflexivity).
  assert (Demo.kwargs !! "proofs" = Some (∅ : gset string)) as H2
    by (vm_compute; reflexivity).
  assert (has_ids (queue benchmark (pending_submissions Demo.three_ready))) as H3.
  { vm_compute. repeat (constructor; [eexists; reflexivity |]). constructor. }
  assert (has_ids (queue proof (pending_submissions Demo.three_ready))) as H4.
  { vm_compute. constructor. }
  assert (no_json_dirs (disk Demo.three_ready) = true) as H5
    by (vm_compute; reflexivity).
  repeat (split; [assumption |]).
  destruct (new_block_removes_expired_and_confirmed
              Demo.precommits Demo.kwargs {[ "b3" ]} ∅ Demo.three_ready H1 H2 H3 H4 H5)
    as (w' & Hrun & Hq & _).
  exists w'. split; [exact Hrun |].
  rewrite Hq. vm_compute. reflexivity.
Defined.

(** C3 at a budget of three: put back twice, gone from the third tick
    on. *)
Lemma server_error_witness :
  class_of (request (mkPendingSubmission 0 0 Demo.b1)) = Some benchmark ∧
  (∀ k : nat, 2 ≤ Z.of_nat k →
     Z.of_nat (reenqueues Demo.to_dict benchmark 503 5000 k Demo.ready) = 2) ∧
  (∀ k : nat, k ≠ 0%nat → 3 ≤ Z.of_nat k →
     queue benchmark (pending_submissions (ticks Demo.to_dict 503 5000 k Demo.ready)) = []).
Proof.
  assert (class_of (request (mkPendingSubmission 0 0 Demo.b1)) = Some benchmark) as H
    by reflexivity.
  split; [exact H |].
  destruct (server_error_retries Demo.to_dict (mkPendingSubmission 0 0 Demo.b1) benchmark
              503 "busy" None 5001 Demo.dequeued H) as (_ & _ & _ & Hrun).
  destruct (Hrun 3 5000 Demo.ready) as (H1 & _ & H3).
  - lia.
  - vm_compute. reflexivity.
  - vm_compute. discriminate.
  - vm_compute. reflexivity.
  - split.
    + intros k Hk. apply (H1 ltac:(lia) k). lia.
    + exact H3.
Defined.

(** C5 from the empty queues: "b1" announced twice as a benchmark and
    once as a proof. *)
Lemma ready_events_witness :
  unique_ids Demo.started ∧
  unique_ids
    (run_ready Demo.to_dict Demo.json_dump
       [benchmark_ready "b1" "root" {[1; 2; 3]};
        benchmark_ready "b1" "other" ∅;
        proof_ready "b1" ["p"];
        precommit_ready tt 8]
       Demo.started).
Proof.
  assert (unique_ids Demo.started) as H.
  { split; vm_compute; constructor. }
  split; [exact H |].
  apply (ready_events_never_duplicate Demo.to_dict Demo.json_dump _ Demo.started H).
Defined.

(** C6 for "b1" on the disk of the started manager. *)
Lemma persisted_submission_witness :
  Path.has_slash "b1" = false ∧
  restorable (BenchmarkSettings := unit) Demo.from_dict_benchmark Demo.from_dict_proof Demo.json_load
    (disk Demo.started) benchmark (Path.join (backup_folder Demo.started) "benchmark") = true ∧
  restorable (BenchmarkSettings := unit) Demo.from_dict_benchmark Demo.from_dict_proof Demo.json_load
    (disk Demo.started) proof (Path.join (backup_folder Demo.started) "proof") = true ∧
  ∃ w', on_benchmark_ready Demo.to_dict Demo.json_dump "b1" "root" {[1; 2; 3]} Demo.started
          = (Ok tt, w') ∧
        ∃ w0, init Demo.from_dict_benchmark Demo.from_dict_proof Demo.json_load
                "https://api" "key" "backup" (Demo.config None) (disk w') = Ok w0 ∧
              mkPendingSubmission 0 0 Demo.b1 ∈ queue benchmark (pending_submissions w0).
Proof.
  assert (Path.has_slash "b1" = false) as H1 by reflexivity.
  assert (restorable (BenchmarkSettings := unit) Demo.from_dict_benchmark Demo.from_dict_proof Demo.json_load
            (disk Demo.started) benchmark
            (Path.join (backup_folder Demo.started) "benchmark") = true) as H2
    by (vm_compute; reflexivity).
  assert (restorable (BenchmarkSettings := unit) Demo.from_dict_benchmark Demo.from_dict_proof Demo.json_load
            (disk Demo.started) proof
            (Path.join (backup_folder Demo.started) "proof") = true) as H3
    by (vm_compute; reflexivity).
  repeat (split; [assumption |]).
  destruct (persisted_submission_is_restored Demo.to_dict Demo.from_dict_benchmark
              Demo.from_dict_proof Demo.json_dump Demo.json_load Demo.started "b1" H1 H2 H3)
    as [Hb _].
  destruct (Hb "root" {[1; 2; 3]}) as (w' & Hrun & _ & _ & Hrestart).
  - vm_compute. constructor.
  - vm_compute. apply not_elem_of_nil.
  - reflexivity.
  - exists w'. split; [exact Hrun |].
    destruct (Hrestart "https://api" "key" (Demo.config None)) as (w0 & Hinit & Hin & _).
    exists w0. split; [exact Hinit | exact Hin].
Defined.

(** C7 for "b1" answered with 200 and with 404. *)
Lemma submit_emits_witness :
  class_of (request (mkPendingSubmission 0 0 Demo.b1)) = Some benchmark ∧
  emitted (out (snd (submit Demo.to_dict (mkPendingSubmission 0 0 Demo.b1)
                       (Response 200 "ok" None) 5001 Demo.dequeued)))
    = emitted (out Demo.dequeued) ++ [submit_success benchmark "ok" Demo.b1] ∧
  emitted (out (snd (submit Demo.to_dict (mkPendingSubmission 0 0 Demo.b1)
                       (Response 404 "gone" None) 5001 Demo.dequeued)))
    = emitted (out Demo.dequeued) ++ [submit_error benchmark "gone" 404 Demo.b1].
Proof.
  assert (class_of (request (mkPendingSubmission 0 0 Demo.b1)) = Some benchmark) as H
    by reflexivity.
  split; [exact H |]. split.
  - destruct (submit_emits_outcome Demo.to_dict (mkPendingSubmission 0 0 Demo.b1) benchmark
                200 "ok" None 5001 Demo.dequeued H) as (_ & H200 & _).
    apply H200. reflexivity.
  - destruct (submit_emits_outcome Demo.to_dict (mkPendingSubmission 0 0 Demo.b1) benchmark
                404 "gone" None 5001 Demo.dequeued H) as (_ & _ & Hother).
    apply Hother. discriminate.
Defined.

(** [started] is what construction over the empty disk returns. *)
Lemma started_is_constructed :
  init Demo.from_dict_benchmark Demo.from_dict_proof Demo.json_load
    "https://api" "key" "backup" (Demo.config (Some 3)) (mkFS ∅ ∅) = Ok Demo.started.
Proof. vm_compute. reflexivity. Qed.

(** The manager that was refused once is a world in operation. *)
Lemma refused_is_reachable :
  reachable (Precommit := unit) Demo.to_dict Demo.from_dict_benchmark Demo.from_dict_proof
    Demo.json_dump Demo.json_load Demo.refused [].
Proof.
  pose proof (reach_init (Precommit := unit) Demo.to_dict Demo.from_dict_benchmark
                Demo.from_dict_proof Demo.json_dump Demo.json_load
                _ _ _ _ _ _ started_is_constructed) as H0.
  pose proof (reach_benchmark_ready _ _ _ _ _ _ _ "b1" "root" {[1; 2; 3]} H0) as H1.
  pose proof (reach_update _ _ _ _ _ _ _ 5000 H1) as H2.
  assert (match fst (on_update_dequeue 5000 Demo.ready) with
          | Ok l => map snd l
          | Raise _ => []
          end = [mkPendingSubmission 0 0 Demo.b1]) as E by (vm_compute; reflexivity).
  fold Demo.ready in H2. rewrite E in H2.
  exact (reach_response _ _ _ _ _ _ [] _ [] (Response 503 "busy" None) 5001 H2).
Qed.

(** C8 at the manager that was refused once. *)
Lemma queued_requests_witness :
  reachable (Precommit := unit) Demo.to_dict Demo.from_dict_benchmark Demo.from_dict_proof
    Demo.json_dump Demo.json_load Demo.refused [] ∧
  queue benchmark (pending_submissions Demo.refused) = [mkPendingSubmission 5001 1 Demo.b1] ∧
  (∀ t s, s ∈ queue t (pending_submissions Demo.refused) → class_of (request s) = Some t) ∧
  (∀ now server, fst (on_update Demo.to_dict now server Demo.refused) ≠ Raise ValueError).
Proof.
  split; [exact refused_is_reachable |].
  split; [vm_compute; reflexivity |].
  destruct (queued_requests_have_a_submission_type Demo.to_dict Demo.from_dict_benchmark
              Demo.from_dict_proof Demo.json_dump Demo.json_load Demo.refused []
              refused_is_reachable) as (Htyped & _ & _ & _ & Hupdate).
  split; [exact Htyped | exact Hupdate].
Defined.

(** C10 at the manager that was refused once: one retry used of
    three. *)
Lemma retries_below_max_witness :
  reachable (Precommit := unit) Demo.to_dict Demo.from_dict_benchmark Demo.from_dict_proof
    Demo.json_dump Demo.json_load Demo.refused [] ∧
  max_retries (config Demo.refused) = Some 3 ∧
  1 ≤ 3 ∧
  queue benchmark (pending_submissions Demo.refused) = [mkPendingSubmission 5001 1 Demo.b1] ∧
  ∀ t s, s ∈ queue t (pending_submissions Demo.refused) → retries s < 3.
Proof.
  assert (max_retries (config Demo.refused) = Some 3) as Hmax by (vm_compute; reflexivity).
  split; [exact refused_is_reachable |].
  split; [exact Hmax |].
  split; [lia |].
  split; [vm_compute; reflexivity |].
  exact (queued_retries_below_max Demo.to_dict Demo.from_dict_benchmark Demo.from_dict_proof
           Demo.json_dump Demo.json_load Demo.refused [] 3
           refused_is_reachable Hmax ltac:(lia)).
Defined.

(** X2 at the block that retires "b1": its backup file is where it
    was. *)
Lemma category_files_witness :
  Forall (λ id, Path.has_slash id = false)
    (ids (queue benchmark (pending_submissions Demo.ready)) ++
     ids (queue proof (pending_submissions Demo.ready))) ∧
  Path.has_slash "b1.json" = false ∧
  files (disk Demo.expired_block)
    !! Path.join (Path.join (backup_folder Demo.ready) (submission_type benchmark)) "b1.json" =
  files (disk Demo.ready)
    !! Path.join (Path.join (backup_folder Demo.ready) (submission_type benchmark)) "b1.json".
Proof.
  assert (Forall (λ id, Path.has_slash id = false)
            (ids (queue benchmark (pending_submissions Demo.ready)) ++
             ids (queue proof (pending_submissions Demo.ready)))) as H1.
  { vm_compute. repeat constructor. }
  assert (Path.has_slash "b1.json" = false) as H2 by reflexivity.
  split; [exact H1 |]. split; [exact H2 |].
  exact (new_block_keeps_category_files (Precommit := unit) ∅
           {[ "benchmarks" := ∅; "proofs" := ∅ ]} Demo.ready benchmark "b1.json" H1 H2).
Defined.

(** X3 at the manager with "b1" pending and an event without confirmed
    sets: all is well when "b1" has expired, [KeyError] when it has
    not. *)
Lemma missing_confirmed_set_witness :
  has_ids (queue benchmark (pending_submissions Demo.ready)) ∧
  has_ids (queue proof (pending_submissions Demo.ready)) ∧
  no_json_dirs (disk Demo.ready) = true ∧
  fst (on_new_block (Precommit := unit) ∅ ∅ Demo.ready) = Ok tt ∧
  fst (on_new_block (Precommit := unit) {[ "b1" := tt ]} ∅ Demo.ready) = Raise KeyError ∧
  queue benchmark
    (pending_submissions (snd (on_new_block (Precommit := unit) {[ "b1" := tt ]} ∅ Demo.ready))) =
  queue benchmark (pending_submissions Demo.ready).
Proof.
  assert (has_ids (queue benchmark (pending_submissions Demo.ready))) as H1.
  { vm_compute. repeat (constructor; [eexists; reflexivity |]). constructor. }
  assert (has_ids (queue proof (pending_submissions Demo.ready))) as H2.
  { vm_compute. constructor. }
  assert (no_json_dirs (disk Demo.ready) = true) as H3 by (vm_compute; reflexivity).
  repeat (split; [assumption |]).
  split.
  - destruct (new_block_missing_confirmed_set (Precommit := unit) ∅ ∅ Demo.ready H1 H2 H3)
      as [Hexp _].
    apply Hexp. vm_compute. repeat constructor.
  - destruct (new_block_missing_confirmed_set (Precommit := unit) {[ "b1" := tt ]} ∅
                Demo.ready H1 H2 H3) as [_ Hkey].
    destruct Hkey as (Hr & Hq & _).
    + reflexivity.
    + vm_compute. left. eexists. reflexivity.
    + split; [exact Hr | exact Hq].
Defined.

(** X14 on the disk that holds the backup file of "b1". *)
Lemma construction_iff_witness :
  Os.is_dir (disk Demo.ready) (Path.join "backup" "benchmark") = true ∧
  Os.is_dir (disk Demo.ready) (Path.join "backup" "proof") = true ∧
  ∃ w, init (BenchmarkSettings := unit) Demo.from_dict_benchmark Demo.from_dict_proof
         Demo.json_load "https://api" "key" "backup" (Demo.config None) (disk Demo.ready) = Ok w ∧
       disk w = disk Demo.ready.
Proof.
  assert (Os.is_dir (disk Demo.ready) (Path.join "backup" "benchmark") = true) as H1
    by (vm_compute; reflexivity).
  assert (Os.is_dir (disk Demo.ready) (Path.join "backup" "proof") = true) as H2
    by (vm_compute; reflexivity).
  split; [exact H1 |]. split; [exact H2 |].
  apply (construction_succeeds_iff_restorable (BenchmarkSettings := unit)
           Demo.from_dict_benchmark Demo.from_dict_proof Demo.json_load
           "https://api" "key" "backup" (Demo.config None) (disk Demo.ready) H1 H2).
  split; vm_compute; reflexivity.
Defined.

(** X15 at the manager constructed over the empty disk. *)
Lemma restartable_witness :
  init (BenchmarkSettings := unit) Demo.from_dict_benchmark Demo.from_dict_proof Demo.json_load
    "https://api" "key" "backup" (Demo.config (Some 3)) (mkFS ∅ ∅) = Ok Demo.started ∧
  ∃ w2, init (BenchmarkSettings := unit) Demo.from_dict_benchmark Demo.from_dict_proof
          Demo.json_load "https://other" "key2" "backup" (Demo.config None)
          (disk Demo.started) = Ok w2.
Proof.
  split; [exact started_is_constructed |].
  destruct (construction_leaves_restartable Demo.from_dict_benchmark Demo.from_dict_proof
              Demo.json_load _ _ _ _ _ _ started_is_constructed) as (_ & _ & _ & _ & H).
  exact (H "https://other" "key2" (Demo.config None)).
Defined.

(** X4 at the block that retires "b1". *)
Lemma block_restartable_witness :
  restorable (BenchmarkSettings := unit) Demo.from_dict_benchmark Demo.from_dict_proof
    Demo.json_load (disk Demo.ready) benchmark
    (Path.join (backup_folder Demo.ready) (submission_type benchmark)) = true ∧
  restorable (BenchmarkSettings := unit) Demo.from_dict_benchmark Demo.from_dict_proof
    Demo.json_load (disk Demo.expired_block) benchmark
    (Path.join (backup_folder Demo.ready) (submission_type benchmark)) = true.
Proof.
  assert (restorable (BenchmarkSettings := unit) Demo.from_dict_benchmark Demo.from_dict_proof
            Demo.json_load (disk Demo.ready) benchmark
            (Path.join (backup_folder Demo.ready) (submission_type benchmark)) = true) as H
    by (vm_compute; reflexivity).
  split; [exact H |].
  exact (new_block_keeps_restartable (Precommit := unit) Demo.from_dict_benchmark
           Demo.from_dict_proof Demo.json_load ∅ {[ "benchmarks" := ∅; "proofs" := ∅ ]}
           Demo.ready benchmark H).
Defined.

Lemma empty_disk_vacant (p : string) : nothing_at_or_below (mkFS (∅ : gmap string Demo.request) ∅) p.
Proof.
  intros k Hk. simpl in Hk. rewrite dom_empty_L in Hk.
  apply elem_of_union in Hk as [Hk | Hk]; by apply elem_of_empty in Hk.
Qed.

(** X16 on the empty disk. *)
Lemma fresh_disk_witness :
  nothing_at_or_below (mkFS (∅ : gmap string Demo.request) ∅) (Path.join "backup" "benchmark") ∧
  nothing_at_or_below (mkFS (∅ : gmap string Demo.request) ∅) (Path.join "backup" "proof") ∧
  ∃ w, init (BenchmarkSettings := unit) Demo.from_dict_benchmark Demo.from_dict_proof
         Demo.json_load "https://api" "key" "backup" (Demo.config None) (mkFS ∅ ∅) = Ok w ∧
       pending_submissions w = no_queues.
Proof.
  split; [apply empty_disk_vacant |]. split; [apply empty_disk_vacant |].
  destruct (construction_on_a_fresh_disk (BenchmarkSettings := unit) Demo.from_dict_benchmark
              Demo.from_dict_proof Demo.json_load "https://api" "key" "backup"
              (Demo.config None) (mkFS ∅ ∅)
              (empty_disk_vacant _) (empty_disk_vacant _) eq_refl eq_refl)
    as (w & Hinit & Hq & _).
  exists w. split; [exact Hinit | exact Hq].
Defined.

(** X6 at three fresh benchmarks: the first that came is taken, the
    two others stay in their order. *)
Lemma first_of_the_oldest_witness :
  fst (on_update_dequeue 5000 Demo.three_ready) = Ok [(benchmark, mkPendingSubmission 0 0 Demo.b1)] ∧
  ascending last_retry_time (queue benchmark (pending_submissions Demo.three_ready)) ∧
  queue benchmark (pending_submissions Demo.three_ready) =
    mkPendingSubmission 0 0 Demo.b1 ::
    queue benchmark (pending_submissions (snd (on_update_dequeue 5000 Demo.three_ready))).
Proof.
  assert (fst (on_update_dequeue 5000 Demo.three_ready) =
          Ok [(benchmark, mkPendingSubmission 0 0 Demo.b1)]) as H by (vm_compute; reflexivity).
  assert (ascending last_retry_time (queue benchmark (pending_submissions Demo.three_ready)))
    as Hasc.
  { unfold ascending. vm_compute. repeat constructor; discriminate. }
  split; [exact H |]. split; [exact Hasc |].
  destruct (update_takes_first_of_the_oldest 5000 Demo.three_ready _ benchmark
              (mkPendingSubmission 0 0 Demo.b1) H ltac:(left)) as [_ Hfifo].
  exact (Hfifo Hasc).
Defined.

(** X7 at the same manager: one benchmark is due, the queue gets
    shorter by one. *)
Lemma one_when_due_witness :
  fst (on_update_dequeue 5000 Demo.three_ready) = Ok [(benchmark, mkPendingSubmission 0 0 Demo.b1)] ∧
  length (queue benchmark (pending_submissions Demo.three_ready)) =
    S (length (queue benchmark
                 (pending_submissions (snd (on_update_dequeue 5000 Demo.three_ready))))).
Proof.
  assert (fst (on_update_dequeue 5000 Demo.three_ready) =
          Ok [(benchmark, mkPendingSubmission 0 0 Demo.b1)]) as H by (vm_compute; reflexivity).
  split; [exact H |].
  destruct (update_takes_one_when_some_is_due 5000 Demo.three_ready _ benchmark H) as [Hdue _].
  apply Hdue. vm_compute. left. discriminate.
Defined.

(** X9 at the same manager, the server out of reach. *)
Lemma unreachable_server_witness :
  fst (on_update_dequeue 5000 Demo.three_ready) = Ok [(benchmark, mkPendingSubmission 0 0 Demo.b1)] ∧
  (∀ t, fst (Demo.unreachable t) = ConnectionFailed) ∧
  (∃ e, fst (on_update Demo.to_dict 5000 Demo.unreachable Demo.three_ready) = Raise e) ∧
  emitted (out (snd (on_update Demo.to_dict 5000 Demo.unreachable Demo.three_ready))) =
    emitted (out Demo.three_ready).
Proof.
  assert (fst (on_update_dequeue 5000 Demo.three_ready) =
          Ok [(benchmark, mkPendingSubmission 0 0 Demo.b1)]) as H by (vm_compute; reflexivity).
  assert (∀ t, fst (Demo.unreachable t) = ConnectionFailed) as Hs by reflexivity.
  split; [exact H |]. split; [exact Hs |].
  destruct (unreachable_server_drops_submissions Demo.to_dict 5000 Demo.unreachable
              Demo.three_ready _ H Hs) as (Hraise & _ & _ & Hemit).
  split; [apply Hraise; discriminate | exact Hemit].
Defined.

(** X10 for "b1" refused ten times. *)
Lemma unbounded_retries_witness :
  class_of Demo.b1 = Some benchmark ∧
  max_retries (config Demo.ready_forever) = None ∧
  pending_submissions (ticks Demo.to_dict 503 5000 10 Demo.ready_forever) =
    set_queue benchmark [mkPendingSubmission (Z.of_nat 10 * 5000) (Z.of_nat 10) Demo.b1] no_queues.
Proof.
  split; [reflexivity |]. split; [reflexivity |].
  apply (unbounded_retries_never_give_up Demo.to_dict benchmark Demo.b1 503 5000
           Demo.ready_forever).
  - reflexivity.
  - lia.
  - reflexivity.
  - vm_compute. discriminate.
  - vm_compute. reflexivity.
Defined.

(** [ready_queues_before_it_writes] for an id with a separator: the
    directory of the backup file is missing. *)
Lemma write_fails_witness :
  has_ids (queue benchmark (pending_submissions Demo.started)) ∧
  ("a/b" ∉ ids (queue benchmark (pending_submissions Demo.started))) ∧
  Path.join3 (backup_folder Demo.started) "benchmark" ("a/b" +:+ ".json") =
    "backup/benchmark/a/b.json" ∧
  Path.dirname "backup/benchmark/a/b.json" = "backup/benchmark/a" ∧
  Os.is_dir (disk Demo.started) "backup/benchmark/a" = false ∧
  ∃ e, e ∈ [IsADirectoryError; NotADirectoryError; FileNotFoundError] ∧
       fst (on_benchmark_ready Demo.to_dict Demo.json_dump "a/b" "root" ∅ Demo.started) =
         Raise e ∧
       length (queue benchmark
                 (pending_submissions
                    (snd (on_benchmark_ready Demo.to_dict Demo.json_dump "a/b" "root" ∅
                            Demo.started)))) = 1%nat.
Proof.
  assert (has_ids (queue benchmark (pending_submissions Demo.started))) as H1
    by (vm_compute; constructor).
  assert ("a/b" ∉ ids (queue benchmark (pending_submissions Demo.started))) as H2
    by (vm_compute; apply not_elem_of_nil).
  split; [exact H1 |]. split; [exact H2 |].
  split; [vm_compute; reflexivity |]. split; [vm_compute; reflexivity |].
  split; [vm_compute; reflexivity |].
  destruct (ready_queues_before_it_writes Demo.to_dict Demo.json_dump "a/b" Demo.started)
    as [Hb _].
  destruct (Hb "root" ∅ H1 H2) as (e & He & Hrun & _ & _).
  { right. split; [vm_compute; discriminate | vm_compute; reflexivity]. }
  exists e. split; [exact He |]. rewrite Hrun. split; reflexivity.
Defined.

(** X17 on the empty disk, and on a disk where "backup" is a regular
    file. *)
Lemma master_witness :
  "backup" ≠ "" ∧ Path.endswith "/" "backup" = false ∧
  (∃ fs1 w,
     prepare_backup_folder "backup" (mkFS (∅ : gmap string Demo.request) ∅) =
       ([CreatingBackupFolderAt "backup"], Ok fs1) ∧
     init (BenchmarkSettings := unit) Demo.from_dict_benchmark Demo.from_dict_proof
       Demo.json_load "https://api" "key" "backup" (Demo.config None) fs1 = Ok w) ∧
  init (BenchmarkSettings := unit) Demo.from_dict_benchmark Demo.from_dict_proof
    Demo.json_load "https://api" "key" "backup" (Demo.config None) Demo.backup_is_a_file =
    Raise NotADirectoryError.
Proof.
  assert ("backup" ≠ "") as H1 by discriminate.
  assert (Path.endswith "/" "backup" = false) as H2 by reflexivity.
  split; [exact H1 |]. split; [exact H2 |]. split.
  - destruct (master_prepares_the_backup_folder (BenchmarkSettings := unit)
                Demo.from_dict_benchmark Demo.from_dict_proof Demo.json_load
                "https://api" "key" "backup" (Demo.config None) (mkFS ∅ ∅) H1 H2) as [Hfresh _].
    destruct (Hfresh (empty_disk_vacant _) eq_refl) as (fs1 & w & Hprep & _ & Hinit & _).
    exists fs1, w. split; [exact Hprep | exact Hinit].
  - destruct (master_prepares_the_backup_folder (BenchmarkSettings := unit)
                Demo.from_dict_benchmark Demo.from_dict_proof Demo.json_load
                "https://api" "key" "backup" (Demo.config None) Demo.backup_is_a_file H1 H2)
      as [_ Hfile].
    destruct Hfile as [_ Hinit]; [vm_compute; reflexivity | vm_compute; reflexivity |].
    exact Hinit.
Defined.

(** The queues of [three_ready] and what the tick at 5000 takes. *)
Lemma three_ready_classes :
  ∀ t s, s ∈ queue t (pending_submissions Demo.three_ready) → class_of (request s) = Some t.
Proof.
  assert (pending_submissions Demo.three_ready =
          mkQueues []
            [mkPendingSubmission 0 0 Demo.b1;
             mkPendingSubmission 0 0 (ReqBenchmark (mkSubmitBenchmarkRequest "b2" "root" {[4]}));
             mkPendingSubmission 0 0 (ReqBenchmark (mkSubmitBenchmarkRequest "b3" "root" ∅))]
            []) as -> by (vm_compute; reflexivity).
  intros [] s Hs; simpl in Hs.
  - by apply elem_of_nil in Hs.
  - repeat (apply elem_of_cons in Hs as [-> | Hs]; [reflexivity |]).
    by apply elem_of_nil in Hs.
  - by apply elem_of_nil in Hs.
Qed.

Lemma three_ready_dequeue :
  fst (on_update_dequeue 5000 Demo.three_ready) = Ok [(benchmark, mkPendingSubmission 0 0 Demo.b1)].
Proof. vm_compute. reflexivity. Qed.

(** X8 at three pending benchmarks: one POST, for "b1", to the
    benchmark endpoint. *)
Lemma posts_witness :
  (∀ t s, s ∈ queue t (pending_submissions Demo.three_ready) → class_of (request s) = Some t) ∧
  fst (on_update_dequeue 5000 Demo.three_ready) = Ok [(benchmark, mkPendingSubmission 0 0 Demo.b1)] ∧
  posted (out (snd (on_update Demo.to_dict 5000 Demo.accepting Demo.three_ready))) =
    posted (out Demo.three_ready) ++ [("https://api/submit-benchmark", "key", Demo.b1)].
Proof.
  split; [exact three_ready_classes |]. split; [exact three_ready_dequeue |].
  exact (update_posts_what_it_dequeues Demo.to_dict 5000 Demo.accepting Demo.three_ready _
           three_ready_classes three_ready_dequeue).
Defined.

(** [update_emits_an_event_per_answer] at the same manager, the server
    accepting: the tick returns and has emitted the success of "b1". *)
Lemma tick_events_witness :
  (∀ t s, s ∈ queue t (pending_submissions Demo.three_ready) → class_of (request s) = Some t) ∧
  fst (on_update_dequeue 5000 Demo.three_ready) = Ok [(benchmark, mkPendingSubmission 0 0 Demo.b1)] ∧
  (∀ t, fst (Demo.accepting t) ≠ ConnectionFailed) ∧
  fst (on_update Demo.to_dict 5000 Demo.accepting Demo.three_ready) = Ok tt ∧
  ∃ new,
    emitted (out (snd (on_update Demo.to_dict 5000 Demo.accepting Demo.three_ready))) =
      emitted (out Demo.three_ready) ++ new ∧
    new ≡ₚ [submit_success benchmark "ok" Demo.b1] ∧
    length new = 1%nat.
Proof.
  assert (∀ t, fst (Demo.accepting t) ≠ ConnectionFailed) as H by (intros t; discriminate).
  split; [exact three_ready_classes |]. split; [exact three_ready_dequeue |].
  split; [exact H |].
  exact (update_emits_an_event_per_answer Demo.to_dict 5000 Demo.accepting
           Demo.three_ready _ three_ready_classes three_ready_dequeue H).
Defined.
